(** * Stacked container optimizer: a shallow embedding of
      [src/optimization/stacked_optimizer.py]

    Python floats are modelled as exact rationals [Q] (rounding is not
    modelled), Python ints as [Z], lists as [list].  The global [random]
    module is an explicit generator state threaded through a small
    state-and-exception monad.

    Where the behaviour depends on rounding, the computation is taken in
    binary64 instead: the elitism count of the constructor, and module
    [F64], which repeats the methods an evaluation runs with the
    interpreter's arithmetic. *)

From Stdlib Require Import String.
From Stdlib Require Import ZArith QArith Qminmax Qround List Bool Lia Lqa.
From Stdlib Require Import Permutation FinFun.
From Stdlib Require Import PrimFloat SpecFloat FloatOps.
Import ListNotations.

Set Implicit Arguments.
Set Warnings "-inexact-float".

(** ** Python runtime pieces used by the module *)

Module Py.

(** Exceptions the module can raise. *)
Inductive exn : Type :=
| IndexError
| ValueError
| ZeroDivisionError
| OverflowError.

Inductive res (A : Type) : Type :=
| Ok (a : A)
| Raise (e : exn).
Arguments Raise {A} e.

(** [a < b] on floats. *)
Definition Qlt_bool (a b : Q) : bool := negb (Qle_bool b a).

(** [l[i]] for a Python int [i]: negative indexes count from the end,
    anything else out of range is an [IndexError] ([None] here). *)
Definition index {A : Type} (l : list A) (i : Z) : option A :=
  let n := Z.of_nat (length l) in
  if (0 <=? i)%Z then nth_error l (Z.to_nat i)
  else if (- n <=? i)%Z then nth_error l (Z.to_nat (n + i))
  else None.

(** Replace position [k] of [l]; nothing happens when [k] is out of range
    (callers check the range themselves). *)
Fixpoint set_nth {A : Type} (l : list A) (k : nat) (v : A) : list A :=
  match l, k with
  | [], _ => []
  | _ :: t, O => v :: t
  | h :: t, S k' => h :: set_nth t k' v
  end.

(** [l[i] = v] for a Python int [i]. *)
Definition setitem {A : Type} (l : list A) (i : Z) (v : A) : option (list A) :=
  let n := Z.of_nat (length l) in
  if (0 <=? i)%Z then
    if (i <? n)%Z then Some (set_nth l (Z.to_nat i) v) else None
  else if (- n <=? i)%Z then Some (set_nth l (Z.to_nat (n + i)) v)
  else None.

(** [l[a:b]] and [l[a:b] = new] for [0 <= a] and [0 <= b]. *)
Definition slice {A : Type} (l : list A) (a b : nat) : list A :=
  firstn (b - a) (skipn a l).

Definition slice_assign {A : Type} (l : list A) (a b : nat) (new : list A)
  : list A :=
  firstn a l ++ new ++ skipn (Nat.max a b) l.

(** [l[:n]] for a Python int [n]: a negative [n] drops from the end. *)
Definition prefix {A : Type} (l : list A) (n : Z) : list A :=
  if (0 <=? n)%Z then firstn (Z.to_nat n) l
  else firstn (length l - Z.to_nat (- n)) l.

(** [max(iterable)] on a non-empty iterable: the first maximal element. *)
Definition max_list (x : Q) (xs : list Q) : Q := fold_left Qmax xs x.

(** [sum(iterable)], starting from the int 0. *)
Definition sum (xs : list Q) : Q := fold_left Qplus xs 0.

(** [range(n)] as a list of ints. *)
Definition range (n : nat) : list Z := map Z.of_nat (seq 0 n).

(** Tuples of two floats compare lexicographically. *)
Definition pair_lt (p q : Q * Q) : bool :=
  Qlt_bool (fst p) (fst q)
  || (Qeq_bool (fst p) (fst q) && Qlt_bool (snd p) (snd q)).

(** [list.sort()] on tuples of floats: a stable sort; insertion keeps an
    element after the ones it is not smaller than. *)
Fixpoint insert_sorted (p : Q * Q) (l : list (Q * Q)) : list (Q * Q) :=
  match l with
  | [] => [p]
  | q :: t => if pair_lt p q then p :: q :: t else q :: insert_sorted p t
  end.

Definition sort (l : list (Q * Q)) : list (Q * Q) :=
  fold_left (fun acc p => insert_sorted p acc) l [].

(** *** The [random] module

    The generator is a stream of raw integers with a read position; every
    draw consumes one raw integer and reduces it into the requested range,
    so each value the library can return is the image of some stream. *)

Record rng : Type := mkRng { raw : nat -> Z; pos : nat }.

Definition M (A : Type) : Type := rng -> res (A * rng).

Definition ret {A : Type} (a : A) : M A := fun g => Ok (a, g).

Definition bind {A B : Type} (m : M A) (k : A -> M B) : M B :=
  fun g => match m g with
           | Ok (a, g') => k a g'
           | Raise e => Raise e
           end.

Definition raise {A : Type} (e : exn) : M A := fun _ => Raise e.

(** A computation that does not touch the generator. *)
Definition lift {A : Type} (r : res A) : M A :=
  fun g => match r with
           | Ok a => Ok (a, g)
           | Raise e => Raise e
           end.

(** One raw draw. *)
Definition draw : M Z :=
  fun g => Ok (raw g (pos g), mkRng (raw g) (S (pos g))).

(** [random._randbelow(n)] for [n > 0]. *)
Definition randbelow (n : Z) : M Z :=
  bind draw (fun r => ret (r mod n)%Z).

(** [random.random()]: a multiple of 2^-53 in [0, 1). *)
Definition random : M Q :=
  bind draw (fun r => ret ((r mod 2 ^ 53)%Z # 2 ^ 53)).

(** [random.uniform(a, b)] is [a + (b - a) * random()]. *)
Definition uniform (a b : Q) : M Q :=
  bind random (fun u => ret (a + (b - a) * u)).

(** [random.randint(a, b)]: [ValueError] on an empty range. *)
Definition randint (a b : Z) : M Z :=
  if (b <? a)%Z then raise ValueError
  else bind (randbelow (b - a + 1)) (fun r => ret (a + r)%Z).

(** [random.choice(seq)] on a non-empty sequence ([IndexError] when empty). *)
Definition choice {A : Type} (l : list A) : M A :=
  match l with
  | [] => raise IndexError
  | d :: _ =>
      bind (randbelow (Z.of_nat (length l)))
           (fun r => ret (nth (Z.to_nat r) l d))
  end.

(** [random.sample(range(n), 2)]: two distinct positions; [ValueError] when
    the population has fewer than two elements. *)
Definition sample2 (n : nat) : M (nat * nat) :=
  if (n <? 2)%nat then raise ValueError
  else
    bind (randbelow (Z.of_nat n)) (fun r1 =>
    bind (randbelow (Z.of_nat n - 1)) (fun r2 =>
      let i := Z.to_nat r1 in
      let j' := Z.to_nat r2 in
      ret (i, if (j' <? i)%nat then j' else S j'))).

(** [x[i], x[j] = x[j], x[i]]. *)
Definition swap {A : Type} (l : list A) (i j : nat) : list A :=
  match nth_error l i, nth_error l j with
  | Some vi, Some vj => set_nth (set_nth l i vj) j vi
  | _, _ => l
  end.

(** [random.shuffle(x)]: for [i] from [len(x) - 1] down to 1, swap position
    [i] with a position drawn below [i + 1]. *)
Fixpoint shuffle_from {A : Type} (i : nat) (l : list A) : M (list A) :=
  match i with
  | O => ret l
  | S i' =>
      bind (randbelow (Z.of_nat (S i))) (fun j =>
        shuffle_from i' (swap l i (Z.to_nat j)))
  end.

Definition shuffle {A : Type} (l : list A) : M (list A) :=
  shuffle_from (length l - 1) l.

(** [l] without the element at position [k]. *)
Fixpoint remove_nth {A : Type} (l : list A) (k : nat) : list A :=
  match l, k with
  | [], _ => []
  | _ :: t, O => t
  | h :: t, S k' => h :: remove_nth t k'
  end.

(** [random.sample(population, k)]: [k] elements at distinct positions in
    selection order, each drawn among those not selected yet;
    [ValueError] when [k] is negative or exceeds the population. *)
Fixpoint sample_from {A : Type} (pool : list A) (k : nat) : M (list A) :=
  match k with
  | O => ret []
  | S k' =>
      bind (randbelow (Z.of_nat (length pool))) (fun j =>
        match nth_error pool (Z.to_nat j) with
        | None => raise ValueError
        | Some x =>
            bind (sample_from (remove_nth pool (Z.to_nat j)) k')
                 (fun rest => ret (x :: rest))
        end)
  end.

Definition sample {A : Type} (population : list A) (k : Z) : M (list A) :=
  if ((k <? 0) || (Z.of_nat (length population) <? k))%Z
  then raise ValueError
  else sample_from population (Z.to_nat k).

(** [max(iterable, key=key)]: the first element whose key is maximal;
    [ValueError] on an empty iterable ([None] here). *)
Definition max_by {A : Type} (key : A -> Q) (l : list A) : option A :=
  match l with
  | [] => None
  | x :: rest =>
      Some (fold_left (fun best y => if Qlt_bool (key best) (key y)
                                     then y else best) rest x)
  end.

(** [list.sort(key=key, reverse=True)]: stable and descending; an element
    goes after the ones whose key is not smaller. *)
Fixpoint insert_descending {A : Type} (key : A -> Q) (x : A) (l : list A)
  : list A :=
  match l with
  | [] => [x]
  | y :: t => if Qlt_bool (key y) (key x) then x :: y :: t
              else y :: insert_descending key x t
  end.

Definition sort_descending {A : Type} (key : A -> Q) (l : list A) : list A :=
  fold_left (fun acc x => insert_descending key x acc) l [].

(** *** Binary64

    Where rounding matters, floats are the interpreter's binary64 values
    with their IEEE 754 operations. *)

(** [float(z)] for a Python int: the nearest binary64 value, ties to
    even; [OverflowError] when [z] is too large for one. *)
Definition float_of_int (z : Z) : float :=
  SF2Prim (binary_normalize prec emax z 0 false).

Definition to_float (z : Z) : res float :=
  let f := float_of_int z in
  if is_infinity f then Raise OverflowError else Ok f.

(** [int(x)] for a float: truncation towards zero; [OverflowError] on an
    infinity, [ValueError] on a NaN. *)
Definition int_of_float (x : float) : res Z :=
  match Prim2SF x with
  | S754_zero _ => Ok 0%Z
  | S754_infinity _ => Raise OverflowError
  | S754_nan => Raise ValueError
  | S754_finite s m e =>
      let magnitude :=
        if (0 <=? e)%Z then (Z.pos m * 2 ^ e)%Z
        else (Z.pos m / 2 ^ (- e))%Z in
      Ok (if s then (- magnitude)%Z else magnitude)
  end.

(** [max(a, b)] and [min(a, b)] on floats: the first argument unless the
    second is strictly beyond it. *)
Definition fmax (a b : float) : float := if (a <? b)%float then b else a.
Definition fmin (a b : float) : float := if (b <? a)%float then b else a.

(** [sum(xs)], from the left. *)
Definition fsum (xs : list float) : float := fold_left PrimFloat.add xs 0%float.

End Py.

Import Py.

Notation "x <- m ;; k" := (bind m (fun x => k))
  (at level 61, m at next level, right associativity).

(** ** Rectangle *)

Module Rectangle.

Record t : Type := mk { width : Q; height : Q; id : Z }.

Definition area (r : t) : Q := width r * height r.

End Rectangle.

(** [all_rectangles[rect_id]] for an id already stored in a container.
    Ids reach a container only through [pack_rectangles], which indexes the
    rectangle table first (and raises there); the default is never read on
    such containers. *)
Definition rect_at (all_rectangles : list Rectangle.t) (rect_id : Z)
  : Rectangle.t :=
  match index all_rectangles rect_id with
  | Some r => r
  | None => Rectangle.mk 0 0 rect_id
  end.

(** ** Container *)

Module Container.

Record t : Type := mk {
  width : Q;
  height : Q;
  id : Z;
  bottom_rectangles : list (Z * Q);
  top_rectangles : list (Z * Q)
}.

(** [Container(width, height, id)]: both edges start empty. *)
Definition new (w h : Q) (i : Z) : t := mk w h i [] [].

Definition set_height (c : t) (h : Q) : t :=
  mk (width c) h (id c) (bottom_rectangles c) (top_rectangles c).

Definition append_bottom (c : t) (p : Z * Q) : t :=
  mk (width c) (height c) (id c) (bottom_rectangles c ++ [p])
     (top_rectangles c).

Definition append_top (c : t) (p : Z * Q) : t :=
  mk (width c) (height c) (id c) (bottom_rectangles c)
     (top_rectangles c ++ [p]).

Definition heights_of (all_rectangles : list Rectangle.t)
  (items : list (Z * Q)) : list Q :=
  map (fun p => Rectangle.height (rect_at all_rectangles (fst p))) items.

Definition used_area (all_rectangles : list Rectangle.t) (c : t) : Q :=
  let add := fun total (p : Z * Q) =>
               total + Rectangle.area (rect_at all_rectangles (fst p)) in
  fold_left add (top_rectangles c) (fold_left add (bottom_rectangles c) 0).

Definition utilization (all_rectangles : list Rectangle.t) (c : t) : Q :=
  let total_area := width c * height c in
  if Qeq_bool total_area 0 then 0
  else used_area all_rectangles c / total_area.

Definition edge_height (all_rectangles : list Rectangle.t)
  (items : list (Z * Q)) : Q :=
  match heights_of all_rectangles items with
  | [] => 0
  | h :: hs => max_list h hs
  end.

Definition get_bottom_height (all_rectangles : list Rectangle.t) (c : t) : Q :=
  edge_height all_rectangles (bottom_rectangles c).

Definition get_top_height (all_rectangles : list Rectangle.t) (c : t) : Q :=
  edge_height all_rectangles (top_rectangles c).

(** The X-overlap test of a bottom item against a top item. *)
Definition x_overlap (all_rectangles : list Rectangle.t)
  (b t : Z * Q) : bool :=
  let bottom_rect := rect_at all_rectangles (fst b) in
  let top_rect := rect_at all_rectangles (fst t) in
  negb (Qle_bool (snd b + Rectangle.width bottom_rect) (snd t)
        || Qle_bool (snd t + Rectangle.width top_rect) (snd b)).

(** The nested loop of [get_minimum_height]. *)
Definition overlap_height (all_rectangles : list Rectangle.t)
  (bottoms tops : list (Z * Q)) : Q :=
  fold_left
    (fun acc b =>
       fold_left
         (fun acc' t =>
            if x_overlap all_rectangles b t then
              Qmax acc' (Rectangle.height (rect_at all_rectangles (fst b))
                         + Rectangle.height (rect_at all_rectangles (fst t)))
            else acc')
         tops acc)
    bottoms 0.

Definition get_minimum_height (all_rectangles : list Rectangle.t) (c : t) : Q :=
  match bottom_rectangles c, top_rectangles c with
  | [], _ | _, [] =>
      get_bottom_height all_rectangles c + get_top_height all_rectangles c
  | _, _ =>
      let min_height_needed :=
        overlap_height all_rectangles (bottom_rectangles c) (top_rectangles c) in
      let min_height_needed :=
        if Qeq_bool min_height_needed 0 then
          Qmax (get_bottom_height all_rectangles c)
               (get_top_height all_rectangles c)
        else min_height_needed in
      let tallest_rect :=
        edge_height all_rectangles (bottom_rectangles c ++ top_rectangles c) in
      Qmax min_height_needed tallest_rect
  end.

End Container.

(** ** Individual *)

Module Individual.

Record t : Type := mk {
  rectangles : list Rectangle.t;
  container_width : Q;
  max_total_height : Q;
  max_containers : Z;
  num_containers : Z;
  rectangle_order : list Z;
  container_heights : list Q;
  fitness : Q;
  containers : list Container.t;
  total_height_used : Q;
  rectangles_placed : Z;
  (** set by [pack_rectangles]; [None] while the attribute does not exist *)
  rectangle_assignments : option (list Z)
}.

Definition set_num_containers (s : t) (n : Z) : t :=
  mk (rectangles s) (container_width s) (max_total_height s)
     (max_containers s) n (rectangle_order s) (container_heights s)
     (fitness s) (containers s) (total_height_used s) (rectangles_placed s)
     (rectangle_assignments s).

Definition set_rectangle_order (s : t) (o : list Z) : t :=
  mk (rectangles s) (container_width s) (max_total_height s)
     (max_containers s) (num_containers s) o (container_heights s)
     (fitness s) (containers s) (total_height_used s) (rectangles_placed s)
     (rectangle_assignments s).

Definition set_container_heights (s : t) (h : list Q) : t :=
  mk (rectangles s) (container_width s) (max_total_height s)
     (max_containers s) (num_containers s) (rectangle_order s) h
     (fitness s) (containers s) (total_height_used s) (rectangles_placed s)
     (rectangle_assignments s).

Definition set_fitness (s : t) (f : Q) : t :=
  mk (rectangles s) (container_width s) (max_total_height s)
     (max_containers s) (num_containers s) (rectangle_order s)
     (container_heights s) f (containers s) (total_height_used s)
     (rectangles_placed s) (rectangle_assignments s).

(** The three result attributes and the assignment table, written by an
    evaluation. *)
Definition set_evaluation (s : t) (cs : list Container.t) (placed : Z)
  (total : Q) (assignments : list Z) : t :=
  mk (rectangles s) (container_width s) (max_total_height s)
     (max_containers s) (num_containers s) (rectangle_order s)
     (container_heights s) (fitness s) cs total placed (Some assignments).

(** [Individual(rectangles, container_width, max_total_height,
    max_containers)]. *)
Definition init (rects : list Rectangle.t) (cw mth : Q) (mc : Z) : M t :=
  n <- randint 1 mc ;;
  ret (mk rects cw mth mc n
          (range (length rects))
          (repeat (mth / inject_Z n) (Z.to_nat n))
          0 [] 0 0%Z None).

Definition initialize_random (s : t) : M t :=
  o <- shuffle (rectangle_order s) ;;
  ret (set_rectangle_order s o).

(** The container copies made by [copy]: same width, height and id, and
    fresh lists with the same items. *)
Definition copy_container (c : Container.t) : Container.t :=
  Container.mk (Container.width c) (Container.height c) (Container.id c)
               (Container.bottom_rectangles c) (Container.top_rectangles c).

Definition copy (s : t) : M t :=
  new_ind <- init (rectangles s) (container_width s) (max_total_height s)
                  (max_containers s) ;;
  ret (mk (rectangles new_ind) (container_width new_ind)
          (max_total_height new_ind) (max_containers new_ind)
          (num_containers s)
          (rectangle_order s)
          (container_heights new_ind)
          (fitness s)
          (map copy_container (containers s))
          (total_height_used s)
          (rectangles_placed s)
          (rectangle_assignments new_ind)).

End Individual.

(** ** StackedContainerOptimizer *)

Module StackedContainerOptimizer.

Record t : Type := mk {
  rectangles : list Rectangle.t;
  container_width : Q;
  max_total_height : Q;
  max_containers : Z;
  population_size : Z;
  generations : Z;
  mutation_rate : Q;
  crossover_rate : Q;
  elitism_count : Z;
  population : list Individual.t;
  best_individual : option Individual.t
}.

(** [enumerate] over the input pairs. *)
Fixpoint number_rectangles (i : Z) (l : list (Q * Q)) : list Rectangle.t :=
  match l with
  | [] => []
  | (w, h) :: rest => Rectangle.mk w h i :: number_rectangles (i + 1) rest
  end.

(** [int(population_size * elitism_rate)], in binary64: the int becomes a
    float ([OverflowError] when it is too large for one), the product is
    rounded, and [int] truncates it ([OverflowError] on an infinite
    product, [ValueError] on a NaN). *)
Definition elitism_count_of (population_size : Z) (elitism_rate : float)
  : res Z :=
  match to_float population_size with
  | Raise e => Raise e
  | Ok p => int_of_float (p * elitism_rate)%float
  end.

(** [__init__]: the arguments are stored as given and nothing is checked;
    the one computation, the elitism count, is the one place where the
    constructor can raise. *)
Definition init (rects : list (Q * Q)) (cw mth : Q) (mc : Z)
  (population_size generations : Z)
  (mutation_rate crossover_rate : Q) (elitism_rate : float) : res t :=
  match elitism_count_of population_size elitism_rate with
  | Raise e => Raise e
  | Ok elitism_count =>
      Ok (mk (number_rectangles 0 rects) cw mth mc population_size
             generations mutation_rate crossover_rate elitism_count
             [] None)
  end.

Section Methods.

Variable self : t.

Definition initialize_population : M (list Individual.t) :=
  (fix loop (k : nat) : M (list Individual.t) :=
     match k with
     | O => ret []
     | S k' =>
         individual <- Individual.init (rectangles self) (container_width self)
                         (max_total_height self) (max_containers self) ;;
         individual <- Individual.initialize_random individual ;;
         rest <- loop k' ;;
         ret (individual :: rest)
     end) (Z.to_nat (population_size self)).

Definition can_place_at_bottom (c : Container.t) (rect : Rectangle.t) : bool :=
  if Qlt_bool (Container.height c) (Rectangle.height rect) then false
  else
    let current_bottom_height := Container.get_bottom_height (rectangles self) c in
    let top_height := Container.get_top_height (rectangles self) c in
    let available_space := Container.height c - top_height in
    let new_bottom_height := Qmax current_bottom_height (Rectangle.height rect) in
    Qle_bool new_bottom_height available_space.

Definition can_place_at_top (c : Container.t) (rect : Rectangle.t) : bool :=
  if Qlt_bool (Container.height c) (Rectangle.height rect) then false
  else
    let current_top_height := Container.get_top_height (rectangles self) c in
    let bottom_height := Container.get_bottom_height (rectangles self) c in
    let available_space := Container.height c - bottom_height in
    let new_top_height := Qmax current_top_height (Rectangle.height rect) in
    Qle_bool new_top_height available_space.

(** Shared body of [_overlaps_with_bottom_rectangles] and
    [_overlaps_with_top_rectangles]: the loop over one edge's items. *)
Definition overlaps_with (items : list (Z * Q)) (rect : Rectangle.t)
  (x_pos : Q) : bool :=
  existsb
    (fun p =>
       let existing_rect := rect_at (rectangles self) (fst p) in
       negb (Qle_bool (x_pos + Rectangle.width rect) (snd p)
             || Qle_bool (snd p + Rectangle.width existing_rect) x_pos))
    items.

Definition _overlaps_with_bottom_rectangles (c : Container.t)
  (rect : Rectangle.t) (x_pos : Q) : bool :=
  overlaps_with (Container.bottom_rectangles c) rect x_pos.

Definition _overlaps_with_top_rectangles (c : Container.t)
  (rect : Rectangle.t) (x_pos : Q) : bool :=
  overlaps_with (Container.top_rectangles c) rect x_pos.

(** Strategy 1 of both position searches: walk the items of the opposite
    edge, trying each one's start and then its end. *)
Fixpoint align_scan (cw : Q) (rect : Rectangle.t) (overlaps : Q -> bool)
  (opposite : list (Z * Q)) : option Q :=
  match opposite with
  | [] => None
  | (other_id, other_x) :: rest =>
      let other_rect := rect_at (rectangles self) other_id in
      if Qle_bool (other_x + Rectangle.width rect) cw
         && negb (overlaps other_x)
      then Some other_x
      else
        let aligned_x :=
          other_x + Rectangle.width other_rect - Rectangle.width rect in
        if Qle_bool 0 aligned_x
           && Qle_bool (aligned_x + Rectangle.width rect) cw
           && negb (overlaps aligned_x)
        then Some aligned_x
        else align_scan cw rect overlaps rest
  end.

(** Strategy 2: the first gap among the sorted occupied ranges. *)
Fixpoint gap_scan (cw : Q) (rect : Rectangle.t) (ranges : list (Q * Q))
  (current_x : Q) : option Q :=
  match ranges with
  | [] =>
      if Qle_bool (current_x + Rectangle.width rect) cw then Some current_x
      else None
  | (start_x, end_x) :: rest =>
      if Qle_bool (current_x + Rectangle.width rect) start_x
      then Some current_x
      else gap_scan cw rect rest (Qmax current_x end_x)
  end.

Definition occupied_ranges (items : list (Z * Q)) : list (Q * Q) :=
  map (fun p =>
         (snd p, snd p + Rectangle.width (rect_at (rectangles self) (fst p))))
      items.

Definition find_bottom_position (c : Container.t) (rect : Rectangle.t)
  : option Q :=
  if negb (can_place_at_bottom c rect) then None
  else
    match align_scan (Container.width c) rect
            (_overlaps_with_bottom_rectangles c rect)
            (Container.top_rectangles c) with
    | Some x => Some x
    | None =>
        gap_scan (Container.width c) rect
          (sort (occupied_ranges (Container.bottom_rectangles c))) 0
    end.

Definition find_top_position (c : Container.t) (rect : Rectangle.t)
  : option Q :=
  if negb (can_place_at_top c rect) then None
  else
    match align_scan (Container.width c) rect
            (_overlaps_with_top_rectangles c rect)
            (Container.bottom_rectangles c) with
    | Some x => Some x
    | None =>
        gap_scan (Container.width c) rect
          (sort (occupied_ranges (Container.top_rectangles c))) 0
    end.

Definition _calculate_alignment_bonus (c : Container.t) : Q :=
  match Container.bottom_rectangles c, Container.top_rectangles c with
  | [], _ | _, [] => 0
  | bottoms, tops =>
      let '(alignment_score, total_comparisons) :=
        fold_left
          (fun acc b =>
             fold_left
               (fun (acc' : Q * Z) t =>
                  let bottom_rect := rect_at (rectangles self) (fst b) in
                  let top_rect := rect_at (rectangles self) (fst t) in
                  let overlap_start := Qmax (snd b) (snd t) in
                  let overlap_end :=
                    Qmin (snd b + Rectangle.width bottom_rect)
                         (snd t + Rectangle.width top_rect) in
                  let overlap := Qmax 0 (overlap_end - overlap_start) in
                  let min_width :=
                    Qmin (Rectangle.width bottom_rect)
                         (Rectangle.width top_rect) in
                  ((if Qlt_bool 0 min_width
                    then fst acc' + overlap / min_width
                    else fst acc'),
                   (snd acc' + 1)%Z))
               tops acc)
          bottoms (0, 0%Z) in
      if (0 <? total_comparisons)%Z
      then alignment_score / inject_Z total_comparisons
      else 0
  end.

(** The Y-overlap test of [_has_rectangle_clashes] for one pair. *)
Definition y_overlap (c : Container.t) (b t : Z * Q) : bool :=
  let bottom_rect := rect_at (rectangles self) (fst b) in
  let top_rect := rect_at (rectangles self) (fst t) in
  let top_y_start := Container.height c - Rectangle.height top_rect in
  negb (Qle_bool (Rectangle.height bottom_rect) top_y_start
        || Qle_bool (Container.height c) 0).

Definition _has_rectangle_clashes (c : Container.t) : bool :=
  match Container.bottom_rectangles c, Container.top_rectangles c with
  | [], _ | _, [] => false
  | bottoms, tops =>
      existsb
        (fun b =>
           existsb
             (fun t =>
                Container.x_overlap (rectangles self) b t && y_overlap c b t)
             tops)
        bottoms
  end.

(** *** Packing *)

(** The containers built at the start of [pack_rectangles]. *)
Definition initial_containers (individual : Individual.t)
  : list Container.t :=
  map (fun i : nat =>
         let height :=
           match nth_error (Individual.container_heights individual) i with
           | Some h => h
           | None =>
               max_total_height self
               / inject_Z (Individual.num_containers individual)
           end in
         Container.new (container_width self) height (Z.of_nat i))
      (seq 0 (Z.to_nat (Individual.num_containers individual))).

(** One iteration of the loop over containers: bottom first, then top;
    [None] when the loop moves on to the next container. *)
Definition place_in_container (c : Container.t) (rect : Rectangle.t)
  (rect_idx : Z) : option Container.t :=
  if Qlt_bool (Container.width c) (Rectangle.width rect) then None
  else
    match (if can_place_at_bottom c rect
           then find_bottom_position c rect else None) with
    | Some x_pos => Some (Container.append_bottom c (rect_idx, x_pos))
    | None =>
        match (if can_place_at_top c rect
               then find_top_position c rect else None) with
        | Some x_pos => Some (Container.append_top c (rect_idx, x_pos))
        | None => None
        end
    end.

(** The loop over containers for one rectangle, stopping at the first
    container that takes it; returns the updated containers and the index
    of that container. *)
Fixpoint place_rectangle (rect : Rectangle.t) (rect_idx : Z)
  (container_idx : Z) (cs : list Container.t)
  : option (list Container.t * Z) :=
  match cs with
  | [] => None
  | c :: rest =>
      match place_in_container c rect rect_idx with
      | Some c' => Some (c' :: rest, container_idx)
      | None =>
          match place_rectangle rect rect_idx (container_idx + 1) rest with
          | Some (rest', k) => Some (c :: rest', k)
          | None => None
          end
      end
  end.

(** State of the placement loop: containers, [placed_count] and
    [individual.rectangle_assignments]. *)
Definition pack_state : Type := (list Container.t * Z * list Z)%type.

Fixpoint place_all (order : list Z) (st : pack_state) : res pack_state :=
  match order with
  | [] => Ok st
  | rect_idx :: rest =>
      let '(containers, placed_count, assignments) := st in
      match index (rectangles self) rect_idx with
      | None => Raise IndexError
      | Some rect =>
          match place_rectangle rect rect_idx 0 containers with
          | Some (containers', container_idx) =>
              match setitem assignments rect_idx container_idx with
              | Some assignments' =>
                  place_all rest
                    (containers', (placed_count + 1)%Z, assignments')
              | None => Raise IndexError
              end
          | None =>
              match setitem assignments rect_idx (-1)%Z with
              | Some assignments' =>
                  place_all rest (containers, placed_count, assignments')
              | None => Raise IndexError
              end
          end
      end
  end.

(** [container.bottom_rectangles or container.top_rectangles]. *)
Definition has_items (c : Container.t) : bool :=
  match Container.bottom_rectangles c, Container.top_rectangles c with
  | [], [] => false
  | _, _ => true
  end.

(** The height pass that ends [pack_rectangles]. *)
Definition optimize_height (c : Container.t) : M Container.t :=
  if has_items c then
    let min_height := Container.get_minimum_height (rectangles self) c in
    let alignment_bonus := _calculate_alignment_bonus c in
    u <- uniform 0 (2 # 100) ;;
    let tiny_variation := u * min_height in
    ret (Container.set_height c (min_height + tiny_variation))
  else ret c.

Fixpoint optimize_heights (cs : list Container.t) : M (list Container.t) :=
  match cs with
  | [] => ret []
  | c :: rest =>
      c' <- optimize_height c ;;
      rest' <- optimize_heights rest ;;
      ret (c' :: rest')
  end.

(** The placement part of [pack_rectangles], which draws nothing. *)
Definition place (individual : Individual.t) : res pack_state :=
  place_all (Individual.rectangle_order individual)
    (initial_containers individual, 0%Z,
     repeat (-1)%Z (length (rectangles self))).

(** [pack_rectangles]: the returned pair and, third, the value left in
    [individual.rectangle_assignments]. *)
Definition pack_rectangles (individual : Individual.t) : M pack_state :=
  st <- lift (place individual) ;;
  let '(containers, placed_count, assignments) := st in
  containers' <- optimize_heights containers ;;
  ret (containers', placed_count, assignments).

(** *** Fitness *)

Definition avg_utilization (containers : list Container.t) : Q :=
  let '(total_utilization, containers_with_items) :=
    fold_left
      (fun (acc : Q * Z) c =>
         if has_items c
         then (fst acc + Container.utilization (rectangles self) c,
               (snd acc + 1)%Z)
         else acc)
      containers (0, 0%Z) in
  if (0 <? containers_with_items)%Z
  then total_utilization / inject_Z containers_with_items
  else 0.

Definition clash_penalty (containers : list Container.t) : Q :=
  fold_left
    (fun acc c => if _has_rectangle_clashes c then acc + 10000 else acc)
    containers 0.

Definition compactness_bonus (containers : list Container.t) : Q :=
  fold_left
    (fun acc c =>
       match Container.bottom_rectangles c, Container.top_rectangles c with
       | [], _ | _, [] => acc
       | _, _ =>
           let min_possible :=
             Container.get_minimum_height (rectangles self) c in
           let actual_height := Container.height c in
           if Qlt_bool 0 actual_height
           then acc + (min_possible / actual_height) * 200
           else acc
       end)
    containers 0.

(** The part of [evaluate_fitness] after the zero-placement return: the
    weighted sum, or [ZeroDivisionError] from the container penalty. *)
Definition combined_fitness (num_containers : Z) (total_height_used : Q)
  (containers : list Container.t) (placed_count : Z) : res Q :=
  let total_rectangles := Z.of_nat (length (rectangles self)) in
  let placement_rate :=
    if (0 <? total_rectangles)%Z
    then inject_Z placed_count / inject_Z total_rectangles else 0 in
  if (max_containers self =? 0)%Z then Raise ZeroDivisionError
  else
    let container_penalty :=
      inject_Z num_containers / inject_Z (max_containers self) in
    let height_penalty :=
      if Qlt_bool 0 (max_total_height self)
      then total_height_used / max_total_height self else 1 in
    let placement_bonus :=
      if (placed_count =? total_rectangles)%Z then 500 else 0 in
    Ok (placement_rate * 1000
        + placement_bonus
        + avg_utilization containers * 300
        + compactness_bonus containers
        - container_penalty * 50
        - height_penalty * 30
        - clash_penalty containers).

Definition evaluate_fitness (individual : Individual.t) : M Individual.t :=
  st <- pack_rectangles individual ;;
  let '(containers, placed_count, assignments) := st in
  let total_height_used :=
    sum (map Container.height
             (prefix containers (Individual.num_containers individual))) in
  let individual :=
    Individual.set_evaluation individual containers placed_count
      total_height_used assignments in
  if (placed_count =? 0)%Z then ret (Individual.set_fitness individual (-1000))
  else
    f <- lift (combined_fitness (Individual.num_containers individual)
                 total_height_used containers placed_count) ;;
    ret (Individual.set_fitness individual f).

(** *** Crossover *)

(** The position-wise recombination of the two height lists. *)
Fixpoint cross_heights (p1h p2h : list Q) (positions : list nat)
  (h1 h2 : list Q) : M (list Q * list Q) :=
  match positions with
  | [] => ret (h1, h2)
  | i :: rest =>
      let append_from := fun (src dst : list Q) =>
        match nth_error src i with
        | Some v => dst ++ [v]
        | None => dst
        end in
      r <- random ;;
      if Qlt_bool r (1 # 2)
      then cross_heights p1h p2h rest (append_from p1h h1) (append_from p2h h2)
      else cross_heights p1h p2h rest (append_from p2h h1) (append_from p1h h2)
  end.

(** Truncate to [n] heights, then fill up to [n] with the even share. *)
Definition fit_heights (h : list Q) (n : Z) : list Q :=
  let h := prefix h n in
  h ++ repeat (max_total_height self / inject_Z n)
              (Z.to_nat n - List.length h).

(** The filling loop of the order crossover: [child[pointer % size] = item]
    for each item not yet in the child. *)
Fixpoint ox_fill (size : nat) (items : list Z) (child : list Z)
  (pointer : nat) : res (list Z) :=
  match items with
  | [] => Ok child
  | item :: rest =>
      if existsb (Z.eqb item) child then ox_fill size rest child pointer
      else if (pointer mod size <? List.length child)%nat
      then ox_fill size rest (set_nth child (pointer mod size) item)
                   (S pointer)
      else Raise IndexError
  end.

(** One child's order: the segment of [pa] kept in place, the rest taken
    from [pb] starting after the segment. *)
Definition order_crossover (size : nat) (pa pb : list Z) (start end_ : nat)
  : res (list Z) :=
  let child :=
    slice_assign (repeat (-1)%Z size) start end_ (slice pa start end_) in
  ox_fill size (skipn end_ pb ++ firstn end_ pb) child end_.

Definition crossover (parent1 parent2 : Individual.t)
  : M (Individual.t * Individual.t) :=
  r <- random ;;
  if Qlt_bool (crossover_rate self) r then
    c1 <- Individual.copy parent1 ;;
    c2 <- Individual.copy parent2 ;;
    ret (c1, c2)
  else
    child1 <- Individual.init (rectangles self) (container_width self)
                (max_total_height self) (max_containers self) ;;
    child2 <- Individual.init (rectangles self) (container_width self)
                (max_total_height self) (max_containers self) ;;
    r <- random ;;
    let n1 := if Qlt_bool r (1 # 2) then Individual.num_containers parent1
              else Individual.num_containers parent2 in
    let n2 := if Qlt_bool r (1 # 2) then Individual.num_containers parent2
              else Individual.num_containers parent1 in
    hs <- cross_heights (Individual.container_heights parent1)
            (Individual.container_heights parent2)
            (seq 0 (Z.to_nat (Z.max n1 n2))) [] [] ;;
    let h1 := fit_heights (fst hs) n1 in
    let h2 := fit_heights (snd hs) n2 in
    let size := List.length (Individual.rectangle_order parent1) in
    ij <- sample2 size ;;
    let start := Nat.min (fst ij) (snd ij) in
    let end_ := Nat.max (fst ij) (snd ij) in
    o1 <- lift (order_crossover size (Individual.rectangle_order parent1)
                  (Individual.rectangle_order parent2) start end_) ;;
    o2 <- lift (order_crossover size (Individual.rectangle_order parent2)
                  (Individual.rectangle_order parent1) start end_) ;;
    ret (Individual.set_rectangle_order
           (Individual.set_container_heights
              (Individual.set_num_containers child1 n1) h1) o1,
         Individual.set_rectangle_order
           (Individual.set_container_heights
              (Individual.set_num_containers child2 n2) h2) o2).

(** *** Mutation *)

Definition mutate_containers (individual : Individual.t) : M Individual.t :=
  n <- randint 1 (max_containers self) ;;
  let h := Individual.container_heights individual in
  let h := h ++ repeat (max_total_height self / inject_Z n)
                       (Z.to_nat n - List.length h) in
  ret (Individual.set_container_heights
         (Individual.set_num_containers individual n) (prefix h n)).

Definition mutate_heights (individual : Individual.t) : M Individual.t :=
  match Individual.container_heights individual with
  | [] => ret individual
  | hs =>
      idx <- randint 0 (Z.of_nat (List.length hs) - 1) ;;
      let current := nth (Z.to_nat idx) hs 0 in
      delta <- uniform (- current * (3 # 10)) (current * (3 # 10)) ;;
      let hs := set_nth hs (Z.to_nat idx) (Qmax 1 (current + delta)) in
      let total := sum hs in
      if Qlt_bool (max_total_height self) total then
        if Qeq_bool total 0 then raise ZeroDivisionError
        else
          let factor := max_total_height self / total in
          ret (Individual.set_container_heights individual
                 (map (fun h => h * factor) hs))
      else ret (Individual.set_container_heights individual hs)
  end.

Definition mutate_order (individual : Individual.t) : M Individual.t :=
  let o := Individual.rectangle_order individual in
  if (1 <? List.length o)%nat then
    ij <- sample2 (List.length o) ;;
    ret (Individual.set_rectangle_order individual (swap o (fst ij) (snd ij)))
  else ret individual.

(** The loop shared by 'adjust' and 'random_heights': [k] containers are
    left, the last one takes what remains; [draw_height] draws the height
    of any other container from what remains. *)
Fixpoint redistribute (draw_height : Q -> M Q) (k : nat) (remaining : Q)
  : M (list Q) :=
  match k with
  | O => ret []
  | S O => ret [remaining]
  | S k' =>
      height <- draw_height remaining ;;
      let height := Qmin height remaining in
      rest <- redistribute draw_height k' (remaining - height) ;;
      ret (height :: rest)
  end.

Definition mutate_adjust (individual : Individual.t) : M Individual.t :=
  if (0 <? Individual.num_containers individual)%Z then
    let avg_height :=
      max_total_height self / inject_Z (Individual.num_containers individual) in
    hs <- redistribute (fun _ => f <- uniform (8 # 10) (12 # 10) ;;
                                 ret (avg_height * f))
                       (Z.to_nat (Individual.num_containers individual))
                       (max_total_height self) ;;
    ret (Individual.set_container_heights individual hs)
  else ret individual.

Definition mutate_shuffle (individual : Individual.t) : M Individual.t :=
  let o := Individual.rectangle_order individual in
  let n := List.length o in
  if (2 <? n)%nat then
    shuffle_size <- randint (Z.of_nat (n / 3)) (Z.of_nat (n * 2 / 3)) ;;
    start_idx <- randint 0 (Z.of_nat n - shuffle_size) ;;
    let a := Z.to_nat start_idx in
    let b := Z.to_nat (start_idx + shuffle_size) in
    subsequence <- shuffle (slice o a b) ;;
    ret (Individual.set_rectangle_order individual
           (slice_assign o a b subsequence))
  else ret individual.

Definition mutate_random_heights (individual : Individual.t)
  : M Individual.t :=
  if (0 <? Individual.num_containers individual)%Z then
    hs <- redistribute (fun remaining =>
                          uniform (5 # 10) (remaining * (8 # 10)))
                       (Z.to_nat (Individual.num_containers individual))
                       (max_total_height self) ;;
    ret (Individual.set_container_heights individual hs)
  else ret individual.

Definition mutation_types : list string :=
  ["containers"; "heights"; "order"; "adjust"; "shuffle";
   "random_heights"]%string.

(** The operator selected by a mutation type. *)
Definition apply_mutation (mutation_type : string)
  (individual : Individual.t) : M Individual.t :=
  if String.eqb mutation_type "containers" then mutate_containers individual
  else if String.eqb mutation_type "heights" then mutate_heights individual
  else if String.eqb mutation_type "order" then mutate_order individual
  else if String.eqb mutation_type "adjust" then mutate_adjust individual
  else if String.eqb mutation_type "shuffle" then mutate_shuffle individual
  else if String.eqb mutation_type "random_heights"
  then mutate_random_heights individual
  else ret individual.

Definition mutate (individual : Individual.t) : M Individual.t :=
  r <- random ;;
  if Qlt_bool r (mutation_rate self) then
    mutation_type <- choice mutation_types ;;
    apply_mutation mutation_type individual
  else ret individual.

(** *** Selection and the generation loop *)

(** [tournament_selection] on the current value of [self.population]. *)
Definition tournament_on (current : list Individual.t) (tournament_size : Z)
  : M Individual.t :=
  tournament <- sample current tournament_size ;;
  match max_by Individual.fitness tournament with
  | None => raise ValueError
  | Some winner => Individual.copy winner
  end.

Definition tournament_selection (tournament_size : Z) : M Individual.t :=
  tournament_on (population self) tournament_size.

(** What [evolve] prints every 50th generation: the values handed to the
    format string, in its order (generation, best fitness, average
    fitness, container count, placed count, rectangle count). *)
Record progress_report : Type := mk_report {
  report_generation : Z;
  report_best : Q;
  report_avg : Q;
  report_containers : Z;
  report_placed : Z;
  report_rectangles : Z
}.

(** The loop variables of [evolve], with the two attributes it rewrites
    and the reports it printed. *)
Record evolve_state : Type := mk_state {
  st_population : list Individual.t;
  st_best_individual : option Individual.t;
  st_stagnation_counter : Z;
  st_last_best_fitness : option Q;   (* [None] is -inf *)
  st_history : list Q;
  st_printed : list progress_report
}.

(** [for individual in population: self.evaluate_fitness(individual)]. *)
Fixpoint evaluate_all (population : list Individual.t)
  : M (list Individual.t) :=
  match population with
  | [] => ret []
  | individual :: rest =>
      individual' <- evaluate_fitness individual ;;
      rest' <- evaluate_all rest ;;
      ret (individual' :: rest')
  end.

(** The best-individual bookkeeping at the start of a generation, on the
    sorted population. *)
Definition track_best (sorted : list Individual.t)
  (best : option Individual.t) (stagnation_counter : Z)
  : M (Individual.t * Z) :=
  match sorted with
  | [] => raise IndexError
  | top :: _ =>
      match best with
      | None => b <- Individual.copy top ;; ret (b, 0%Z)
      | Some b =>
          if Qlt_bool (Individual.fitness b) (Individual.fitness top)
          then b' <- Individual.copy top ;; ret (b', 0%Z)
          else ret (b, (stagnation_counter + 1)%Z)
      end
  end.

(** Elitism: copies of the first [elitism_count] individuals. *)
Fixpoint elites (sorted : list Individual.t) (positions : list nat)
  (new_population : list Individual.t) : M (list Individual.t) :=
  match positions with
  | [] => ret new_population
  | i :: rest =>
      match nth_error sorted i with
      | None => raise IndexError
      | Some p =>
          c <- Individual.copy p ;;
          elites sorted rest (new_population ++ [c])
      end
  end.

(** The random immigrants: [count] attempts, each adding a fresh evaluated
    individual while there is room. *)
Fixpoint immigrants (count : nat) (new_population : list Individual.t)
  : M (list Individual.t) :=
  match count with
  | O => ret new_population
  | S count' =>
      if (Z.of_nat (length new_population) <? population_size self)%Z then
        individual <- Individual.init (rectangles self) (container_width self)
                        (max_total_height self) (max_containers self) ;;
        individual <- Individual.initialize_random individual ;;
        individual <- evaluate_fitness individual ;;
        immigrants count' (new_population ++ [individual])
      else immigrants count' new_population
  end.

(** [for _ in range(k): self.mutate(child1); self.mutate(child2)]. *)
Fixpoint extra_mutations (k : nat) (child1 child2 : Individual.t)
  : M (Individual.t * Individual.t) :=
  match k with
  | O => ret (child1, child2)
  | S k' =>
      child1 <- mutate child1 ;;
      child2 <- mutate child2 ;;
      extra_mutations k' child1 child2
  end.

(** One pass of the breeding loop, [sorted] being the current
    [self.population]: two evaluated children. *)
Definition breed_pair (sorted : list Individual.t) (current_mutation : Q)
  (stagnation_counter : Z) : M (Individual.t * Individual.t) :=
  r <- random ;;
  parents <-
    (if Qlt_bool r (25 # 100) then
       p1 <- choice sorted ;;
       parent1 <- Individual.copy p1 ;;
       p2 <- choice sorted ;;
       parent2 <- Individual.copy p2 ;;
       ret (parent1, parent2)
     else
       tournament_size <- randint 2 5 ;;
       parent1 <- tournament_on sorted tournament_size ;;
       parent2 <- tournament_on sorted tournament_size ;;
       ret (parent1, parent2)) ;;
  children <- crossover (fst parents) (snd parents) ;;
  r1 <- random ;;
  child1 <- (if Qlt_bool r1 current_mutation then mutate (fst children)
             else ret (fst children)) ;;
  r2 <- random ;;
  child2 <- (if Qlt_bool r2 current_mutation then mutate (snd children)
             else ret (snd children)) ;;
  children <-
    (if (25 <? stagnation_counter)%Z then
       r3 <- random ;;
       if Qlt_bool r3 (3 # 10) then
         k <- randint 1 2 ;;
         extra_mutations (Z.to_nat k) child1 child2
       else ret (child1, child2)
     else ret (child1, child2)) ;;
  child1 <- evaluate_fitness (fst children) ;;
  child2 <- evaluate_fitness (snd children) ;;
  ret (child1, child2).

(** The breeding loop, by the number of places left: the first child is
    always appended, the second one while there is room. *)
Fixpoint breed (room : nat) (sorted : list Individual.t)
  (current_mutation : Q) (stagnation_counter : Z)
  (new_population : list Individual.t) : M (list Individual.t) :=
  match room with
  | O => ret new_population
  | S room' =>
      children <- breed_pair sorted current_mutation stagnation_counter ;;
      let new_population := new_population ++ [fst children] in
      match room' with
      | O => ret new_population
      | S room'' =>
          breed room'' sorted current_mutation stagnation_counter
                (new_population ++ [snd children])
      end
  end.

(** One generation. *)
Definition generation_step (generation : Z) (st : evolve_state)
  : M evolve_state :=
  let sorted := sort_descending Individual.fitness (st_population st) in
  tracked <- track_best sorted (st_best_individual st)
                        (st_stagnation_counter st) ;;
  let best := fst tracked in
  let stagnation_counter := snd tracked in
  let last_best_fitness :=
    match st_last_best_fitness st with
    | None => Some (Individual.fitness best)
    | Some l => if Qlt_bool l (Individual.fitness best)
                then Some (Individual.fitness best) else Some l
    end in
  let history := st_history st ++ [Individual.fitness best] in
  let printed :=
    if (generation mod 50 =? 0)%Z then
      st_printed st
      ++ [mk_report generation (Individual.fitness best)
            (sum (map Individual.fitness sorted)
             / inject_Z (Z.of_nat (length sorted)))
            (Individual.num_containers best)
            (Individual.rectangles_placed best)
            (Z.of_nat (length (rectangles self)))]
    else st_printed st in
  let current_mutation :=
    if (15 <? stagnation_counter)%Z
    then Qmin (8 # 10)
              (mutation_rate self
               * (1 + inject_Z stagnation_counter / 20))
    else mutation_rate self in
  new_population <- elites sorted (seq 0 (Z.to_nat (elitism_count self))) [] ;;
  let random_count := Z.max 1 (population_size self / 10) in
  new_population <- immigrants (Z.to_nat random_count) new_population ;;
  new_population <-
    breed (Z.to_nat (population_size self
                     - Z.of_nat (length new_population)))
          sorted current_mutation stagnation_counter new_population ;;
  ret (mk_state new_population (Some best) stagnation_counter
         last_best_fitness history printed).

Fixpoint generations_loop (gens : list Z) (st : evolve_state)
  : M evolve_state :=
  match gens with
  | [] => ret st
  | generation :: rest =>
      st' <- generation_step generation st ;;
      generations_loop rest st'
  end.

(** [evolve]: the returned pair, with the final population and the
    reports printed on the way. *)
Definition evolve : M evolve_state :=
  population <- initialize_population ;;
  population <- evaluate_all population ;;
  generations_loop (range (Z.to_nat (generations self)))
    (mk_state population (best_individual self) 0%Z None [] []).

End Methods.

End StackedContainerOptimizer.

(** ** The evaluation in binary64

    The methods an evaluation runs, with the interpreter's arithmetic:
    every float is a binary64 value and every operation rounds as IEEE 754
    prescribes; an int that meets a float is the float of the same value.
    This is the model for what depends on rounding.  The rational model
    above drops the rounding and is the one the other properties are
    proved on. *)

Module F64.

Local Open Scope float_scope.

(** [random.random()] and [random.uniform(a, b)]. *)
Definition random : M float :=
  r <- draw ;; ret (float_of_int (r mod 2 ^ 53) / 9007199254740992).

Definition uniform (a b : float) : M float :=
  u <- random ;; ret (a + (b - a) * u).

Module Rectangle.

Record t : Type := mk { width : float; height : float; id : Z }.

Definition area (r : t) : float := width r * height r.

End Rectangle.

(** [all_rectangles[rect_id]] for an id already stored in a container
    (see the rational model). *)
Definition rect_at (all_rectangles : list Rectangle.t) (rect_id : Z)
  : Rectangle.t :=
  match index all_rectangles rect_id with
  | Some r => r
  | None => Rectangle.mk 0 0 rect_id
  end.

(** Tuples of two floats compare lexicographically; [list.sort()] is
    stable. *)
Definition pair_lt (p q : float * float) : bool :=
  (fst p <? fst q) || ((fst p =? fst q) && (snd p <? snd q)).

Fixpoint insert_sorted (p : float * float) (l : list (float * float))
  : list (float * float) :=
  match l with
  | [] => [p]
  | q :: t => if pair_lt p q then p :: q :: t else q :: insert_sorted p t
  end.

Definition sort (l : list (float * float)) : list (float * float) :=
  fold_left (fun acc p => insert_sorted p acc) l [].

Module Container.

Record t : Type := mk {
  width : float;
  height : float;
  id : Z;
  bottom_rectangles : list (Z * float);
  top_rectangles : list (Z * float)
}.

Definition new (w h : float) (i : Z) : t := mk w h i [] [].

Definition set_height (c : t) (h : float) : t :=
  mk (width c) h (id c) (bottom_rectangles c) (top_rectangles c).

Definition append_bottom (c : t) (p : Z * float) : t :=
  mk (width c) (height c) (id c) (bottom_rectangles c ++ [p])
     (top_rectangles c).

Definition append_top (c : t) (p : Z * float) : t :=
  mk (width c) (height c) (id c) (bottom_rectangles c)
     (top_rectangles c ++ [p]).

Definition used_area (all_rectangles : list Rectangle.t) (c : t) : float :=
  let add := fun total (p : Z * float) =>
               total + Rectangle.area (rect_at all_rectangles (fst p)) in
  fold_left add (top_rectangles c) (fold_left add (bottom_rectangles c) 0).

Definition utilization (all_rectangles : list Rectangle.t) (c : t) : float :=
  let total_area := width c * height c in
  if total_area =? 0 then 0
  else used_area all_rectangles c / total_area.

Definition edge_height (all_rectangles : list Rectangle.t)
  (items : list (Z * float)) : float :=
  match map (fun p => Rectangle.height (rect_at all_rectangles (fst p)))
            items with
  | [] => 0
  | h :: hs => fold_left fmax hs h
  end.

Definition get_bottom_height (all_rectangles : list Rectangle.t) (c : t)
  : float :=
  edge_height all_rectangles (bottom_rectangles c).

Definition get_top_height (all_rectangles : list Rectangle.t) (c : t)
  : float :=
  edge_height all_rectangles (top_rectangles c).

Definition x_overlap (all_rectangles : list Rectangle.t)
  (b t : Z * float) : bool :=
  let bottom_rect := rect_at all_rectangles (fst b) in
  let top_rect := rect_at all_rectangles (fst t) in
  negb ((snd b + Rectangle.width bottom_rect <=? snd t)
        || (snd t + Rectangle.width top_rect <=? snd b)).

Definition overlap_height (all_rectangles : list Rectangle.t)
  (bottoms tops : list (Z * float)) : float :=
  fold_left
    (fun acc b =>
       fold_left
         (fun acc' t =>
            if x_overlap all_rectangles b t then
              fmax acc' (Rectangle.height (rect_at all_rectangles (fst b))
                         + Rectangle.height (rect_at all_rectangles (fst t)))
            else acc')
         tops acc)
    bottoms 0.

Definition get_minimum_height (all_rectangles : list Rectangle.t) (c : t)
  : float :=
  match bottom_rectangles c, top_rectangles c with
  | [], _ | _, [] =>
      get_bottom_height all_rectangles c + get_top_height all_rectangles c
  | _, _ =>
      let min_height_needed :=
        overlap_height all_rectangles (bottom_rectangles c)
                       (top_rectangles c) in
      let min_height_needed :=
        if min_height_needed =? 0 then
          fmax (get_bottom_height all_rectangles c)
               (get_top_height all_rectangles c)
        else min_height_needed in
      let tallest_rect :=
        edge_height all_rectangles (bottom_rectangles c ++ top_rectangles c) in
      fmax min_height_needed tallest_rect
  end.

End Container.

(** The attributes of an individual that an evaluation reads, and those
    it writes. *)
Module Individual.

Record t : Type := mk {
  num_containers : Z;
  rectangle_order : list Z;
  container_heights : list float
}.

Record evaluated : Type := mk_evaluated {
  fitness : float;
  containers : list Container.t;
  total_height_used : float;
  rectangles_placed : Z;
  rectangle_assignments : list Z
}.

End Individual.

Module StackedContainerOptimizer.

(** The attributes of the optimizer that an evaluation reads. *)
Record t : Type := mk {
  rectangles : list Rectangle.t;
  container_width : float;
  max_total_height : float;
  max_containers : Z
}.

Section Methods.

Variable self : t.

Definition can_place_at_bottom (c : Container.t) (rect : Rectangle.t) : bool :=
  if Container.height c <? Rectangle.height rect then false
  else
    let current_bottom_height := Container.get_bottom_height (rectangles self) c in
    let top_height := Container.get_top_height (rectangles self) c in
    let available_space := Container.height c - top_height in
    let new_bottom_height := fmax current_bottom_height (Rectangle.height rect) in
    new_bottom_height <=? available_space.

Definition can_place_at_top (c : Container.t) (rect : Rectangle.t) : bool :=
  if Container.height c <? Rectangle.height rect then false
  else
    let current_top_height := Container.get_top_height (rectangles self) c in
    let bottom_height := Container.get_bottom_height (rectangles self) c in
    let available_space := Container.height c - bottom_height in
    let new_top_height := fmax current_top_height (Rectangle.height rect) in
    new_top_height <=? available_space.

Definition overlaps_with (items : list (Z * float)) (rect : Rectangle.t)
  (x_pos : float) : bool :=
  existsb
    (fun p =>
       let existing_rect := rect_at (rectangles self) (fst p) in
       negb ((x_pos + Rectangle.width rect <=? snd p)
             || (snd p + Rectangle.width existing_rect <=? x_pos)))
    items.

Fixpoint align_scan (cw : float) (rect : Rectangle.t)
  (overlaps : float -> bool) (opposite : list (Z * float)) : option float :=
  match opposite with
  | [] => None
  | (other_id, other_x) :: rest =>
      let other_rect := rect_at (rectangles self) other_id in
      if (other_x + Rectangle.width rect <=? cw) && negb (overlaps other_x)
      then Some other_x
      else
        let aligned_x :=
          other_x + Rectangle.width other_rect - Rectangle.width rect in
        if (0 <=? aligned_x)
           && (aligned_x + Rectangle.width rect <=? cw)
           && negb (overlaps aligned_x)
        then Some aligned_x
        else align_scan cw rect overlaps rest
  end.

Fixpoint gap_scan (cw : float) (rect : Rectangle.t)
  (ranges : list (float * float)) (current_x : float) : option float :=
  match ranges with
  | [] =>
      if current_x + Rectangle.width rect <=? cw then Some current_x
      else None
  | (start_x, end_x) :: rest =>
      if current_x + Rectangle.width rect <=? start_x
      then Some current_x
      else gap_scan cw rect rest (fmax current_x end_x)
  end.

Definition occupied_ranges (items : list (Z * float))
  : list (float * float) :=
  map (fun p =>
         (snd p, snd p + Rectangle.width (rect_at (rectangles self) (fst p))))
      items.

Definition find_bottom_position (c : Container.t) (rect : Rectangle.t)
  : option float :=
  if negb (can_place_at_bottom c rect) then None
  else
    match align_scan (Container.width c) rect
            (overlaps_with (Container.bottom_rectangles c) rect)
            (Container.top_rectangles c) with
    | Some x => Some x
    | None =>
        gap_scan (Container.width c) rect
          (sort (occupied_ranges (Container.bottom_rectangles c))) 0
    end.

Definition find_top_position (c : Container.t) (rect : Rectangle.t)
  : option float :=
  if negb (can_place_at_top c rect) then None
  else
    match align_scan (Container.width c) rect
            (overlaps_with (Container.top_rectangles c) rect)
            (Container.bottom_rectangles c) with
    | Some x => Some x
    | None =>
        gap_scan (Container.width c) rect
          (sort (occupied_ranges (Container.top_rectangles c))) 0
    end.

Definition y_overlap (c : Container.t) (b t : Z * float) : bool :=
  let bottom_rect := rect_at (rectangles self) (fst b) in
  let top_rect := rect_at (rectangles self) (fst t) in
  let top_y_start := Container.height c - Rectangle.height top_rect in
  negb ((Rectangle.height bottom_rect <=? top_y_start)
        || (Container.height c <=? 0)).

Definition _has_rectangle_clashes (c : Container.t) : bool :=
  match Container.bottom_rectangles c, Container.top_rectangles c with
  | [], _ | _, [] => false
  | bottoms, tops =>
      existsb
        (fun b =>
           existsb
             (fun t =>
                Container.x_overlap (rectangles self) b t && y_overlap c b t)
             tops)
        bottoms
  end.

Definition initial_containers (individual : Individual.t)
  : list Container.t :=
  map (fun i : nat =>
         let height :=
           match nth_error (Individual.container_heights individual) i with
           | Some h => h
           | None =>
               max_total_height self
               / float_of_int (Individual.num_containers individual)
           end in
         Container.new (container_width self) height (Z.of_nat i))
      (seq 0 (Z.to_nat (Individual.num_containers individual))).

Definition place_in_container (c : Container.t) (rect : Rectangle.t)
  (rect_idx : Z) : option Container.t :=
  if Container.width c <? Rectangle.width rect then None
  else
    match (if can_place_at_bottom c rect
           then find_bottom_position c rect else None) with
    | Some x_pos => Some (Container.append_bottom c (rect_idx, x_pos))
    | None =>
        match (if can_place_at_top c rect
               then find_top_position c rect else None) with
        | Some x_pos => Some (Container.append_top c (rect_idx, x_pos))
        | None => None
        end
    end.

Fixpoint place_rectangle (rect : Rectangle.t) (rect_idx : Z)
  (container_idx : Z) (cs : list Container.t)
  : option (list Container.t * Z) :=
  match cs with
  | [] => None
  | c :: rest =>
      match place_in_container c rect rect_idx with
      | Some c' => Some (c' :: rest, container_idx)
      | None =>
          match place_rectangle rect rect_idx (container_idx + 1) rest with
          | Some (rest', k) => Some (c :: rest', k)
          | None => None
          end
      end
  end.

Definition pack_state : Type := (list Container.t * Z * list Z)%type.

Fixpoint place_all (order : list Z) (st : pack_state) : res pack_state :=
  match order with
  | [] => Ok st
  | rect_idx :: rest =>
      let '(containers, placed_count, assignments) := st in
      match index (rectangles self) rect_idx with
      | None => Raise IndexError
      | Some rect =>
          match place_rectangle rect rect_idx 0 containers with
          | Some (containers', container_idx) =>
              match setitem assignments rect_idx container_idx with
              | Some assignments' =>
                  place_all rest
                    (containers', (placed_count + 1)%Z, assignments')
              | None => Raise IndexError
              end
          | None =>
              match setitem assignments rect_idx (-1)%Z with
              | Some assignments' =>
                  place_all rest (containers, placed_count, assignments')
              | None => Raise IndexError
              end
          end
      end
  end.

Definition has_items (c : Container.t) : bool :=
  match Container.bottom_rectangles c, Container.top_rectangles c with
  | [], [] => false
  | _, _ => true
  end.

Definition optimize_height (c : Container.t) : M Container.t :=
  if has_items c then
    let min_height := Container.get_minimum_height (rectangles self) c in
    u <- uniform 0 0.02 ;;
    let tiny_variation := u * min_height in
    ret (Container.set_height c (min_height + tiny_variation))
  else ret c.

Fixpoint optimize_heights (cs : list Container.t) : M (list Container.t) :=
  match cs with
  | [] => ret []
  | c :: rest =>
      c' <- optimize_height c ;;
      rest' <- optimize_heights rest ;;
      ret (c' :: rest')
  end.

Definition pack_rectangles (individual : Individual.t) : M pack_state :=
  st <- lift (place_all (Individual.rectangle_order individual)
                (initial_containers individual, 0%Z,
                 repeat (-1)%Z (length (rectangles self)))) ;;
  let '(containers, placed_count, assignments) := st in
  containers' <- optimize_heights containers ;;
  ret (containers', placed_count, assignments).

Definition avg_utilization (containers : list Container.t) : float :=
  let '(total_utilization, containers_with_items) :=
    fold_left
      (fun (acc : float * Z) c =>
         if has_items c
         then (fst acc + Container.utilization (rectangles self) c,
               (snd acc + 1)%Z)
         else acc)
      containers (0, 0%Z) in
  if (0 <? containers_with_items)%Z
  then total_utilization / float_of_int containers_with_items
  else 0.

(** The clash penalty is an int: 10000 per clashing container. *)
Definition clash_penalty (containers : list Container.t) : Z :=
  fold_left
    (fun acc c => if _has_rectangle_clashes c then (acc + 10000)%Z else acc)
    containers 0%Z.

Definition compactness_bonus (containers : list Container.t) : float :=
  fold_left
    (fun acc c =>
       match Container.bottom_rectangles c, Container.top_rectangles c with
       | [], _ | _, [] => acc
       | _, _ =>
           let min_possible :=
             Container.get_minimum_height (rectangles self) c in
           let actual_height := Container.height c in
           if 0 <? actual_height
           then acc + (min_possible / actual_height) * 200
           else acc
       end)
    containers 0.

Definition evaluate_fitness (individual : Individual.t)
  : M Individual.evaluated :=
  st <- pack_rectangles individual ;;
  let '(containers, placed_count, assignments) := st in
  let total_height_used :=
    fsum (map Container.height
              (prefix containers (Individual.num_containers individual))) in
  let total_rectangles := Z.of_nat (length (rectangles self)) in
  let placement_rate :=
    if (0 <? total_rectangles)%Z
    then float_of_int placed_count / float_of_int total_rectangles else 0 in
  if (placed_count =? 0)%Z then
    ret (Individual.mk_evaluated (-1000) containers total_height_used
           placed_count assignments)
  else if (max_containers self =? 0)%Z then raise ZeroDivisionError
  else
    let container_penalty :=
      float_of_int (Individual.num_containers individual)
      / float_of_int (max_containers self) in
    let height_penalty :=
      if 0 <? max_total_height self
      then total_height_used / max_total_height self else 1 in
    let placement_bonus :=
      if (placed_count =? total_rectangles)%Z then 500 else 0 in
    ret (Individual.mk_evaluated
           (placement_rate * 1000
            + placement_bonus
            + avg_utilization containers * 300
            + compactness_bonus containers
            - container_penalty * 50
            - height_penalty * 30
            - float_of_int (clash_penalty containers))
           containers total_height_used placed_count assignments).

End Methods.

End StackedContainerOptimizer.

End F64.

(** * Vocabulary of the properties *)

Module SCO := StackedContainerOptimizer.

Definition nonneg_heights (l : list Rectangle.t) : Prop :=
  Forall (fun r => 0 <= Rectangle.height r) l.

(** The ids of a container's items all index the rectangle table. *)
Definition ids_in_range (l : list Rectangle.t) (c : Container.t) : Prop :=
  Forall (fun p : Z * Q => index l (fst p) <> None)
         (Container.bottom_rectangles c ++ Container.top_rectangles c).

(** The inner and outer loops of [get_minimum_height], from any starting
    value. *)
Definition overlap_inner (rects : list Rectangle.t) (b : Z * Q)
  (tops : list (Z * Q)) (acc : Q) : Q :=
  fold_left
    (fun acc' t =>
       if Container.x_overlap rects b t then
         Qmax acc' (Rectangle.height (rect_at rects (fst b))
                    + Rectangle.height (rect_at rects (fst t)))
       else acc')
    tops acc.

Definition overlap_outer (rects : list Rectangle.t)
  (bottoms tops : list (Z * Q)) (acc : Q) : Q :=
  fold_left (fun acc b => overlap_inner rects b tops acc) bottoms acc.

(** What the height pass does to one container: an empty one is left as
    it is, any other gets its minimum height plus a jitter of at most 2%
    of it. *)
Definition jittered (self : SCO.t) (c c' : Container.t) : Prop :=
  if SCO.has_items c then
    exists j, 0 <= j /\ j <= 2 # 100 /\
      c' = Container.set_height c
             (Container.get_minimum_height (SCO.rectangles self) c
              + j * Container.get_minimum_height (SCO.rectangles self) c)
  else c' = c.

(** [l'] is [l] with some rectangle heights increased and everything
    else kept. *)
Definition heights_raised (l l' : list Rectangle.t) : Prop :=
  Forall2
    (fun r r' =>
       Rectangle.width r = Rectangle.width r'
       /\ Rectangle.id r = Rectangle.id r'
       /\ Rectangle.height r <= Rectangle.height r')
    l l'.

(** A container with a bottom and a top item that overlap in X. *)
Definition stacked_pair : Container.t :=
  Container.mk 5 10 0 [(0%Z, 0)] [(1%Z, 0)].

(** An individual over the worked instance's rectangles, with up to two
    containers and an uneven height split, as the height mutations leave
    it. *)
Definition uneven_individual : Individual.t :=
  Individual.mk [Rectangle.mk 5 3 0; Rectangle.mk 5 3 1] 5 10 2 2
                [0; 1]%Z [3; 7] 0 [] 0 0%Z None.

(** Number of items held by a list of containers. *)
Definition item_count (cs : list Container.t) : nat :=
  fold_right
    (fun c k =>
       (length (Container.bottom_rectangles c)
        + length (Container.top_rectangles c) + k)%nat)
    0%nat cs.

(** Two containers agree on everything but their height. *)
Definition same_placement (c1 c2 : Container.t) : Prop :=
  Container.width c1 = Container.width c2
  /\ Container.id c1 = Container.id c2
  /\ Container.bottom_rectangles c1 = Container.bottom_rectangles c2
  /\ Container.top_rectangles c1 = Container.top_rectangles c2.

(** *** A worked instance: two rectangles (5,3) in one container of
    width 5, with a height budget of 10 *)

Definition scenario_c : SCO.t :=
  SCO.mk [Rectangle.mk 5 3 0; Rectangle.mk 5 3 1] 5 10 1
         100 500 (2 # 10) (8 # 10) 10 [] None.

Definition scenario_c_individual (order : list Z) : Individual.t :=
  Individual.mk (SCO.rectangles scenario_c) 5 10 1 1 order [10]
                0 [] 0 0%Z None.

(** A generator whose raw draws are all [r]. *)
Definition constant_rng (r : Z) : rng := mkRng (fun _ => r) 0.

(** The containers [pack_rectangles] returns on the instance with every
    raw draw 0. *)
Definition scenario_c_packed : list Container.t :=
  match SCO.pack_rectangles scenario_c (scenario_c_individual [0; 1]%Z)
          (constant_rng 0) with
  | Ok (cs, _, _, _) => cs
  | Raise _ => []
  end.

(** What the worked instance must give for a processing order: both
    rectangles placed in the one container, the first on the bottom edge
    and the second on the top edge, both at x = 0, a minimum height of 6
    and no clash. *)
Definition scenario_c_outcome (order : list Z) (g : rng) : Prop :=
  exists c a g' first second,
    SCO.pack_rectangles scenario_c (scenario_c_individual order) g
    = Ok ([c], 2%Z, a, g')
    /\ order = [first; second]
    /\ Container.bottom_rectangles c = [(first, 0)]
    /\ Container.top_rectangles c = [(second, 0)]
    /\ Container.get_minimum_height (SCO.rectangles scenario_c) c = 6
    /\ SCO._has_rectangle_clashes scenario_c c = false.

(** *** An instance whose only rectangle, (8,2), is wider than the
    container *)

Definition scenario_b : SCO.t :=
  SCO.mk [Rectangle.mk 8 2 0] 7 10 1 100 500 (2 # 10) (8 # 10) 10 [] None.

Definition scenario_b_individual : Individual.t :=
  Individual.mk (SCO.rectangles scenario_b) 7 10 1 1 [0]%Z [10]
                0 [] 0 0%Z None.



(** Partial correctness of a computation: whenever it returns, the
    returned value satisfies [P]. *)
Definition post {A : Type} (m : M A) (P : A -> Prop) : Prop :=
  forall g a g', m g = Ok (a, g') -> P a.

(** [o] is a permutation of [0 .. n-1]. *)
Definition valid_order (n : nat) (o : list Z) : Prop :=
  Permutation o (range n).

(** Shape of a child during the filling loop of the order crossover: the
    kept segment [seg] at positions [s .. e-1], the items [a] written
    after it, the items [b] written from position 0 once the end was
    reached, and -1 everywhere else. *)
Definition ox_layout (size s e : nat) (seg a b : list Z) : list Z :=
  b ++ repeat (-1)%Z (s - length b) ++ seg ++ a
    ++ repeat (-1)%Z (size - e - length a).

(** The loop invariant on [a] and [b]; [pb] is the parent the items come
    from. *)
Definition ox_ok (size s e : nat) (seg pb a b : list Z) : Prop :=
  (length a <= size - e)%nat
  /\ (length b <= s)%nat
  /\ ((length a < size - e)%nat -> b = [])
  /\ NoDup (seg ++ a ++ b)
  /\ incl (a ++ b) pb.

Definition valid_individual (n : nat) (i : Individual.t) : Prop :=
  valid_order n (Individual.rectangle_order i).

(** ** Vocabulary of the placement invariants *)

Definition nonneg_widths (l : list Rectangle.t) : Prop :=
  Forall (fun r => 0 <= Rectangle.width r) l.

(** The horizontal span of item [p] lies inside a container of width
    [cw]. *)
Definition in_bounds (rects : list Rectangle.t) (cw : Q) (p : Z * Q) : Prop :=
  0 <= snd p /\ snd p + Rectangle.width (rect_at rects (fst p)) <= cw.

(** The horizontal spans of two items of one edge do not overlap. *)
Definition x_disjoint (rects : list Rectangle.t) (p q : Z * Q) : Prop :=
  snd p + Rectangle.width (rect_at rects (fst p)) <= snd q
  \/ snd q + Rectangle.width (rect_at rects (fst q)) <= snd p.

Definition edge_ok (rects : list Rectangle.t) (cw : Q)
  (items : list (Z * Q)) : Prop :=
  Forall (in_bounds rects cw) items
  /\ ForallOrdPairs (x_disjoint rects) items.

(** Every item of the container is inside it, and no two items of the
    same edge overlap in X. *)
Definition well_placed (rects : list Rectangle.t) (c : Container.t) : Prop :=
  edge_ok rects (Container.width c) (Container.bottom_rectangles c)
  /\ edge_ok rects (Container.width c) (Container.top_rectangles c).

(** The occupied ranges are in ascending order of their start. *)
Definition starts_ascending (ranges : list (Q * Q)) : Prop :=
  ForallOrdPairs (fun r r' : Q * Q => fst r <= fst r') ranges.


(** The rectangle ids held by a list of containers, container by
    container, bottom edge first. *)
Definition item_ids (cs : list Container.t) : list Z :=
  flat_map
    (fun c => map fst (Container.bottom_rectangles c)
              ++ map fst (Container.top_rectangles c))
    cs.

(** Every id of [order] that indexes the table names a rectangle wider
    than the containers. *)
Definition all_too_wide (self : SCO.t) (order : list Z) : Prop :=
  Forall
    (fun i => forall r, index (SCO.rectangles self) i = Some r ->
                        SCO.container_width self < Rectangle.width r)
    order.

(** Total correctness of a computation: from every generator state it
    returns, and the returned value satisfies [P]. *)
Definition always {A : Type} (m : M A) (P : A -> Prop) : Prop :=
  forall g, exists a g', m g = Ok (a, g') /\ P a.

(** The computation raises [e] from every generator state. *)
Definition raises {A : Type} (m : M A) (e : exn) : Prop :=
  forall g, m g = Raise e.

(** A freshly built individual: between 1 and [mc] containers, the
    height budget [mth] split evenly over them, the identity order and no
    evaluation yet. *)
Definition fresh_individual (rects : list Rectangle.t) (cw mth : Q) (mc : Z)
  (i : Individual.t) : Prop :=
  (1 <= Individual.num_containers i <= mc)%Z
  /\ length (Individual.container_heights i)
     = Z.to_nat (Individual.num_containers i)
  /\ Forall (fun h => h = mth / inject_Z (Individual.num_containers i))
            (Individual.container_heights i)
  /\ Individual.rectangle_order i = range (length rects)
  /\ Individual.rectangles i = rects
  /\ Individual.container_width i = cw
  /\ Individual.max_total_height i = mth
  /\ Individual.max_containers i = mc
  /\ Individual.fitness i = 0
  /\ Individual.containers i = []
  /\ Individual.rectangles_placed i = 0%Z.

(** What [copy] carries over from the original. *)
Definition copied_from (s c : Individual.t) : Prop :=
  Individual.num_containers c = Individual.num_containers s
  /\ Individual.rectangle_order c = Individual.rectangle_order s
  /\ Individual.fitness c = Individual.fitness s
  /\ Individual.containers c = Individual.containers s
  /\ Individual.total_height_used c = Individual.total_height_used s
  /\ Individual.rectangles_placed c = Individual.rectangles_placed s
  /\ Individual.rectangles c = Individual.rectangles s
  /\ Individual.container_width c = Individual.container_width s
  /\ Individual.max_total_height c = Individual.max_total_height s
  /\ Individual.max_containers c = Individual.max_containers s.

(** Whenever the computation raises, the exception satisfies [E]. *)
Definition only_raises {A : Type} (m : M A) (E : exn -> Prop) : Prop :=
  forall g e, m g = Raise e -> E e.

(** A member of the initial population: a permutation of all rectangle
    ids, a container count in range and one height per container, each
    the quotient of the budget by the container count. *)
Definition initial_individual (self : SCO.t) (i : Individual.t) : Prop :=
  valid_individual (length (SCO.rectangles self)) i
  /\ (1 <= Individual.num_containers i <= SCO.max_containers self)%Z
  /\ length (Individual.container_heights i)
     = Z.to_nat (Individual.num_containers i)
  /\ Forall (fun h => h = SCO.max_total_height self
                          / inject_Z (Individual.num_containers i))
            (Individual.container_heights i).

(** What 'adjust' and 'random_heights' leave behind on an individual with
    at least one container: one height per container, none negative when
    the budget [mth] is not; container count and order as before. *)
Definition redistributed (mth : Q) (individual i : Individual.t) : Prop :=
  length (Individual.container_heights i)
  = Z.to_nat (Individual.num_containers individual)
  /\ (0 <= mth -> Forall (fun h => 0 <= h) (Individual.container_heights i))
  /\ Individual.num_containers i = Individual.num_containers individual
  /\ Individual.rectangle_order i = Individual.rectangle_order individual.

(** What [crossover] and the search need of a parent: a permutation of
    the [n] rectangle ids, a container count that is not negative and room
    for at least one container. *)
Definition sound_parent (n : nat) (p : Individual.t) : Prop :=
  valid_individual n p
  /\ (1 <= Individual.max_containers p)%Z
  /\ (0 <= Individual.num_containers p)%Z.

(** A height of a recombined child comes from one of the parents or is
    the even share of the child's container count. *)
Definition inherited_height (self : SCO.t) (p1 p2 c : Individual.t) (h : Q)
  : Prop :=
  In h (Individual.container_heights p1)
  \/ In h (Individual.container_heights p2)
  \/ h = SCO.max_total_height self / inject_Z (Individual.num_containers c).

(** One child of the recombining branch of [crossover]. *)
Definition recombined_child (self : SCO.t) (p1 p2 c : Individual.t) : Prop :=
  length (Individual.container_heights c)
  = Z.to_nat (Individual.num_containers c)
  /\ Forall (inherited_height self p1 p2 c) (Individual.container_heights c)
  /\ Individual.fitness c = 0
  /\ Individual.containers c = []
  /\ Individual.rectangles c = SCO.rectangles self.

(** The two children of the recombining branch: the parents' container
    counts, one each, and recombined heights. *)
Definition recombined (self : SCO.t) (p1 p2 : Individual.t)
  (cc : Individual.t * Individual.t) : Prop :=
  ((Individual.num_containers (fst cc) = Individual.num_containers p1
    /\ Individual.num_containers (snd cc) = Individual.num_containers p2)
   \/ (Individual.num_containers (fst cc) = Individual.num_containers p2
       /\ Individual.num_containers (snd cc) = Individual.num_containers p1))
  /\ recombined_child self p1 p2 (fst cc)
  /\ recombined_child self p1 p2 (snd cc).

(** A height taken from one of two lists. *)
Definition from_parents (p1h p2h : list Q) (h : Q) : Prop :=
  In h p1h \/ In h p2h.

(** What a mutation never touches: the evaluation results (which are
    therefore stale afterwards) and the problem data. *)
Definition untouched_by_mutation (individual i : Individual.t) : Prop :=
  Individual.fitness i = Individual.fitness individual
  /\ Individual.containers i = Individual.containers individual
  /\ Individual.total_height_used i = Individual.total_height_used individual
  /\ Individual.rectangles_placed i = Individual.rectangles_placed individual
  /\ Individual.rectangle_assignments i
     = Individual.rectangle_assignments individual
  /\ Individual.rectangles i = Individual.rectangles individual
  /\ Individual.container_width i = Individual.container_width individual
  /\ Individual.max_total_height i = Individual.max_total_height individual
  /\ Individual.max_containers i = Individual.max_containers individual.

(** [o'] is [o] with the entries at two distinct positions exchanged. *)
Definition two_exchanged (o o' : list Z) : Prop :=
  exists a b,
    a <> b /\ (a < length o)%nat /\ (b < length o)%nat
    /\ nth_error o' a = nth_error o b
    /\ nth_error o' b = nth_error o a
    /\ (forall k, k <> a -> k <> b -> nth_error o' k = nth_error o k).

(** [o'] is [o] with one window rearranged: the window covers between a
    third and two thirds of the entries, and everything outside it is
    where it was. *)
Definition window_rearranged (o o' : list Z) : Prop :=
  exists a b,
    (a <= b <= length o)%nat
    /\ (length o / 3 <= b - a <= length o * 2 / 3)%nat
    /\ firstn a o' = firstn a o
    /\ skipn b o' = skipn b o
    /\ Permutation (slice o' a b) (slice o a b).

(** [tournament] is made of [k] members of [population] at distinct
    positions. *)
Definition drawn_from (population tournament : list Individual.t) (k : nat)
  : Prop :=
  length tournament = k
  /\ exists others, Permutation (tournament ++ others) population.

(** [w] is a copy of a member of the tournament that no other member
    beats. *)
Definition tournament_winner (tournament : list Individual.t)
  (w : Individual.t) : Prop :=
  exists p,
    In p tournament
    /\ (forall q, In q tournament ->
                  Individual.fitness q <= Individual.fitness p)
    /\ copied_from p w.

(** Each value is at most the ones after it. *)
Definition non_decreasing (l : list Q) : Prop := ForallOrdPairs Qle l.

(** The history of best-fitness values against the best individual kept:
    non-decreasing and never above the fitness of the best individual;
    empty while there is none. *)
Definition history_of_best (best : option Individual.t) (history : list Q)
  : Prop :=
  non_decreasing history
  /\ match best with
     | Some b => Forall (fun h => h <= Individual.fitness b) history
     | None => history = []
     end.

(** An optimizer over the worked instance with a population of two and
    an elitism count of three, run for two generations. *)
Definition greedy_search : SCO.t :=
  SCO.mk [Rectangle.mk 5 3 0; Rectangle.mk 5 3 1] 5 10 1
         2 2 (2 # 10) (8 # 10) 3 [] None.

(** The same with an empty population. *)
Definition empty_search : SCO.t :=
  SCO.mk [Rectangle.mk 5 3 0; Rectangle.mk 5 3 1] 5 10 1
         0 2 (2 # 10) (8 # 10) 0 [] None.

(** A member of the population during the search: a permutation of all
    rectangle ids, a container count between 1 and the optimizer's
    [max_containers], and the optimizer's [max_containers] as its own. *)
Definition search_member (self : SCO.t) (i : Individual.t) : Prop :=
  valid_individual (length (SCO.rectangles self)) i
  /\ (1 <= Individual.num_containers i <= SCO.max_containers self)%Z
  /\ Individual.max_containers i = SCO.max_containers self.

(** A population of [population_size] such members. *)
Definition search_population (self : SCO.t) (population : list Individual.t)
  : Prop :=
  length population = Z.to_nat (SCO.population_size self)
  /\ Forall (search_member self) population.

(** An optimizer over the worked instance with a population of five, run
    for two generations. *)
Definition steady_search : SCO.t :=
  SCO.mk [Rectangle.mk 5 3 0; Rectangle.mk 5 3 1] 5 10 1
         5 2 (2 # 10) (8 # 10) 0 [] None.

(** A container during placement against the container it started as:
    the height is the one it was given, and no item is higher than that. *)
Definition fits_height (rects : list Rectangle.t) (c0 c : Container.t)
  : Prop :=
  Container.height c = Container.height c0
  /\ Forall (fun p => Rectangle.height (rect_at rects (fst p))
                      <= Container.height c0)
            (Container.bottom_rectangles c ++ Container.top_rectangles c).

(** A returned container against the container the individual asked for:
    no item is higher than the height asked for, and without items the
    container keeps that height. *)
Definition within_allotted (rects : list Rectangle.t) (c0 c : Container.t)
  : Prop :=
  Forall (fun p => Rectangle.height (rect_at rects (fst p))
                   <= Container.height c0)
         (Container.bottom_rectangles c ++ Container.top_rectangles c)
  /\ (SCO.has_items c = false -> Container.height c = Container.height c0).

(** The ids a container holds. *)
Definition container_ids (c : Container.t) : list Z :=
  map fst (Container.bottom_rectangles c)
  ++ map fst (Container.top_rectangles c).

(** The assignment table [a] agrees with the containers [cs] on [id]:
    [a[id]] is the position of a container that holds the id, or it is -1
    and no container holds the id. *)
Definition assignment_agrees (cs : list Container.t) (a : list Z) (id : Z)
  : Prop :=
  (exists k c,
      index a id = Some (Z.of_nat k)
      /\ nth_error cs k = Some c
      /\ In id (container_ids c))
  \/ (index a id = Some (-1)%Z /\ ~ In id (item_ids cs)).

(** *** Instances for the behaviour under rounding *)

Module FSCO := F64.StackedContainerOptimizer.





(** *** One unit square, containers of width 1, a height budget of 32 and
    at most four containers; an individual with two containers of heights
    1 and 2959 *)





(** *** Three rectangles (5,3) for containers of width 5, a height budget
    of 12 and at most two containers; individuals that differ in their
    container count only *)

Definition three_squares : SCO.t :=
  SCO.mk [Rectangle.mk 5 3 0; Rectangle.mk 5 3 1; Rectangle.mk 5 3 2] 5 12 2
         100 500 (2 # 10) (8 # 10) 10 [] None.

Definition three_squares_individual (num_containers : Z) : Individual.t :=
  Individual.mk (SCO.rectangles three_squares) 5 12 2 num_containers
                [0; 1; 2]%Z [12] 0 [] 0 0%Z None.


(** * Properties *)

Unset Implicit Arguments.

(** ** Rationals and the runtime library *)

Lemma Qlt_bool_true (a b : Q) : Qlt_bool a b = true <-> a < b.
Proof.
  unfold Qlt_bool. rewrite negb_true_iff.
  split; intro H.
  - apply Qnot_le_lt. intro Hle. apply Qle_bool_iff in Hle. congruence.
  - destruct (Qle_bool b a) eqn:E; [|reflexivity].
    apply Qle_bool_iff in E. exfalso. exact (Qlt_not_le _ _ H E).
Qed.

Lemma Qle_bool_false (a b : Q) : Qle_bool a b = false <-> b < a.
Proof.
  rewrite <- Qlt_bool_true. unfold Qlt_bool.
  destruct (Qle_bool a b); simpl; split; congruence.
Qed.

Lemma Qmax_ge_l (a b : Q) : a <= Qmax a b.
Proof. apply Q.le_max_l. Qed.

Lemma Qmax_ge_r (a b : Q) : b <= Qmax a b.
Proof. apply Q.le_max_r. Qed.

Lemma Qmax_cases (a b : Q) : Qmax a b = a \/ Qmax a b = b.
Proof.
  unfold Qmax, GenericMinMax.gmax. destruct (a ?= b); auto.
Qed.

Lemma Qmax_mono (a b a' b' : Q) : a <= a' -> b <= b' -> Qmax a b <= Qmax a' b'.
Proof. intros. apply Q.max_le_compat; assumption. Qed.

Lemma max_list_ge_init (xs : list Q) (x : Q) : x <= max_list x xs.
Proof.
  unfold max_list. revert x.
  induction xs as [|y ys IH]; intro x; simpl.
  - apply Qle_refl.
  - eapply Qle_trans; [apply (Qmax_ge_l x y)|apply IH].
Qed.

Lemma max_list_ge (xs : list Q) (x y : Q) :
  In y (x :: xs) -> y <= max_list x xs.
Proof.
  unfold max_list. revert x.
  induction xs as [|z zs IH]; intros x [Hy|Hy]; simpl in *.
  - subst. apply Qle_refl.
  - contradiction.
  - subst. apply (max_list_ge_init (z :: zs) y).
  - destruct Hy as [Hy|Hy].
    + subst. eapply Qle_trans; [apply (Qmax_ge_r x y)|].
      apply (max_list_ge_init zs).
    + apply IH. right. exact Hy.
Qed.

Lemma max_list_in (xs : list Q) (x : Q) : In (max_list x xs) (x :: xs).
Proof.
  unfold max_list. revert x.
  induction xs as [|z zs IH]; intro x; simpl.
  - left. reflexivity.
  - destruct (IH (Qmax x z)) as [H|H].
    + rewrite <- H. simpl.
      destruct (Qmax_cases x z) as [E|E]; rewrite E; auto.
    + right. right. exact H.
Qed.

Lemma max_list_mono (xs ys : list Q) (x y : Q) :
  x <= y -> Forall2 Qle xs ys -> max_list x xs <= max_list y ys.
Proof.
  unfold max_list. intros Hxy HF. revert x y Hxy.
  induction HF as [|a b xs ys Hab HF IH]; intros x y Hxy; simpl.
  - exact Hxy.
  - apply IH. apply Qmax_mono; assumption.
Qed.

Lemma bind_Ok (A B : Type) (m : M A) (k : A -> M B) (g g' : rng) (a : A) :
  m g = Ok (a, g') -> bind m k g = k a g'.
Proof. intro H. unfold bind. rewrite H. reflexivity. Qed.

Lemma bind_Raise (A B : Type) (m : M A) (k : A -> M B) (g : rng) (e : exn) :
  m g = Raise e -> bind m k g = Raise e.
Proof. intro H. unfold bind. rewrite H. reflexivity. Qed.

(** Every draw of [random] succeeds and lies in [0, 1). *)
Lemma random_spec (g : rng) :
  exists u g', random g = Ok (u, g') /\ 0 <= u /\ u < 1.
Proof.
  unfold random, bind, draw, ret.
  eexists. eexists. split; [reflexivity|].
  assert (Hm : (0 <= raw g (pos g) mod 2 ^ 53 < 2 ^ 53)%Z)
    by (apply Z.mod_pos_bound; reflexivity).
  unfold Qle, Qlt; simpl. lia.
Qed.

Lemma uniform_spec (a b : Q) (g : rng) :
  exists u g', uniform a b g = Ok (a + (b - a) * u, g') /\ 0 <= u /\ u < 1.
Proof.
  destruct (random_spec g) as (u & g' & E & H0 & H1).
  exists u, g'. unfold uniform, bind. rewrite E. auto.
Qed.

(** The jitter factor drawn by the height pass lies in [0, 2%]. *)
Lemma jitter_spec (g : rng) :
  exists j g', uniform 0 (2 # 100) g = Ok (j, g') /\ 0 <= j /\ j <= 2 # 100.
Proof.
  destruct (uniform_spec 0 (2 # 100) g) as (u & g' & E & H0 & H1).
  eexists. exists g'. split; [exact E|]. split; lra.
Qed.

(** ** Geometric primitives *)

Section Geometry.

Variable rects : list Rectangle.t.

Lemma index_In (A : Type) (l : list A) (i : Z) (a : A) :
  index l i = Some a -> In a l.
Proof.
  unfold index.
  destruct (0 <=? i)%Z; [apply nth_error_In|].
  destruct (- Z.of_nat (length l) <=? i)%Z; [apply nth_error_In|discriminate].
Qed.

Lemma rect_at_height_nonneg (i : Z) :
  nonneg_heights rects -> 0 <= Rectangle.height (rect_at rects i).
Proof.
  intro H. unfold rect_at.
  destruct (index rects i) as [r|] eqn:E; simpl; [|apply Qle_refl].
  unfold nonneg_heights in H. rewrite Forall_forall in H.
  apply H. eapply index_In. exact E.
Qed.

Lemma edge_height_ge (items : list (Z * Q)) (p : Z * Q) :
  In p items ->
  Rectangle.height (rect_at rects (fst p)) <= Container.edge_height rects items.
Proof.
  intro Hin. unfold Container.edge_height.
  assert (Hh : In (Rectangle.height (rect_at rects (fst p)))
                  (Container.heights_of rects items)).
  { unfold Container.heights_of.
    apply (in_map (fun q => Rectangle.height (rect_at rects (fst q)))).
    exact Hin. }
  destruct (Container.heights_of rects items) as [|h hs]; [contradiction|].
  apply max_list_ge. exact Hh.
Qed.

Lemma edge_height_nonneg (items : list (Z * Q)) :
  nonneg_heights rects -> 0 <= Container.edge_height rects items.
Proof.
  intro H. destruct items as [|p items].
  - apply Qle_refl.
  - eapply Qle_trans; [apply (rect_at_height_nonneg (fst p) H)|].
    apply edge_height_ge. left. reflexivity.
Qed.

(** On a non-empty edge the edge height is the height of one of its
    items. *)
Lemma edge_height_attained (items : list (Z * Q)) :
  items <> [] ->
  exists p, In p items /\
    Container.edge_height rects items = Rectangle.height (rect_at rects (fst p)).
Proof.
  intro Hne. unfold Container.edge_height.
  destruct items as [|q items]; [congruence|].
  pose proof (max_list_in
                (Container.heights_of rects items)
                (Rectangle.height (rect_at rects (fst q)))) as Hin.
  simpl. change (In (max_list (Rectangle.height (rect_at rects (fst q)))
                              (Container.heights_of rects items))
                    (Container.heights_of rects (q :: items))) in Hin.
  unfold Container.heights_of in Hin at 2.
  apply in_map_iff in Hin. destruct Hin as (p & E & Hp).
  exists p. split; [exact Hp|]. symmetry. exact E.
Qed.

Lemma edge_height_le_app (l1 l2 items : list (Z * Q)) :
  items <> [] -> incl items (l1 ++ l2) ->
  Container.edge_height rects items <= Container.edge_height rects (l1 ++ l2).
Proof.
  intros Hne Hincl.
  destruct (edge_height_attained items Hne) as (p & Hp & E).
  rewrite E. apply edge_height_ge. apply Hincl. exact Hp.
Qed.

Lemma overlap_height_unfold (bottoms tops : list (Z * Q)) :
  Container.overlap_height rects bottoms tops = overlap_outer rects bottoms tops 0.
Proof. reflexivity. Qed.

Lemma overlap_inner_ge (b : Z * Q) (tops : list (Z * Q)) (acc : Q) :
  acc <= overlap_inner rects b tops acc.
Proof.
  unfold overlap_inner. revert acc.
  induction tops as [|t tops IH]; intro acc; simpl.
  - apply Qle_refl.
  - eapply Qle_trans; [|apply IH].
    destruct (Container.x_overlap rects b t);
      [apply Qmax_ge_l|apply Qle_refl].
Qed.

Lemma overlap_outer_ge (bottoms tops : list (Z * Q)) (acc : Q) :
  acc <= overlap_outer rects bottoms tops acc.
Proof.
  unfold overlap_outer. revert acc.
  induction bottoms as [|b bottoms IH]; intro acc; simpl.
  - apply Qle_refl.
  - eapply Qle_trans; [apply (overlap_inner_ge b tops acc)|apply IH].
Qed.

Lemma overlap_inner_reaches (b t : Z * Q) (tops : list (Z * Q)) (acc : Q) :
  In t tops -> Container.x_overlap rects b t = true ->
  Rectangle.height (rect_at rects (fst b))
  + Rectangle.height (rect_at rects (fst t)) <= overlap_inner rects b tops acc.
Proof.
  unfold overlap_inner. revert acc.
  induction tops as [|t' tops IH]; intros acc Hin Hov; simpl.
  - contradiction.
  - destruct Hin as [->|Hin].
    + rewrite Hov. eapply Qle_trans; [apply Qmax_ge_r|].
      apply (overlap_inner_ge b tops).
    + apply IH; assumption.
Qed.

Lemma overlap_outer_reaches (b t : Z * Q) (bottoms tops : list (Z * Q))
  (acc : Q) :
  In b bottoms -> In t tops -> Container.x_overlap rects b t = true ->
  Rectangle.height (rect_at rects (fst b))
  + Rectangle.height (rect_at rects (fst t)) <= overlap_outer rects bottoms tops acc.
Proof.
  unfold overlap_outer. revert acc.
  induction bottoms as [|b' bottoms IH]; intros acc Hb Ht Hov; simpl.
  - contradiction.
  - destruct Hb as [->|Hb].
    + eapply Qle_trans; [apply (overlap_inner_reaches b t tops acc Ht Hov)|].
      apply (overlap_outer_ge bottoms tops).
    + apply IH; assumption.
Qed.

(** The result of [get_minimum_height] is at least the height of every
    item of the container. *)
Lemma get_minimum_height_ge_item (c : Container.t) (p : Z * Q) :
  In p (Container.bottom_rectangles c ++ Container.top_rectangles c) ->
  Rectangle.height (rect_at rects (fst p))
  <= Container.get_minimum_height rects c.
Proof.
  intro Hin. unfold Container.get_minimum_height,
    Container.get_bottom_height, Container.get_top_height.
  destruct (Container.bottom_rectangles c) as [|b bs] eqn:Eb.
  - simpl in Hin. apply (edge_height_ge _ _) in Hin.
    change (Container.edge_height rects []) with 0. lra.
  - destruct (Container.top_rectangles c) as [|t ts] eqn:Et.
    + rewrite app_nil_r in Hin. apply (edge_height_ge _ _) in Hin.
      change (Container.edge_height rects []) with 0. lra.
    + eapply Qle_trans; [apply (edge_height_ge _ _ Hin)|apply Qmax_ge_r].
Qed.

Lemma get_minimum_height_nonneg (c : Container.t) :
  nonneg_heights rects -> 0 <= Container.get_minimum_height rects c.
Proof.
  intro H. unfold Container.get_minimum_height,
    Container.get_bottom_height, Container.get_top_height.
  pose proof (edge_height_nonneg (Container.bottom_rectangles c) H) as Hb.
  pose proof (edge_height_nonneg (Container.top_rectangles c) H) as Ht.
  destruct (Container.bottom_rectangles c) as [|b bs].
  - lra.
  - destruct (Container.top_rectangles c) as [|t ts].
    + lra.
    + eapply Qle_trans; [|apply Qmax_ge_r].
      apply edge_height_nonneg. exact H.
Qed.

(** Every X-overlapping bottom/top pair fits, stacked, below the result of
    [get_minimum_height]. *)
Lemma get_minimum_height_ge_pair (c : Container.t) (b t : Z * Q) :
  nonneg_heights rects ->
  In b (Container.bottom_rectangles c) ->
  In t (Container.top_rectangles c) ->
  Container.x_overlap rects b t = true ->
  Rectangle.height (rect_at rects (fst b))
  + Rectangle.height (rect_at rects (fst t))
  <= Container.get_minimum_height rects c.
Proof.
  intros Hnn Hb Ht Hov.
  pose proof (overlap_outer_reaches b t _ _ 0 Hb Ht Hov) as Hreach.
  pose proof (get_minimum_height_nonneg c Hnn) as Hge0.
  revert Hge0. unfold Container.get_minimum_height.
  destruct (Container.bottom_rectangles c) as [|b0 bs] eqn:Eb;
    [contradiction|].
  destruct (Container.top_rectangles c) as [|t0 ts] eqn:Et;
    [contradiction|].
  rewrite overlap_height_unfold.
  destruct (Qeq_bool (overlap_outer rects (b0 :: bs) (t0 :: ts) 0) 0) eqn:E0.
  - apply Qeq_bool_iff in E0. intro Hge0.
    eapply Qle_trans; [exact Hreach|]. rewrite E0. exact Hge0.
  - intros _. eapply Qle_trans; [exact Hreach|apply Qmax_ge_l].
Qed.

Lemma get_minimum_height_set_height (c : Container.t) (h : Q) :
  Container.get_minimum_height rects (Container.set_height c h)
  = Container.get_minimum_height rects c.
Proof. reflexivity. Qed.

End Geometry.

(** ** The height pass of [pack_rectangles] *)

Section HeightPass.

Variable self : SCO.t.

Lemma optimize_height_spec (c : Container.t) (g : rng) :
  exists c' g', SCO.optimize_height self c g = Ok (c', g') /\ jittered self c c'.
Proof.
  unfold SCO.optimize_height, jittered.
  destruct (SCO.has_items c).
  - destruct (jitter_spec g) as (j & g' & E & H0 & H1).
    unfold bind. rewrite E. unfold ret.
    eexists. exists g'. split; [reflexivity|].
    exists j. auto.
  - exists c, g. split; reflexivity.
Qed.

Lemma optimize_heights_spec (cs : list Container.t) (g : rng) :
  exists cs' g',
    SCO.optimize_heights self cs g = Ok (cs', g') /\ Forall2 (jittered self) cs cs'.
Proof.
  revert g. induction cs as [|c cs IH]; intro g; simpl.
  - exists [], g. split; [reflexivity|constructor].
  - destruct (optimize_height_spec c g) as (c' & g1 & E1 & J).
    destruct (IH g1) as (cs' & g2 & E2 & F).
    exists (c' :: cs'), g2. unfold bind at 1. rewrite E1.
    unfold bind at 1. rewrite E2. unfold ret.
    split; [reflexivity|constructor; assumption].
Qed.

(** [pack_rectangles] is the placement followed by the height pass; it
    returns exactly when the placement does. *)
Lemma pack_rectangles_inv (individual : Individual.t) (g g' : rng)
  (cs : list Container.t) (n : Z) (a : list Z) :
  SCO.pack_rectangles self individual g = Ok (cs, n, a, g') ->
  exists cs0,
    SCO.place self individual = Ok (cs0, n, a) /\ Forall2 (jittered self) cs0 cs.
Proof.
  unfold SCO.pack_rectangles, bind at 1, lift.
  destruct (SCO.place self individual) as [[[cs0 n0] a0]|e]; [|discriminate].
  destruct (optimize_heights_spec cs0 g) as (cs' & g1 & E & F).
  unfold bind. rewrite E. unfold ret. intro H. inversion H; subst.
  exists cs0. split; [reflexivity|exact F].
Qed.

Lemma pack_rectangles_returns (individual : Individual.t) (g : rng)
  (cs0 : list Container.t) (n : Z) (a : list Z) :
  SCO.place self individual = Ok (cs0, n, a) ->
  exists cs g',
    SCO.pack_rectangles self individual g = Ok (cs, n, a, g')
    /\ Forall2 (jittered self) cs0 cs.
Proof.
  intro Hp. unfold SCO.pack_rectangles, bind at 1, lift. rewrite Hp.
  destruct (optimize_heights_spec cs0 g) as (cs' & g1 & E & F).
  exists cs', g1. unfold bind. rewrite E. unfold ret.
  split; [reflexivity|exact F].
Qed.

Lemma jittered_has_items (c c' : Container.t) :
  jittered self c c' -> SCO.has_items c' = SCO.has_items c.
Proof.
  unfold jittered. destruct (SCO.has_items c) eqn:E.
  - intros (j & _ & _ & ->). exact E.
  - intros ->. exact E.
Qed.

Lemma jittered_items (c c' : Container.t) :
  jittered self c c' ->
  Container.bottom_rectangles c' = Container.bottom_rectangles c
  /\ Container.top_rectangles c' = Container.top_rectangles c
  /\ Container.width c' = Container.width c
  /\ Container.id c' = Container.id c.
Proof.
  unfold jittered. destruct (SCO.has_items c).
  - intros (j & _ & _ & ->). repeat split.
  - intros ->. repeat split.
Qed.


Lemma no_clash_when_high_enough (c : Container.t) :
  nonneg_heights (SCO.rectangles self) ->
  Container.get_minimum_height (SCO.rectangles self) c <= Container.height c ->
  SCO._has_rectangle_clashes self c = false.
Proof.
  intros Hnn Hh. unfold SCO._has_rectangle_clashes.
  destruct (Container.bottom_rectangles c) as [|b0 bs] eqn:Eb; [reflexivity|].
  destruct (Container.top_rectangles c) as [|t0 ts] eqn:Et; [reflexivity|].
  rewrite <- Eb, <- Et.
  destruct (existsb _ (Container.bottom_rectangles c)) eqn:Ex; [|reflexivity].
  exfalso.
  apply existsb_exists in Ex. destruct Ex as (b & Hb & Ex).
  apply existsb_exists in Ex. destruct Ex as (t & Ht & Ex).
  apply andb_true_iff in Ex. destruct Ex as [Hx Hy].
  pose proof (get_minimum_height_ge_pair (SCO.rectangles self) c b t
                Hnn Hb Ht Hx) as Hpair.
  unfold SCO.y_overlap in Hy. apply negb_true_iff in Hy.
  apply orb_false_iff in Hy. destruct Hy as [Hy _].
  apply Qle_bool_false in Hy. lra.
Qed.

End HeightPass.



(** ** Monotonicity of [get_minimum_height] *)

Lemma raised_nth_error (l l' : list Rectangle.t) :
  heights_raised l l' ->
  forall k : nat,
  match nth_error l k, nth_error l' k with
  | Some r, Some r' =>
      Rectangle.width r = Rectangle.width r'
      /\ Rectangle.height r <= Rectangle.height r'
  | None, None => True
  | _, _ => False
  end.
Proof.
  unfold heights_raised.
  induction 1 as [|r r' t t' (Hw & _ & Hh) _ IH]; intros [|k]; simpl; auto.
  apply IH.
Qed.

Section Raised.

Variables l l' : list Rectangle.t.
Hypothesis Hraised : heights_raised l l'.

Lemma raised_rect_at (i : Z) :
  Rectangle.width (rect_at l i) = Rectangle.width (rect_at l' i)
  /\ Rectangle.height (rect_at l i) <= Rectangle.height (rect_at l' i).
Proof.
  assert (Hlen : length l = length l')
    by (eapply Forall2_length; exact Hraised).
  unfold rect_at, index. rewrite <- Hlen.
  destruct (0 <=? i)%Z.
  - pose proof (raised_nth_error l l' Hraised (Z.to_nat i)) as H.
    destruct (nth_error l (Z.to_nat i)), (nth_error l' (Z.to_nat i));
      simpl; try contradiction; [exact H|split; [reflexivity|apply Qle_refl]].
  - destruct (- Z.of_nat (length l) <=? i)%Z.
    + pose proof (raised_nth_error l l' Hraised
                    (Z.to_nat (Z.of_nat (length l) + i))) as H.
      destruct (nth_error l (Z.to_nat (Z.of_nat (length l) + i))),
               (nth_error l' (Z.to_nat (Z.of_nat (length l) + i)));
        simpl; try contradiction;
        [exact H|split; [reflexivity|apply Qle_refl]].
    + simpl. split; [reflexivity|apply Qle_refl].
Qed.

Lemma raised_x_overlap (b t : Z * Q) :
  Container.x_overlap l b t = Container.x_overlap l' b t.
Proof.
  unfold Container.x_overlap.
  destruct (raised_rect_at (fst b)) as [-> _].
  destruct (raised_rect_at (fst t)) as [-> _].
  reflexivity.
Qed.

Lemma raised_overlap_inner (b : Z * Q) (tops : list (Z * Q)) (acc acc' : Q) :
  acc <= acc' -> overlap_inner l b tops acc <= overlap_inner l' b tops acc'.
Proof.
  unfold overlap_inner. revert acc acc'.
  induction tops as [|t tops IH]; intros acc acc' Hacc; simpl.
  - exact Hacc.
  - apply IH. rewrite raised_x_overlap.
    destruct (Container.x_overlap l' b t); [|exact Hacc].
    apply Qmax_mono; [exact Hacc|].
    destruct (raised_rect_at (fst b)) as [_ Hb].
    destruct (raised_rect_at (fst t)) as [_ Ht].
    lra.
Qed.

Lemma raised_overlap_outer (bottoms tops : list (Z * Q)) (acc acc' : Q) :
  acc <= acc' ->
  overlap_outer l bottoms tops acc <= overlap_outer l' bottoms tops acc'.
Proof.
  unfold overlap_outer. revert acc acc'.
  induction bottoms as [|b bottoms IH]; intros acc acc' Hacc; simpl.
  - exact Hacc.
  - apply IH. apply raised_overlap_inner. exact Hacc.
Qed.

Lemma raised_edge_height (items : list (Z * Q)) :
  Container.edge_height l items <= Container.edge_height l' items.
Proof.
  unfold Container.edge_height.
  destruct items as [|p items]; simpl; [apply Qle_refl|].
  apply max_list_mono.
  - apply raised_rect_at.
  - induction items as [|q items IH]; simpl; constructor;
      [apply raised_rect_at|exact IH].
Qed.

Lemma raised_get_minimum_height (c : Container.t) :
  Container.get_minimum_height l c <= Container.get_minimum_height l' c.
Proof.
  unfold Container.get_minimum_height, Container.get_bottom_height,
    Container.get_top_height.
  pose proof (raised_edge_height (Container.bottom_rectangles c)) as Hb.
  pose proof (raised_edge_height (Container.top_rectangles c)) as Ht.
  pose proof (raised_edge_height
                (Container.bottom_rectangles c ++ Container.top_rectangles c))
    as Hall.
  pose proof (raised_overlap_outer (Container.bottom_rectangles c)
                (Container.top_rectangles c) 0 0 (Qle_refl 0)) as Ho.
  pose proof (overlap_outer_ge l (Container.bottom_rectangles c)
                (Container.top_rectangles c) 0) as Ho0.
  pose proof (edge_height_le_app l' (Container.bottom_rectangles c)
                (Container.top_rectangles c) (Container.bottom_rectangles c))
    as Hbl.
  pose proof (edge_height_le_app l' (Container.bottom_rectangles c)
                (Container.top_rectangles c) (Container.top_rectangles c))
    as Htl.
  destruct (Container.bottom_rectangles c) as [|b0 bs] eqn:Eb;
    [apply Qplus_le_compat; assumption|].
  destruct (Container.top_rectangles c) as [|t0 ts] eqn:Et;
    [apply Qplus_le_compat; assumption|].
  rewrite !overlap_height_unfold.
  assert (Hbl' : Container.edge_height l' (b0 :: bs)
                 <= Container.edge_height l' ((b0 :: bs) ++ t0 :: ts)).
  { apply Hbl; [discriminate|]. intros x Hx. apply in_or_app. left. exact Hx. }
  assert (Htl' : Container.edge_height l' (t0 :: ts)
                 <= Container.edge_height l' ((b0 :: bs) ++ t0 :: ts)).
  { apply Htl; [discriminate|]. intros x Hx. apply in_or_app. right. exact Hx. }
  destruct (Qeq_bool (overlap_outer l (b0 :: bs) (t0 :: ts) 0) 0) eqn:E;
    destruct (Qeq_bool (overlap_outer l' (b0 :: bs) (t0 :: ts) 0) 0) eqn:E'.
  - apply Qmax_mono; [apply Qmax_mono|]; assumption.
  - apply Q.max_lub.
    + eapply Qle_trans; [|apply Qmax_ge_r].
      apply Q.max_lub; eapply Qle_trans; eauto.
    + eapply Qle_trans; [exact Hall|apply Qmax_ge_r].
  - apply Qeq_bool_iff in E'. apply Qeq_bool_neq in E.
    exfalso. apply E. apply Qle_antisym; [|exact Ho0].
    eapply Qle_trans; [exact Ho|]. rewrite E'. apply Qle_refl.
  - apply Qmax_mono; assumption.
Qed.

End Raised.

(** C7.  For a container that holds at least one rectangle, all of them
    from the table: raising rectangle heights (placements and every other
    dimension kept) never lowers [get_minimum_height], and the result is at
    least the height of every occupant, so of the tallest one. *)
Theorem get_minimum_height_monotone_and_floored
  (l l' : list Rectangle.t) (c : Container.t) :
  heights_raised l l' ->
  ids_in_range l c ->
  SCO.has_items c = true ->
  Container.get_minimum_height l c <= Container.get_minimum_height l' c
  /\ (forall p,
        In p (Container.bottom_rectangles c ++ Container.top_rectangles c) ->
        Rectangle.height (rect_at l (fst p))
        <= Container.get_minimum_height l c)
  /\ Container.edge_height l
        (Container.bottom_rectangles c ++ Container.top_rectangles c)
      <= Container.get_minimum_height l c.
Proof.
  intros Hr _ Hi. split; [|split].
  - apply raised_get_minimum_height. exact Hr.
  - intros p Hp. apply get_minimum_height_ge_item. exact Hp.
  - assert (Hne : Container.bottom_rectangles c ++ Container.top_rectangles c
                  <> []).
    { unfold SCO.has_items in Hi.
      destruct (Container.bottom_rectangles c); [|discriminate].
      destruct (Container.top_rectangles c); [discriminate|discriminate]. }
    destruct (edge_height_attained l _ Hne) as (p & Hp & ->).
    apply get_minimum_height_ge_item. exact Hp.
Qed.

Lemma get_minimum_height_monotone_and_floored_witness :
  let l := [Rectangle.mk 5 3 0; Rectangle.mk 5 3 1] in
  let l' := [Rectangle.mk 5 4 0; Rectangle.mk 5 3 1] in
  Container.get_minimum_height l stacked_pair
  <= Container.get_minimum_height l' stacked_pair
  /\ (forall p,
        In p (Container.bottom_rectangles stacked_pair
              ++ Container.top_rectangles stacked_pair) ->
        Rectangle.height (rect_at l (fst p))
        <= Container.get_minimum_height l stacked_pair)
  /\ Container.edge_height l
        (Container.bottom_rectangles stacked_pair
         ++ Container.top_rectangles stacked_pair)
      <= Container.get_minimum_height l stacked_pair.
Proof.
  intros l l'.
  apply (get_minimum_height_monotone_and_floored l l' stacked_pair).
  - repeat constructor; simpl; unfold Qle; simpl; lia.
  - repeat constructor; simpl; discriminate.
  - reflexivity.
Defined.

(** ** Construction and copying *)

Lemma randint_spec (a b : Z) (g : rng) :
  (a <= b)%Z ->
  exists r g', randint a b g = Ok (r, g') /\ (a <= r <= b)%Z.
Proof.
  intro Hab. unfold randint.
  destruct (b <? a)%Z eqn:E; [apply Z.ltb_lt in E; lia|].
  unfold bind, randbelow, bind, draw, ret.
  eexists. eexists. split; [reflexivity|].
  pose proof (Z.mod_pos_bound (raw g (pos g)) (b - a + 1)) as Hm. lia.
Qed.

Lemma randint_empty (a b : Z) (g : rng) :
  (b < a)%Z -> randint a b g = Raise ValueError.
Proof.
  intro H. unfold randint. apply Z.ltb_lt in H. rewrite H. reflexivity.
Qed.

(** A new individual has the identity order and an even height split over
    a drawn number of containers. *)
Lemma Individual_init_spec (rects : list Rectangle.t) (cw mth : Q) (mc : Z)
  (g : rng) :
  (1 <= mc)%Z ->
  exists n g',
    (1 <= n <= mc)%Z
    /\ Individual.init rects cw mth mc g
       = Ok (Individual.mk rects cw mth mc n (range (length rects))
               (repeat (mth / inject_Z n) (Z.to_nat n)) 0 [] 0 0%Z None, g').
Proof.
  intro Hmc. destruct (randint_spec 1 mc g Hmc) as (n & g' & E & Hn).
  exists n, g'. split; [exact Hn|].
  unfold Individual.init, bind. rewrite E. reflexivity.
Qed.

(** [copy] takes everything from the original except the height list and
    the assignment table, which stay those of the freshly built
    individual. *)
Lemma Individual_copy_spec (s : Individual.t) (g : rng) :
  (1 <= Individual.max_containers s)%Z ->
  exists n g',
    (1 <= n <= Individual.max_containers s)%Z
    /\ Individual.copy s g
       = Ok (Individual.mk (Individual.rectangles s)
               (Individual.container_width s) (Individual.max_total_height s)
               (Individual.max_containers s) (Individual.num_containers s)
               (Individual.rectangle_order s)
               (repeat (Individual.max_total_height s / inject_Z n)
                       (Z.to_nat n))
               (Individual.fitness s)
               (map Individual.copy_container (Individual.containers s))
               (Individual.total_height_used s)
               (Individual.rectangles_placed s) None, g').
Proof.
  intro Hmc.
  destruct (Individual_init_spec (Individual.rectangles s)
              (Individual.container_width s) (Individual.max_total_height s)
              (Individual.max_containers s) g Hmc) as (n & g' & Hn & E).
  exists n, g'. split; [exact Hn|].
  unfold Individual.copy, bind. rewrite E. reflexivity.
Qed.

(** C1 (the code departs from it).  [copy] does not carry the height list
    over: on an individual with heights [3; 7] and up to two containers,
    every copy has the even split of a freshly drawn container count,
    [10] or [5; 5], never the original's heights. *)
Theorem copy_loses_container_heights (g : rng) :
  exists c g',
    Individual.copy uneven_individual g = Ok (c, g')
    /\ (Individual.container_heights c = [10 / 1]
        \/ Individual.container_heights c = [10 / 2; 10 / 2])
    /\ ~ Forall2 Qeq (Individual.container_heights c)
                     (Individual.container_heights uneven_individual).
Proof.
  destruct (Individual_copy_spec uneven_individual g) as (n & g' & Hn & E);
    [simpl; lia|].
  simpl in Hn.
  eexists. exists g'. split; [exact E|].
  assert (Hcase : n = 1%Z \/ n = 2%Z) by lia.
  destruct Hcase as [-> | ->]; simpl.
  - split; [left; reflexivity|]. intro F. inversion F as [|? ? ? ? _ F']. inversion F'.
  - split; [right; reflexivity|]. intro F. inversion F as [|? ? ? ? Hq _].
    vm_compute in Hq. discriminate Hq.
Qed.

(** ** The constructor *)

Lemma scenario_c_constructed :
  SCO.init [(5, 3); (5, 3)] 5 10 1 100 500 (2 # 10) (8 # 10) 0.1%float
  = Ok scenario_c.
Proof. vm_compute. reflexivity. Qed.

Lemma scenario_b_constructed :
  SCO.init [(8, 2)] 7 10 1 100 500 (2 # 10) (8 # 10) 0.1%float
  = Ok scenario_b.
Proof. vm_compute. reflexivity. Qed.

(** C3 as stated fails: the constructor accepts [max_containers] 0, it
    accepts a container width of 0, and it accepts an empty rectangle
    list. *)
Lemma init_accepts_invalid_configuration :
  (forall e, SCO.init [(4, 3)] 7 10 0 100 500 (2 # 10) (8 # 10) 0.1%float
             <> Raise e)
  /\ (forall e, SCO.init [(4, 3)] 0 10 1 100 500 (2 # 10) (8 # 10) 0.1%float
                <> Raise e)
  /\ (forall e, SCO.init [] 7 10 1 100 500 (2 # 10) (8 # 10) 0.1%float
                <> Raise e).
Proof. repeat split; intros e H; vm_compute in H; discriminate H. Qed.

Lemma elitism_count_of_raises (population_size : Z) (elitism_rate : float)
  (e : exn) :
  SCO.elitism_count_of population_size elitism_rate = Raise e ->
  e = OverflowError \/ e = ValueError.
Proof.
  unfold SCO.elitism_count_of, to_float, int_of_float.
  destruct (is_infinity _).
  - intro H. injection H as <-. left. reflexivity.
  - destruct (Prim2SF _); intro H; try discriminate H;
      injection H as <-; [left|right]; reflexivity.
Qed.

(** C3, amended.  The constructor validates none of its arguments.  The
    rectangle list, the container width, the height budget and
    [max_containers] play no part in whether it returns: if it returns for
    one choice of them it returns for every other, storing the numbered
    rectangles and the values as given, with an empty population and no
    best individual.  It can only raise from the elitism count,
    [int(population_size * elitism_rate)], with [OverflowError] or
    [ValueError], and then does so whatever the other arguments are.  With
    the default search parameters it accepts every problem (elitism count
    10); with a population size of 10^400 it rejects every problem. *)
Theorem init_validates_nothing
  (rects rects' : list (Q * Q)) (cw mth cw' mth' : Q) (mc mc' : Z)
  (population_size generations : Z) (mutation_rate crossover_rate : Q)
  (elitism_rate : float) :
  (forall o,
      SCO.init rects cw mth mc population_size generations mutation_rate
               crossover_rate elitism_rate = Ok o ->
      SCO.init rects' cw' mth' mc' population_size generations mutation_rate
               crossover_rate elitism_rate
      = Ok (SCO.mk (SCO.number_rectangles 0 rects') cw' mth' mc'
                   population_size generations mutation_rate crossover_rate
                   (SCO.elitism_count o) [] None))
  /\ (forall e,
        SCO.init rects cw mth mc population_size generations mutation_rate
                 crossover_rate elitism_rate = Raise e ->
        (e = OverflowError \/ e = ValueError)
        /\ SCO.init rects' cw' mth' mc' population_size generations
                    mutation_rate crossover_rate elitism_rate = Raise e)
  /\ SCO.init rects cw mth mc 100 500 (2 # 10) (8 # 10) 0.1%float
     = Ok (SCO.mk (SCO.number_rectangles 0 rects) cw mth mc 100 500
                  (2 # 10) (8 # 10) 10 [] None)
  /\ SCO.init rects cw mth mc (10 ^ 400) 500 (2 # 10) (8 # 10) 0.1%float
     = Raise OverflowError.
Proof.
  unfold SCO.init. split; [|split; [|split]].
  - intro o.
    destruct (SCO.elitism_count_of population_size elitism_rate) as [k|e];
      [|discriminate].
    intro H. injection H as <-. reflexivity.
  - intro e.
    destruct (SCO.elitism_count_of population_size elitism_rate) as [k|e0]
      eqn:E; [discriminate|].
    intro H. injection H as <-.
    split; [exact (elitism_count_of_raises _ _ _ E)|reflexivity].
  - assert (E : SCO.elitism_count_of 100 0.1%float = Ok 10%Z)
      by (vm_compute; reflexivity).
    rewrite E. reflexivity.
  - assert (E : SCO.elitism_count_of (10 ^ 400) 0.1%float
                = Raise OverflowError)
      by (vm_compute; reflexivity).
    rewrite E. reflexivity.
Qed.

(** ** The placement loop *)

Section Placement.

Variable self : SCO.t.

Lemma place_in_container_items (c c' : Container.t) (rect : Rectangle.t)
  (rect_idx : Z) :
  SCO.place_in_container self c rect rect_idx = Some c' ->
  item_count [c'] = S (item_count [c]).
Proof.
  unfold SCO.place_in_container.
  destruct (Qlt_bool _ _); [discriminate|].
  destruct (if SCO.can_place_at_bottom self c rect
            then SCO.find_bottom_position self c rect else None).
  - intro H. inversion H; subst. simpl. rewrite length_app. simpl. lia.
  - destruct (if SCO.can_place_at_top self c rect
              then SCO.find_top_position self c rect else None);
      [|discriminate].
    intro H. inversion H; subst. simpl. rewrite length_app. simpl. lia.
Qed.

Lemma place_rectangle_items (rect : Rectangle.t) (rect_idx : Z)
  (cs cs' : list Container.t) (k k' : Z) :
  SCO.place_rectangle self rect rect_idx k cs = Some (cs', k') ->
  item_count cs' = S (item_count cs) /\ length cs' = length cs.
Proof.
  revert cs' k k'. induction cs as [|c cs IH]; intros cs' k k'; simpl.
  - discriminate.
  - destruct (SCO.place_in_container self c rect rect_idx) as [c1|] eqn:E.
    + intro H. inversion H; subst.
      apply place_in_container_items in E. simpl in *. split; lia.
    + destruct (SCO.place_rectangle self rect rect_idx (k + 1) cs)
        as [[rest' k1]|] eqn:E'; [|discriminate].
      intro H. inversion H; subst.
      destruct (IH rest' (k + 1)%Z k' E') as [Hi Hl]. simpl. split; lia.
Qed.

(** [placed_count] grows by exactly the number of items appended. *)
Lemma place_all_items (order : list Z) (cs cs' : list Container.t)
  (n n' : Z) (a a' : list Z) :
  SCO.place_all self order (cs, n, a) = Ok (cs', n', a') ->
  (n' - n = Z.of_nat (item_count cs') - Z.of_nat (item_count cs))%Z
  /\ length cs' = length cs.
Proof.
  revert cs n a. induction order as [|i order IH]; intros cs n a; simpl.
  - intro H. inversion H; subst. split; [lia|reflexivity].
  - destruct (index (SCO.rectangles self) i) as [rect|]; [|discriminate].
    destruct (SCO.place_rectangle self rect i 0 cs) as [[cs1 k]|] eqn:E.
    + destruct (setitem a i k) as [a1|]; [|discriminate].
      intro H. apply IH in H. destruct H as [Hn Hl].
      apply place_rectangle_items in E. destruct E as [Hi Hl1].
      split; lia.
    + destruct (setitem a i (-1)%Z) as [a1|]; [|discriminate].
      apply IH.
Qed.

Lemma initial_containers_empty (individual : Individual.t) :
  item_count (SCO.initial_containers self individual) = 0%nat
  /\ length (SCO.initial_containers self individual)
     = Z.to_nat (Individual.num_containers individual).
Proof.
  unfold SCO.initial_containers. split.
  - induction (seq 0 (Z.to_nat (Individual.num_containers individual)))
      as [|i l IH]; simpl; [reflexivity|exact IH].
  - rewrite length_map, length_seq. reflexivity.
Qed.

Lemma jittered_counts (cs0 cs : list Container.t) :
  Forall2 (jittered self) cs0 cs ->
  item_count cs = item_count cs0 /\ length cs = length cs0.
Proof.
  induction 1 as [|c0 c cs0 cs J _ [IHi IHl]]; simpl; [split; reflexivity|].
  destruct (jittered_items self c0 c J) as (-> & -> & _).
  split; lia.
Qed.

(** The count returned by [pack_rectangles] is the number of items in the
    returned containers, of which there are [num_containers]. *)
Lemma pack_rectangles_counts (individual : Individual.t) (g g' : rng)
  (cs : list Container.t) (n : Z) (a : list Z) :
  SCO.pack_rectangles self individual g = Ok (cs, n, a, g') ->
  n = Z.of_nat (item_count cs)
  /\ length cs = Z.to_nat (Individual.num_containers individual).
Proof.
  intro Hp.
  destruct (pack_rectangles_inv self individual g g' cs n a Hp)
    as (cs0 & Hplace & F).
  unfold SCO.place in Hplace. apply place_all_items in Hplace.
  destruct Hplace as [Hn Hl].
  destruct (initial_containers_empty individual) as [Hi0 Hl0].
  destruct (jittered_counts cs0 cs F) as [Hi Hl'].
  rewrite Hi0 in Hn. split; lia.
Qed.

Lemma place_ext (i1 i2 : Individual.t) :
  Individual.rectangle_order i1 = Individual.rectangle_order i2 ->
  Individual.container_heights i1 = Individual.container_heights i2 ->
  Individual.num_containers i1 = Individual.num_containers i2 ->
  SCO.place self i1 = SCO.place self i2.
Proof.
  intros Ho Hh Hn. unfold SCO.place, SCO.initial_containers.
  rewrite Ho, Hh, Hn. reflexivity.
Qed.

Lemma jittered_same_placement (cs0 cs1 cs2 : list Container.t) :
  Forall2 (jittered self) cs0 cs1 -> Forall2 (jittered self) cs0 cs2 ->
  Forall2 same_placement cs1 cs2.
Proof.
  intro F1. revert cs2.
  induction F1 as [|c0 c1 cs0 cs1 J1 _ IH]; intros cs2 F2;
    inversion F2 as [|? c2 ? cs2' J2 F2']; subst; constructor.
  - destruct (jittered_items self c0 c1 J1) as (Hb1 & Ht1 & Hw1 & Hi1).
    destruct (jittered_items self c0 c2 J2) as (Hb2 & Ht2 & Hw2 & Hi2).
    unfold same_placement. repeat split; congruence.
  - apply IH. exact F2'.
Qed.

End Placement.

(** C8.  On the instance with two rectangles (5,3), width 5, one container
    and a height budget of 10, whichever rectangle is processed first and
    whatever the generator draws, [pack_rectangles] places both: the first
    on the bottom edge, the second on the top edge, the minimum height of
    the container is 6 and it has no clash. *)
Theorem scenario_c_one_bottom_one_top (g : rng) :
  scenario_c_outcome [0; 1]%Z g /\ scenario_c_outcome [1; 0]%Z g.
Proof.
  assert (Hnn : nonneg_heights (SCO.rectangles scenario_c))
    by (repeat constructor; unfold Qle; simpl; lia).
  assert (H : forall first second a0,
             SCO.place scenario_c (scenario_c_individual [first; second])
             = Ok ([Container.mk 5 10 0 [(first, 0)] [(second, 0)]], 2%Z, a0) ->
             Container.get_minimum_height (SCO.rectangles scenario_c)
               (Container.mk 5 10 0 [(first, 0)] [(second, 0)]) = 6 ->
             scenario_c_outcome [first; second] g).
  { intros first second a0 Hplace Hmin.
    destruct (pack_rectangles_returns scenario_c _ g _ _ _ Hplace)
      as (cs & g' & Hpack & F).
    inversion F as [|c0 c ? cs' J F' E0 E1]; subst.
    inversion F'; subst.
    unfold jittered in J. simpl in J. destruct J as (j & Hj0 & Hj1 & ->).
    exists (Container.set_height
              (Container.mk 5 10 0 [(first, 0)] [(second, 0)])
              (Container.get_minimum_height (SCO.rectangles scenario_c)
                 (Container.mk 5 10 0 [(first, 0)] [(second, 0)])
               + j * Container.get_minimum_height (SCO.rectangles scenario_c)
                       (Container.mk 5 10 0 [(first, 0)] [(second, 0)]))),
      a0, g', first, second.
    split; [exact Hpack|].
    repeat split; try reflexivity.
    - rewrite get_minimum_height_set_height. exact Hmin.
    - apply no_clash_when_high_enough; [exact Hnn|].
      rewrite get_minimum_height_set_height. rewrite Hmin. simpl. nra. }
  split.
  - apply (H 0%Z 1%Z [0; 0]%Z); vm_compute; reflexivity.
  - apply (H 1%Z 0%Z [0; 0]%Z); vm_compute; reflexivity.
Qed.

(** C10, amended.  Two runs of [pack_rectangles] on individuals with the
    same rectangle order, the same height list and the same container
    count give the same result under the same generator; under different
    generators the second run returns whenever the first does, with the
    same placed count, the same assignments and the same items at the same
    positions in every container, heights apart. *)
Theorem pack_rectangles_deterministic
  (self : SCO.t) (i1 i2 : Individual.t) (g1 g2 : rng) :
  Individual.rectangle_order i1 = Individual.rectangle_order i2 ->
  Individual.container_heights i1 = Individual.container_heights i2 ->
  Individual.num_containers i1 = Individual.num_containers i2 ->
  SCO.pack_rectangles self i1 g1 = SCO.pack_rectangles self i2 g1
  /\ (forall cs1 n a g1',
        SCO.pack_rectangles self i1 g1 = Ok (cs1, n, a, g1') ->
        exists cs2 g2',
          SCO.pack_rectangles self i2 g2 = Ok (cs2, n, a, g2')
          /\ Forall2 same_placement cs1 cs2).
Proof.
  intros Ho Hh Hn.
  pose proof (place_ext self i1 i2 Ho Hh Hn) as Hplace.
  split.
  - unfold SCO.pack_rectangles. rewrite Hplace. reflexivity.
  - intros cs1 n a g1' Hp.
    destruct (pack_rectangles_inv self i1 g1 g1' cs1 n a Hp)
      as (cs0 & Hp0 & F1).
    rewrite Hplace in Hp0.
    destruct (pack_rectangles_returns self i2 g2 cs0 n a Hp0)
      as (cs2 & g2' & Hp2 & F2).
    exists cs2, g2'. split; [exact Hp2|].
    apply (jittered_same_placement self cs0); assumption.
Qed.

Lemma pack_rectangles_deterministic_witness :
  let i1 := scenario_c_individual [0; 1]%Z in
  let i2 := Individual.set_fitness (scenario_c_individual [0; 1]%Z) 7 in
  SCO.pack_rectangles scenario_c i1 (constant_rng 0)
  = SCO.pack_rectangles scenario_c i2 (constant_rng 0)
  /\ (forall cs1 n a g1',
        SCO.pack_rectangles scenario_c i1 (constant_rng 0)
        = Ok (cs1, n, a, g1') ->
        exists cs2 g2',
          SCO.pack_rectangles scenario_c i2 (constant_rng (2 ^ 52))
          = Ok (cs2, n, a, g2')
          /\ Forall2 same_placement cs1 cs2).
Proof.
  intros i1 i2.
  apply (pack_rectangles_deterministic scenario_c i1 i2
           (constant_rng 0) (constant_rng (2 ^ 52)));
    reflexivity.
Defined.

(** ** The clash penalty *)




Lemma evaluate_fitness_containers (self : SCO.t)
  (individual ind' : Individual.t) (g g' : rng) :
  SCO.evaluate_fitness self individual g = Ok (ind', g') ->
  exists n a,
    SCO.pack_rectangles self individual g
    = Ok (Individual.containers ind', n, a, g').
Proof.
  unfold SCO.evaluate_fitness.
  destruct (SCO.pack_rectangles self individual g)
    as [[[[cs n] a] g1]|e] eqn:Hp.
  - rewrite (bind_Ok _ _ _ _ _ _ _ Hp).
    destruct (n =? 0)%Z.
    + unfold ret. intro H. inversion H; subst. exists n, a. reflexivity.
    + unfold bind, lift.
      destruct (SCO.combined_fitness self _ _ cs n); [|discriminate].
      unfold ret. intro H. inversion H; subst. exists n, a. reflexivity.
  - rewrite (bind_Raise _ _ _ _ _ _ Hp). discriminate.
Qed.

(** ** Reasoning on computations *)

Lemma post_ret (A : Type) (a : A) (P : A -> Prop) : P a -> post (ret a) P.
Proof. intros H g a' g' E. inversion E; subst. exact H. Qed.

Lemma post_raise (A : Type) (e : exn) (P : A -> Prop) : post (raise e) P.
Proof. intros g a g' E. discriminate E. Qed.

Lemma post_bind (A B : Type) (m : M A) (k : A -> M B) (Q : A -> Prop)
  (P : B -> Prop) :
  post m Q -> (forall a, Q a -> post (k a) P) -> post (bind m k) P.
Proof.
  intros Hm Hk g b g' E. unfold bind in E.
  destruct (m g) as [[a g1]|e] eqn:Em; [|discriminate].
  exact (Hk a (Hm g a g1 Em) g1 b g' E).
Qed.

Lemma post_bind_any (A B : Type) (m : M A) (k : A -> M B) (P : B -> Prop) :
  (forall a, post (k a) P) -> post (bind m k) P.
Proof.
  intro Hk. apply (post_bind A B m k (fun _ => True)).
  - intros g a g' _. exact I.
  - intros a _. apply Hk.
Qed.

Lemma post_lift (A : Type) (r : res A) (P : A -> Prop) :
  (forall a, r = Ok a -> P a) -> post (lift r) P.
Proof.
  intros H g a g' E. unfold lift in E.
  destruct r as [a0|e]; [|discriminate].
  inversion E; subst. apply H. reflexivity.
Qed.

Lemma randbelow_post (n : Z) :
  (0 < n)%Z -> post (randbelow n) (fun r => (0 <= r < n)%Z).
Proof.
  intros Hn g r g' E. unfold randbelow, bind, draw, ret in E.
  inversion E; subst. apply Z.mod_pos_bound. exact Hn.
Qed.

Lemma randint_post (a b : Z) : post (randint a b) (fun r => (a <= r <= b)%Z).
Proof.
  unfold randint. destruct (b <? a)%Z eqn:E; [apply post_raise|].
  apply Z.ltb_ge in E.
  apply (post_bind _ _ _ _ (fun r => (0 <= r < b - a + 1)%Z)).
  - apply randbelow_post. lia.
  - intros r Hr. apply post_ret. lia.
Qed.

(** [random.sample(range(n), 2)] gives two distinct positions below [n]. *)
Lemma sample2_post (n : nat) :
  post (sample2 n)
       (fun ij => (fst ij < n)%nat /\ (snd ij < n)%nat /\ fst ij <> snd ij).
Proof.
  unfold sample2. destruct (n <? 2)%nat eqn:E; [apply post_raise|].
  apply Nat.ltb_ge in E.
  apply (post_bind _ _ _ _ (fun r => (0 <= r < Z.of_nat n)%Z)).
  { apply randbelow_post. lia. }
  intros r1 H1.
  apply (post_bind _ _ _ _ (fun r => (0 <= r < Z.of_nat n - 1)%Z)).
  { apply randbelow_post. lia. }
  intros r2 H2. apply post_ret. simpl.
  destruct (Z.to_nat r2 <? Z.to_nat r1)%nat eqn:Elt.
  - apply Nat.ltb_lt in Elt. lia.
  - apply Nat.ltb_ge in Elt. lia.
Qed.

(** ** Swaps, shuffles and slices keep the elements *)

Lemma set_nth_length (A : Type) (l : list A) (k : nat) (v : A) :
  length (set_nth l k v) = length l.
Proof.
  revert k. induction l as [|x l IH]; intros [|k]; simpl; auto.
Qed.

Lemma set_nth_at (A : Type) (l1 l2 : list A) (x v : A) :
  set_nth (l1 ++ x :: l2) (length l1) v = l1 ++ v :: l2.
Proof.
  induction l1 as [|y l1 IH]; simpl; [reflexivity|]. rewrite IH. reflexivity.
Qed.

Lemma set_nth_at_eq (A : Type) (l1 l2 : list A) (x v : A) (k : nat) :
  k = length l1 -> set_nth (l1 ++ x :: l2) k v = l1 ++ v :: l2.
Proof. intros ->. apply set_nth_at. Qed.

Lemma set_nth_perm (A : Type) (l : list A) (k : nat) (v x : A) :
  nth_error l k = Some v -> Permutation (v :: set_nth l k x) (x :: l).
Proof.
  revert k. induction l as [|y l IH]; intros [|k] H; simpl in *;
    try discriminate.
  - inversion H; subst. apply perm_swap.
  - eapply perm_trans; [apply perm_swap|].
    eapply perm_trans; [apply perm_skip; apply (IH k H)|].
    apply perm_swap.
Qed.

Lemma swap_perm (A : Type) (l : list A) (i j : nat) :
  Permutation (swap l i j) l.
Proof.
  revert i j. induction l as [|x l IH]; intros i j.
  - unfold swap. destruct (@nth_error A [] i), (@nth_error A [] j); reflexivity.
  - unfold swap. destruct i as [|i], j as [|j]; simpl.
    + reflexivity.
    + destruct (nth_error l j) as [vj|] eqn:Ej; [|reflexivity].
      apply set_nth_perm. exact Ej.
    + destruct (nth_error l i) as [vi|] eqn:Ei; [|reflexivity].
      apply set_nth_perm. exact Ei.
    + specialize (IH i j). unfold swap in IH.
      destruct (nth_error l i) as [vi|]; [|reflexivity].
      destruct (nth_error l j) as [vj|]; [|reflexivity].
      apply perm_skip. exact IH.
Qed.

Lemma shuffle_from_post (A : Type) (i : nat) (l : list A) :
  post (shuffle_from i l) (fun l' => Permutation l' l).
Proof.
  revert l. induction i as [|i IH]; intro l; simpl.
  - apply post_ret. reflexivity.
  - apply post_bind_any. intro j.
    intros g l' g' E. apply IH in E.
    eapply perm_trans; [exact E|apply swap_perm].
Qed.

Lemma shuffle_post (A : Type) (l : list A) :
  post (shuffle l) (fun l' => Permutation l' l).
Proof. apply shuffle_from_post. Qed.

Lemma slice_parts (A : Type) (l : list A) (a b : nat) :
  (a <= b)%nat -> firstn a l ++ slice l a b ++ skipn b l = l.
Proof.
  intro Hab. unfold slice.
  replace (skipn b l) with (skipn (b - a) (skipn a l)).
  - rewrite firstn_skipn. apply firstn_skipn.
  - rewrite skipn_skipn. f_equal. lia.
Qed.

Lemma slice_assign_perm (A : Type) (l new : list A) (a b : nat) :
  (a <= b)%nat -> Permutation new (slice l a b) ->
  Permutation (slice_assign l a b new) l.
Proof.
  intros Hab Hp. unfold slice_assign.
  rewrite Nat.max_r by exact Hab.
  rewrite <- (slice_parts A l a b Hab) at 3.
  apply Permutation_app_head. apply Permutation_app_tail. exact Hp.
Qed.

(** ** The order crossover *)

Lemma existsb_eqb_In (item : Z) (l : list Z) :
  existsb (Z.eqb item) l = true <-> In item l.
Proof.
  rewrite existsb_exists. split.
  - intros (x & Hx & E). apply Z.eqb_eq in E. subst. exact Hx.
  - intro H. exists item. split; [exact H|apply Z.eqb_refl].
Qed.

Lemma In_repeat_eq (x y : Z) (n : nat) : In x (repeat y n) -> x = y.
Proof. intro H. apply repeat_spec in H. exact H. Qed.

Lemma NoDup_snoc (l : list Z) (x : Z) :
  NoDup l -> ~ In x l -> NoDup (l ++ [x]).
Proof.
  intros Hnd Hx.
  apply (Permutation_NoDup (Permutation_cons_append l x)).
  constructor; assumption.
Qed.

Section OrderCrossover.

Variables (size s e : nat) (seg pb : list Z).
Hypothesis Hse : (s <= e)%nat.
Hypothesis Hes : (e <= size)%nat.
Hypothesis Hsize : (0 < size)%nat.
Hypothesis Hseg_len : length seg = (e - s)%nat.
Hypothesis Hseg_nodup : NoDup seg.
Hypothesis Hseg_incl : incl seg pb.
Hypothesis Hpb_len : length pb = size.
Hypothesis Hpb_nodup : NoDup pb.
Hypothesis Hpb_ids : ~ In (-1)%Z pb.

Lemma ox_layout_length (a b : list Z) :
  ox_ok size s e seg pb a b -> length (ox_layout size s e seg a b) = size.
Proof.
  intros (Ha & Hb & _). unfold ox_layout.
  rewrite !length_app, !repeat_length. lia.
Qed.

Lemma ox_layout_In (a b : list Z) (item : Z) :
  item <> (-1)%Z ->
  (In item (ox_layout size s e seg a b) <-> In item (seg ++ a ++ b)).
Proof.
  intro Hne. unfold ox_layout. rewrite !in_app_iff. split.
  - intros [H|[H|[H|[H|H]]]]; auto.
    + apply In_repeat_eq in H. contradiction.
    + apply In_repeat_eq in H. contradiction.
  - intros [H|[H|H]]; auto.
Qed.

Lemma ox_room (a b : list Z) (item : Z) :
  ox_ok size s e seg pb a b -> In item pb -> ~ In item (seg ++ a ++ b) ->
  (length seg + length a + length b + 1 <= size)%nat.
Proof.
  intros (_ & _ & _ & Hnd & Hincl) Hin Hnot.
  assert (Hnd' : NoDup (item :: seg ++ a ++ b)) by (constructor; assumption).
  assert (Hincl' : incl (item :: seg ++ a ++ b) pb).
  { intros x [<-|Hx]; [exact Hin|].
    apply in_app_or in Hx. destruct Hx as [Hx|Hx]; [apply Hseg_incl|apply Hincl];
      exact Hx. }
  pose proof (NoDup_incl_length Hnd' Hincl') as Hlen.
  simpl in Hlen. rewrite !length_app in Hlen. lia.
Qed.

(** One write of the loop: the slot at [pointer % size] is free and the
    shape is kept. *)
Lemma ox_write (a b : list Z) (item : Z) :
  ox_ok size s e seg pb a b -> In item pb -> ~ In item (seg ++ a ++ b) ->
  exists a' b',
    ox_ok size s e seg pb a' b'
    /\ set_nth (ox_layout size s e seg a b)
               ((e + length a + length b) mod size) item
       = ox_layout size s e seg a' b'
    /\ (e + length a' + length b' = S (e + length a + length b))%nat
    /\ (forall x, In x (seg ++ a' ++ b') <-> x = item \/ In x (seg ++ a ++ b)).
Proof.
  intros Hok Hin Hnot.
  pose proof (ox_room a b item Hok Hin Hnot) as Hroom.
  destruct Hok as (Ha & Hb & Hab & Hnd & Hincl).
  destruct (Nat.lt_ge_cases (length a) (size - e)) as [Hlt|Hge].
  - (* still writing after the segment *)
    assert (Hb0 : b = []) by (apply Hab; exact Hlt). subst b.
    exists (a ++ [item]), []. simpl length. rewrite !app_nil_r in *.
    split; [|split; [|split]].
    + unfold ox_ok. simpl. rewrite length_app. simpl.
      rewrite app_nil_r.
      split; [lia|]. split; [lia|]. split; [reflexivity|]. split.
      * rewrite app_assoc. apply NoDup_snoc; assumption.
      * intros x Hx. apply in_app_or in Hx.
        destruct Hx as [Hx|[<-|[]]]; [apply Hincl; exact Hx|exact Hin].
    + rewrite Nat.add_0_r. rewrite Nat.mod_small by lia.
      assert (E1 : ox_layout size s e seg a []
                   = (repeat (-1)%Z s ++ seg ++ a)
                     ++ (-1)%Z :: repeat (-1)%Z (size - e - S (length a))).
      { unfold ox_layout. simpl. rewrite Nat.sub_0_r.
        replace (size - e - length a)%nat
          with (S (size - e - S (length a))) by lia.
        simpl. rewrite <- !app_assoc. reflexivity. }
      rewrite E1.
      rewrite set_nth_at_eq by (rewrite !length_app, repeat_length; lia).
      unfold ox_layout. simpl. rewrite Nat.sub_0_r, length_app. simpl.
      rewrite <- !app_assoc. simpl.
      replace (length a + 1)%nat with (S (length a)) by lia.
      reflexivity.
    + rewrite length_app. simpl. lia.
    + intro x. rewrite !in_app_iff. simpl. intuition congruence.
  - (* wrapped around: writing from position 0 *)
    exists a, (b ++ [item]).
    rewrite length_app in *. simpl length in *.
    split; [|split; [|split]].
    + unfold ox_ok. rewrite length_app. simpl.
      split; [lia|]. split; [lia|]. split; [lia|]. split.
      * rewrite !app_assoc. apply NoDup_snoc; rewrite <- app_assoc;
          assumption.
      * intros x Hx. rewrite app_assoc in Hx. apply in_app_or in Hx.
        destruct Hx as [Hx|[<-|[]]]; [apply Hincl; exact Hx|exact Hin].
    + replace (e + length a + length b)%nat with (length b + 1 * size)%nat
        by lia.
      rewrite Nat.Div0.mod_add. rewrite Nat.mod_small by lia.
      assert (E1 : ox_layout size s e seg a b
                   = b ++ (-1)%Z
                       :: (repeat (-1)%Z (s - S (length b)) ++ seg ++ a
                           ++ repeat (-1)%Z (size - e - length a))).
      { unfold ox_layout.
        replace (s - length b)%nat with (S (s - S (length b))) by lia.
        reflexivity. }
      rewrite E1. rewrite set_nth_at.
      unfold ox_layout. rewrite length_app. simpl.
      replace (length b + 1)%nat with (S (length b)) by lia.
      rewrite <- app_assoc. reflexivity.
    + lia.
    + intro x. rewrite !in_app_iff. simpl. intuition congruence.
Qed.

Lemma pb_item_not_sentinel (item : Z) : In item pb -> item <> (-1)%Z.
Proof. intros Hin ->. exact (Hpb_ids Hin). Qed.

(** The filling loop never raises, keeps the shape, and leaves every item
    it was given in the child. *)
Lemma ox_fill_spec (items a b : list Z) :
  ox_ok size s e seg pb a b -> incl items pb ->
  exists a' b',
    ox_ok size s e seg pb a' b'
    /\ SCO.ox_fill size items (ox_layout size s e seg a b)
               (e + length a + length b)
       = Ok (ox_layout size s e seg a' b')
    /\ (forall x, In x items \/ In x (seg ++ a ++ b) ->
                  In x (seg ++ a' ++ b')).
Proof.
  revert a b. induction items as [|item items IH]; intros a b Hok Hincl.
  - exists a, b. split; [exact Hok|]. split; [reflexivity|].
    intros x [[]|Hx]. exact Hx.
  - assert (Hin : In item pb) by (apply Hincl; left; reflexivity).
    assert (Hincl' : incl items pb)
      by (intros x Hx; apply Hincl; right; exact Hx).
    pose proof (pb_item_not_sentinel item Hin) as Hne.
    simpl.
    destruct (existsb (Z.eqb item) (ox_layout size s e seg a b)) eqn:Ex.
    + apply existsb_eqb_In in Ex. apply (ox_layout_In a b item Hne) in Ex.
      destruct (IH a b Hok Hincl') as (a' & b' & Hok' & Hfill & Hall).
      exists a', b'. split; [exact Hok'|]. split; [exact Hfill|].
      intros x [[<-|Hx]|Hx]; apply Hall; auto.
    + assert (Hnot : ~ In item (seg ++ a ++ b)).
      { intro H. apply (ox_layout_In a b item Hne) in H.
        apply existsb_eqb_In in H. congruence. }
      destruct (ox_write a b item Hok Hin Hnot)
        as (a1 & b1 & Hok1 & Hset & Hptr & Hmem).
      rewrite (ox_layout_length a b Hok).
      assert (Hmod : ((e + length a + length b) mod size <? size)%nat = true).
      { apply Nat.ltb_lt. apply Nat.mod_upper_bound. lia. }
      rewrite Hmod, Hset, <- Hptr.
      destruct (IH a1 b1 Hok1 Hincl') as (a' & b' & Hok' & Hfill & Hall).
      exists a', b'. split; [exact Hok'|]. split; [exact Hfill|].
      intros x [[<-|Hx]|Hx]; apply Hall; auto.
      * right. apply Hmem. left. reflexivity.
      * right. apply Hmem. right. exact Hx.
Qed.

(** Started on the segment alone and given every item of [pb], the loop
    returns a permutation of [pb]. *)
Lemma ox_fill_permutation (items : list Z) :
  incl items pb -> incl pb items ->
  exists child,
    SCO.ox_fill size items (ox_layout size s e seg [] []) e = Ok child
    /\ Permutation child pb.
Proof.
  intros Hincl Hcover.
  assert (Hok0 : ox_ok size s e seg pb [] []).
  { unfold ox_ok. simpl. rewrite app_nil_r.
    split; [lia|]. split; [lia|]. split; [reflexivity|].
    split; [exact Hseg_nodup|]. intros x []. }
  destruct (ox_fill_spec items [] [] Hok0 Hincl)
    as (a & b & Hok & Hfill & Hall).
  simpl in Hfill. rewrite !Nat.add_0_r in Hfill.
  exists (ox_layout size s e seg a b). split; [exact Hfill|].
  pose proof Hok as (Ha & Hb & _ & Hnd & Hab).
  assert (Hperm : Permutation (seg ++ a ++ b) pb).
  { apply NoDup_Permutation; [exact Hnd|exact Hpb_nodup|].
    intro x. split.
    - intro Hx. apply in_app_or in Hx.
      destruct Hx as [Hx|Hx]; [apply Hseg_incl|apply Hab]; exact Hx.
    - intro Hx. apply Hall. left. apply Hcover. exact Hx. }
  pose proof (Permutation_length Hperm) as Hlen.
  rewrite !length_app in Hlen.
  unfold ox_layout.
  replace (s - length b)%nat with 0%nat by lia.
  replace (size - e - length a)%nat with 0%nat by lia.
  simpl. rewrite app_nil_r.
  eapply perm_trans; [apply Permutation_app_comm|].
  rewrite <- app_assoc. exact Hperm.
Qed.

End OrderCrossover.

Lemma firstn_repeat (x : Z) (k n : nat) :
  (k <= n)%nat -> firstn k (repeat x n) = repeat x k.
Proof.
  revert n. induction k as [|k IH]; intros [|n] H; simpl;
    try reflexivity; try lia.
  rewrite IH by lia. reflexivity.
Qed.

Lemma skipn_repeat (x : Z) (k n : nat) :
  skipn k (repeat x n) = repeat x (n - k).
Proof.
  revert n. induction k as [|k IH]; intros [|n]; simpl; try reflexivity.
  apply IH.
Qed.

Lemma range_NoDup (n : nat) : NoDup (range n).
Proof.
  unfold range. apply Injective_map_NoDup; [|apply seq_NoDup].
  intros x y H. apply Nat2Z.inj. exact H.
Qed.

Lemma range_nonneg (n : nat) (x : Z) : In x (range n) -> (0 <= x)%Z.
Proof.
  unfold range. intro H. apply in_map_iff in H.
  destruct H as (k & <- & _). lia.
Qed.

Lemma valid_order_length (n : nat) (o : list Z) :
  valid_order n o -> length o = n.
Proof.
  intro H. apply Permutation_length in H. rewrite H.
  unfold range. rewrite length_map, length_seq. reflexivity.
Qed.

(** One child of the order crossover is a permutation again. *)
Lemma order_crossover_valid (n : nat) (pa pb : list Z) (s e : nat) :
  valid_order n pa -> valid_order n pb -> (s <= e)%nat -> (e < n)%nat ->
  exists child,
    SCO.order_crossover n pa pb s e = Ok child /\ valid_order n child.
Proof.
  intros Hpa Hpb Hse Hen.
  pose proof (valid_order_length n pa Hpa) as Hla.
  pose proof (valid_order_length n pb Hpb) as Hlb.
  assert (Hnda : NoDup pa).
  { apply (Permutation_NoDup (Permutation_sym Hpa)). apply range_NoDup. }
  assert (Hndb : NoDup pb).
  { apply (Permutation_NoDup (Permutation_sym Hpb)). apply range_NoDup. }
  assert (Hab : Permutation pa pb).
  { eapply perm_trans; [exact Hpa|apply Permutation_sym; exact Hpb]. }
  pose proof (slice_parts Z pa s e Hse) as Hparts.
  assert (Hseg_nd : NoDup (slice pa s e)).
  { rewrite <- Hparts in Hnda.
    apply NoDup_app_remove_l in Hnda. apply NoDup_app_remove_r in Hnda.
    exact Hnda. }
  assert (Hseg_incl : incl (slice pa s e) pb).
  { intros x Hx. apply (Permutation_in x Hab). rewrite <- Hparts.
    apply in_or_app. right. apply in_or_app. left. exact Hx. }
  assert (Hseg_len : length (slice pa s e) = (e - s)%nat).
  { unfold slice. rewrite length_firstn, length_skipn. lia. }
  assert (Hids : ~ In (-1)%Z pb).
  { intro H. apply (Permutation_in _ Hpb) in H.
    apply range_nonneg in H. lia. }
  assert (Hitems : incl (skipn e pb ++ firstn e pb) pb
                   /\ incl pb (skipn e pb ++ firstn e pb)).
  { split; intros x Hx.
    - rewrite <- (firstn_skipn e pb). apply in_app_or in Hx.
      apply in_or_app. tauto.
    - rewrite <- (firstn_skipn e pb) in Hx. apply in_app_or in Hx.
      apply in_or_app. tauto. }
  destruct Hitems as [Hi1 Hi2].
  destruct (ox_fill_permutation n s e (slice pa s e) pb Hse
              (Nat.lt_le_incl _ _ Hen) ltac:(lia) Hseg_len Hseg_nd Hseg_incl
              Hlb Hndb Hids _ Hi1 Hi2) as (child & Hfill & Hperm).
  exists child. split.
  - unfold SCO.order_crossover, slice_assign.
    rewrite Nat.max_r by exact Hse.
    rewrite firstn_repeat by lia. rewrite skipn_repeat.
    unfold ox_layout in Hfill. simpl in Hfill.
    rewrite !Nat.sub_0_r in Hfill. exact Hfill.
  - unfold valid_order. eapply perm_trans; [exact Hperm|exact Hpb].
Qed.

(** ** The order through initialisation, crossover and mutation *)

Lemma post_weaken (A : Type) (m : M A) (P Q : A -> Prop) :
  post m P -> (forall a, P a -> Q a) -> post m Q.
Proof. intros Hm HPQ g a g' E. apply HPQ. exact (Hm g a g' E). Qed.

Lemma Individual_init_post (rects : list Rectangle.t) (cw mth : Q) (mc : Z) :
  post (Individual.init rects cw mth mc)
       (fun i => Individual.rectangle_order i = range (length rects)).
Proof.
  unfold Individual.init. apply post_bind_any. intro k.
  apply post_ret. reflexivity.
Qed.

Lemma initialize_random_post (s : Individual.t) :
  post (Individual.initialize_random s)
       (fun i => Permutation (Individual.rectangle_order i)
                             (Individual.rectangle_order s)).
Proof.
  unfold Individual.initialize_random.
  apply (post_bind _ _ _ _ _ _ (shuffle_post Z (Individual.rectangle_order s))).
  intros o Ho. apply post_ret. exact Ho.
Qed.

Lemma copy_post (s : Individual.t) :
  post (Individual.copy s)
       (fun i => Individual.rectangle_order i = Individual.rectangle_order s).
Proof.
  unfold Individual.copy. apply post_bind_any. intro k.
  apply post_ret. reflexivity.
Qed.

Section Operators.

Variable self : SCO.t.
Variable n : nat.

Lemma crossover_post (p1 p2 : Individual.t) :
  valid_individual n p1 -> valid_individual n p2 ->
  post (SCO.crossover self p1 p2)
       (fun cc => valid_individual n (fst cc) /\ valid_individual n (snd cc)).
Proof.
  intros H1 H2. unfold SCO.crossover.
  apply post_bind_any. intro r.
  destruct (Qlt_bool (SCO.crossover_rate self) r).
  - apply (post_bind _ _ _ _ _ _ (copy_post p1)). intros c1 Hc1.
    apply (post_bind _ _ _ _ _ _ (copy_post p2)). intros c2 Hc2.
    apply post_ret. unfold valid_individual. simpl. rewrite Hc1, Hc2.
    split; assumption.
  - apply post_bind_any. intro child1.
    apply post_bind_any. intro child2.
    apply post_bind_any. intro r'.
    apply post_bind_any. intro hs.
    rewrite (valid_order_length n _ H1).
    apply (post_bind _ _ _ _ _ _ (sample2_post n)).
    intros ij (Hi & Hj & Hij).
    assert (Hse : (Nat.min (fst ij) (snd ij) <= Nat.max (fst ij) (snd ij))%nat)
      by lia.
    assert (Hen : (Nat.max (fst ij) (snd ij) < n)%nat) by lia.
    destruct (order_crossover_valid n _ _ _ _ H1 H2 Hse Hen)
      as (o1 & E1 & V1).
    destruct (order_crossover_valid n _ _ _ _ H2 H1 Hse Hen)
      as (o2 & E2 & V2).
    rewrite E1, E2.
    intros g a g' E. unfold lift, bind, ret in E. inversion E; subst.
    unfold valid_individual. simpl. split; assumption.
Qed.

Lemma mutate_containers_post (i : Individual.t) :
  valid_individual n i -> post (SCO.mutate_containers self i) (valid_individual n).
Proof.
  intro H. unfold SCO.mutate_containers.
  apply post_bind_any. intro k. apply post_ret. exact H.
Qed.

Lemma mutate_heights_post (i : Individual.t) :
  valid_individual n i -> post (SCO.mutate_heights self i) (valid_individual n).
Proof.
  intro H. unfold SCO.mutate_heights.
  destruct (Individual.container_heights i) as [|h hs];
    [apply post_ret; exact H|].
  apply post_bind_any. intro idx. apply post_bind_any. intro delta.
  destruct (Qlt_bool _ _); [|apply post_ret; exact H].
  destruct (Qeq_bool _ _); [apply post_raise|apply post_ret; exact H].
Qed.

Lemma mutate_order_post (i : Individual.t) :
  valid_individual n i -> post (SCO.mutate_order i) (valid_individual n).
Proof.
  intro H. unfold SCO.mutate_order.
  destruct (1 <? _)%nat; [|apply post_ret; exact H].
  apply post_bind_any. intro ij. apply post_ret.
  unfold valid_individual, valid_order. simpl.
  eapply perm_trans; [apply swap_perm|exact H].
Qed.

Lemma mutate_adjust_post (i : Individual.t) :
  valid_individual n i -> post (SCO.mutate_adjust self i) (valid_individual n).
Proof.
  intro H. unfold SCO.mutate_adjust.
  destruct (0 <? _)%Z; [|apply post_ret; exact H].
  apply post_bind_any. intro hs. apply post_ret. exact H.
Qed.

Lemma mutate_random_heights_post (i : Individual.t) :
  valid_individual n i -> post (SCO.mutate_random_heights self i) (valid_individual n).
Proof.
  intro H. unfold SCO.mutate_random_heights.
  destruct (0 <? _)%Z; [|apply post_ret; exact H].
  apply post_bind_any. intro hs. apply post_ret. exact H.
Qed.

Lemma mutate_shuffle_post (i : Individual.t) :
  valid_individual n i -> post (SCO.mutate_shuffle i) (valid_individual n).
Proof.
  intro H. unfold SCO.mutate_shuffle.
  destruct (2 <? _)%nat; [|apply post_ret; exact H].
  apply (post_bind _ _ _ _ _ _ (randint_post _ _)). intros size Hsize.
  apply (post_bind _ _ _ _ _ _ (randint_post _ _)). intros start Hstart.
  apply (post_bind _ _ _ _ _ _ (shuffle_post Z _)). intros sub Hsub.
  apply post_ret. unfold valid_individual, valid_order. simpl.
  eapply perm_trans; [|exact H].
  apply slice_assign_perm; [lia|exact Hsub].
Qed.

Lemma apply_mutation_post (mutation_type : string) (i : Individual.t) :
  valid_individual n i -> post (SCO.apply_mutation self mutation_type i) (valid_individual n).
Proof.
  intro H. unfold SCO.apply_mutation.
  destruct (String.eqb _ _); [apply mutate_containers_post; exact H|].
  destruct (String.eqb _ _); [apply mutate_heights_post; exact H|].
  destruct (String.eqb _ _); [apply mutate_order_post; exact H|].
  destruct (String.eqb _ _); [apply mutate_adjust_post; exact H|].
  destruct (String.eqb _ _); [apply mutate_shuffle_post; exact H|].
  destruct (String.eqb _ _); [apply mutate_random_heights_post; exact H|].
  apply post_ret. exact H.
Qed.

Lemma mutate_post (i : Individual.t) :
  valid_individual n i -> post (SCO.mutate self i) (valid_individual n).
Proof.
  intro H. unfold SCO.mutate.
  apply post_bind_any. intro r.
  destruct (Qlt_bool _ _); [|apply post_ret; exact H].
  apply post_bind_any. intro mt. apply apply_mutation_post. exact H.
Qed.

End Operators.

(** C4.  An order that is a permutation of [0 .. n-1] is one again after
    [initialize_random], in both children of [crossover] (copied or
    recombined, at any cut points), and after every mutation operator and
    [mutate] itself; a freshly built and shuffled individual has one. *)
Theorem rectangle_order_stays_a_permutation
  (self : SCO.t) (n : nat) (p1 p2 : Individual.t) :
  valid_order n (Individual.rectangle_order p1) ->
  valid_order n (Individual.rectangle_order p2) ->
  post (Individual.initialize_random p1)
       (fun i => valid_order n (Individual.rectangle_order i))
  /\ post (SCO.crossover self p1 p2)
          (fun cc => valid_order n (Individual.rectangle_order (fst cc))
                     /\ valid_order n (Individual.rectangle_order (snd cc)))
  /\ (forall mutation_type,
        In mutation_type SCO.mutation_types ->
        post (SCO.apply_mutation self mutation_type p1)
             (fun i => valid_order n (Individual.rectangle_order i)))
  /\ post (SCO.mutate self p1)
          (fun i => valid_order n (Individual.rectangle_order i))
  /\ (forall rects cw mth mc,
        post (i <- Individual.init rects cw mth mc ;;
              Individual.initialize_random i)
             (fun i => valid_order (length rects)
                                   (Individual.rectangle_order i))).
Proof.
  intros H1 H2. split; [|split; [|split; [|split]]].
  - apply (post_weaken _ _ _ _ (initialize_random_post p1)).
    intros i Hi. unfold valid_order. eapply perm_trans; [exact Hi|exact H1].
  - apply crossover_post; assumption.
  - intros mt _. apply apply_mutation_post. exact H1.
  - apply mutate_post. exact H1.
  - intros rects cw mth mc.
    apply (post_bind _ _ _ _ _ _ (Individual_init_post rects cw mth mc)).
    intros i Hi.
    apply (post_weaken _ _ _ _ (initialize_random_post i)).
    intros i' Hi'. unfold valid_order. rewrite <- Hi. exact Hi'.
Qed.

Lemma rectangle_order_stays_a_permutation_witness :
  let p1 := scenario_c_individual [0; 1]%Z in
  let p2 := scenario_c_individual [1; 0]%Z in
  post (Individual.initialize_random p1)
       (fun i => valid_order 2 (Individual.rectangle_order i))
  /\ post (SCO.crossover scenario_c p1 p2)
          (fun cc => valid_order 2 (Individual.rectangle_order (fst cc))
                     /\ valid_order 2 (Individual.rectangle_order (snd cc)))
  /\ (forall mutation_type,
        In mutation_type SCO.mutation_types ->
        post (SCO.apply_mutation scenario_c mutation_type p1)
             (fun i => valid_order 2 (Individual.rectangle_order i)))
  /\ post (SCO.mutate scenario_c p1)
          (fun i => valid_order 2 (Individual.rectangle_order i))
  /\ (forall rects cw mth mc,
        post (i <- Individual.init rects cw mth mc ;;
              Individual.initialize_random i)
             (fun i => valid_order (length rects)
                                   (Individual.rectangle_order i))).
Proof.
  intros p1 p2.
  apply (rectangle_order_stays_a_permutation scenario_c 2 p1 p2).
  - apply Permutation_refl.
  - apply perm_swap.
Defined.

(** The recombining branch of [crossover] does return: on the worked
    instance with every raw draw 0 the cut is [0, 1) and the children keep
    their parents' first rectangle. *)
Lemma crossover_recombines_on_instance :
  exists c1 c2 g',
    SCO.crossover scenario_c (scenario_c_individual [0; 1]%Z)
                  (scenario_c_individual [1; 0]%Z) (constant_rng 0)
    = Ok (c1, c2, g')
    /\ Individual.rectangle_order c1 = [0; 1]%Z
    /\ Individual.rectangle_order c2 = [1; 0]%Z
    /\ pos g' = 7%nat.
Proof.
  eexists. eexists. eexists. split; [vm_compute; reflexivity|].
  repeat split.
Qed.

(** ** [pack_rectangles] returns on every order over the table *)

Lemma index_setitem (A B : Type) (l : list A) (l' : list B) (i : Z) (r : A)
  (v : B) :
  length l' = length l -> index l i = Some r ->
  exists l'', setitem l' i v = Some l'' /\ length l'' = length l.
Proof.
  intros Hlen Hi. unfold index in Hi. unfold setitem. rewrite Hlen.
  destruct (0 <=? i)%Z eqn:E0.
  - apply Z.leb_le in E0.
    assert (Hlt : (Z.to_nat i < length l)%nat)
      by (apply nth_error_Some; congruence).
    assert (E1 : (i <? Z.of_nat (length l))%Z = true)
      by (apply Z.ltb_lt; lia).
    rewrite E1. eexists. split; [reflexivity|].
    rewrite set_nth_length. exact Hlen.
  - destruct (- Z.of_nat (length l) <=? i)%Z; [|discriminate].
    eexists. split; [reflexivity|]. rewrite set_nth_length. exact Hlen.
Qed.

Lemma place_all_returns (self : SCO.t) (order : list Z)
  (cs : list Container.t) (n : Z) (a : list Z) :
  Forall (fun i => index (SCO.rectangles self) i <> None) order ->
  length a = length (SCO.rectangles self) ->
  exists st, SCO.place_all self order (cs, n, a) = Ok st.
Proof.
  intro Hall. revert cs n a.
  induction Hall as [|i order Hi _ IH]; intros cs n a Hlen; simpl.
  - eexists. reflexivity.
  - destruct (index (SCO.rectangles self) i) as [rect|] eqn:E; [|congruence].
    destruct (SCO.place_rectangle self rect i 0 cs) as [[cs1 k]|].
    + destruct (index_setitem _ _ _ a i rect k Hlen E) as (a1 & -> & Hl1).
      apply IH. exact Hl1.
    + destruct (index_setitem _ _ _ a i rect (-1)%Z Hlen E) as (a1 & -> & Hl1).
      apply IH. exact Hl1.
Qed.

Lemma pack_rectangles_returns_on_table_order (self : SCO.t)
  (individual : Individual.t) (g : rng) :
  Forall (fun i => index (SCO.rectangles self) i <> None)
         (Individual.rectangle_order individual) ->
  exists cs n a g',
    SCO.pack_rectangles self individual g = Ok (cs, n, a, g').
Proof.
  intro Hall.
  destruct (place_all_returns self _ (SCO.initial_containers self individual)
              0%Z (repeat (-1)%Z (length (SCO.rectangles self))) Hall
              (repeat_length _ _)) as ([[cs0 n] a] & Hplace).
  destruct (pack_rectangles_returns self individual g cs0 n a Hplace)
    as (cs & g' & Hp & _).
  exists cs, n, a, g'. exact Hp.
Qed.

(** ** Containers returned by [pack_rectangles] hold ids of the table *)

Section TableIds.

Variable self : SCO.t.

Lemma place_in_container_ids (c c' : Container.t) (rect : Rectangle.t)
  (rect_idx : Z) :
  ids_in_range (SCO.rectangles self) c ->
  index (SCO.rectangles self) rect_idx <> None ->
  SCO.place_in_container self c rect rect_idx = Some c' ->
  ids_in_range (SCO.rectangles self) c'.
Proof.
  unfold ids_in_range, SCO.place_in_container. intros Hc Hi.
  apply Forall_app in Hc. destruct Hc as [Hb Ht].
  destruct (Qlt_bool _ _); [discriminate|].
  destruct (if SCO.can_place_at_bottom self c rect
            then SCO.find_bottom_position self c rect else None).
  - intro H. inversion H; subst. simpl.
    apply Forall_app. split; [|exact Ht].
    apply Forall_app. split; [exact Hb|]. constructor; [exact Hi|constructor].
  - destruct (if SCO.can_place_at_top self c rect
              then SCO.find_top_position self c rect else None);
      [|discriminate].
    intro H. inversion H; subst. simpl.
    apply Forall_app. split; [exact Hb|].
    apply Forall_app. split; [exact Ht|]. constructor; [exact Hi|constructor].
Qed.

Lemma place_rectangle_ids (rect : Rectangle.t) (rect_idx : Z)
  (cs cs' : list Container.t) (k k' : Z) :
  Forall (ids_in_range (SCO.rectangles self)) cs ->
  index (SCO.rectangles self) rect_idx <> None ->
  SCO.place_rectangle self rect rect_idx k cs = Some (cs', k') ->
  Forall (ids_in_range (SCO.rectangles self)) cs'.
Proof.
  intros Hcs Hi. revert cs' k k'.
  induction Hcs as [|c cs Hc Hcs IH]; intros cs' k k'; simpl.
  - discriminate.
  - destruct (SCO.place_in_container self c rect rect_idx) as [c1|] eqn:E.
    + intro H. inversion H; subst. constructor; [|exact Hcs].
      exact (place_in_container_ids c c1 rect rect_idx Hc Hi E).
    + destruct (SCO.place_rectangle self rect rect_idx (k + 1) cs)
        as [[rest' k1]|] eqn:E'; [|discriminate].
      intro H. inversion H; subst. constructor; [exact Hc|].
      exact (IH rest' (k + 1)%Z k' E').
Qed.

Lemma place_all_ids (order : list Z) (cs cs' : list Container.t)
  (n n' : Z) (a a' : list Z) :
  Forall (ids_in_range (SCO.rectangles self)) cs ->
  SCO.place_all self order (cs, n, a) = Ok (cs', n', a') ->
  Forall (ids_in_range (SCO.rectangles self)) cs'.
Proof.
  revert cs n a. induction order as [|i order IH]; intros cs n a Hcs; simpl.
  - intro H. inversion H; subst. exact Hcs.
  - destruct (index (SCO.rectangles self) i) as [rect|] eqn:Ei;
      [|discriminate].
    destruct (SCO.place_rectangle self rect i 0 cs) as [[cs1 k]|] eqn:E.
    + destruct (setitem a i k) as [a1|]; [|discriminate].
      apply IH. apply (place_rectangle_ids rect i cs cs1 0%Z k Hcs); [|exact E].
      congruence.
    + destruct (setitem a i (-1)%Z) as [a1|]; [|discriminate].
      apply IH. exact Hcs.
Qed.

(** The default of [rect_at] is never read on a container that
    [pack_rectangles] returned. *)
Lemma pack_rectangles_ids_in_range (individual : Individual.t) (g g' : rng)
  (cs : list Container.t) (n : Z) (a : list Z) :
  SCO.pack_rectangles self individual g = Ok (cs, n, a, g') ->
  Forall (ids_in_range (SCO.rectangles self)) cs.
Proof.
  intro Hp.
  destruct (pack_rectangles_inv self individual g g' cs n a Hp)
    as (cs0 & Hplace & F).
  assert (H0 : Forall (ids_in_range (SCO.rectangles self)) cs0).
  { unfold SCO.place in Hplace. apply place_all_ids in Hplace; [exact Hplace|].
    unfold SCO.initial_containers. apply Forall_forall. intros c Hc.
    apply in_map_iff in Hc. destruct Hc as (i & <- & _). constructor. }
  clear Hp Hplace.
  induction F as [|c0 c cs0 cs J F IH]; [constructor|].
  inversion H0 as [|? ? Hc0 Hcs0]; subst.
  constructor; [|apply IH; exact Hcs0].
  unfold ids_in_range in *.
  destruct (jittered_items self c0 c J) as (-> & -> & _). exact Hc0.
Qed.

End TableIds.

(** * Further properties of the placement engine *)

(** ** The sort of the occupied ranges *)

Lemma pair_lt_le (p q : Q * Q) : pair_lt p q = true -> fst p <= fst q.
Proof.
  unfold pair_lt. intro H. apply orb_true_iff in H. destruct H as [H|H].
  - apply Qlt_bool_true in H. apply Qlt_le_weak. exact H.
  - apply andb_true_iff in H. destruct H as [H _].
    apply Qeq_bool_iff in H. rewrite H. apply Qle_refl.
Qed.

Lemma pair_lt_false_le (p q : Q * Q) : pair_lt p q = false -> fst q <= fst p.
Proof.
  unfold pair_lt. intro H. apply orb_false_iff in H. destruct H as [H _].
  unfold Qlt_bool in H. apply negb_false_iff in H.
  apply Qle_bool_iff in H. exact H.
Qed.

Lemma insert_sorted_In (p x : Q * Q) (l : list (Q * Q)) :
  In x (insert_sorted p l) <-> x = p \/ In x l.
Proof.
  induction l as [|q l IH]; simpl.
  - intuition congruence.
  - destruct (pair_lt p q); simpl; [intuition congruence|].
    rewrite IH. intuition congruence.
Qed.

Lemma insert_sorted_ascending (p : Q * Q) (l : list (Q * Q)) :
  starts_ascending l -> starts_ascending (insert_sorted p l).
Proof.
  unfold starts_ascending.
  induction 1 as [|q l Hq Hl IH]; simpl.
  - constructor; constructor.
  - destruct (pair_lt p q) eqn:E.
    + constructor; [|constructor; assumption].
      apply pair_lt_le in E. constructor; [exact E|].
      rewrite Forall_forall in *. intros x Hx.
      eapply Qle_trans; [exact E|apply Hq; exact Hx].
    + constructor; [|exact IH].
      apply pair_lt_false_le in E.
      rewrite Forall_forall in *. intros x Hx.
      apply insert_sorted_In in Hx. destruct Hx as [->|Hx];
        [exact E|apply Hq; exact Hx].
Qed.

Lemma sort_from_spec (l acc : list (Q * Q)) :
  starts_ascending acc ->
  starts_ascending (fold_left (fun a p => insert_sorted p a) l acc)
  /\ (forall x, In x (fold_left (fun a p => insert_sorted p a) l acc)
                <-> In x l \/ In x acc).
Proof.
  revert acc. induction l as [|p l IH]; intros acc Hacc; simpl.
  - split; [exact Hacc|]. intro x. tauto.
  - destruct (IH (insert_sorted p acc) (insert_sorted_ascending p acc Hacc))
      as [Hs Hin].
    split; [exact Hs|]. intro x. rewrite Hin, insert_sorted_In.
    intuition congruence.
Qed.

(** [list.sort()] orders the ranges by start and keeps their elements. *)
Lemma sort_spec (l : list (Q * Q)) :
  starts_ascending (sort l) /\ (forall x, In x (sort l) <-> In x l).
Proof.
  destruct (sort_from_spec l [] (FOP_nil _)) as [Hs Hin].
  split; [exact Hs|]. intro x. unfold sort. rewrite Hin. simpl. tauto.
Qed.

(** ** The position searches *)

Section Positions.

Variable self : SCO.t.
Hypothesis Hwidths : nonneg_widths (SCO.rectangles self).

Lemma rect_at_width_nonneg (i : Z) :
  0 <= Rectangle.width (rect_at (SCO.rectangles self) i).
Proof.
  unfold rect_at.
  destruct (index (SCO.rectangles self) i) as [r|] eqn:E; simpl;
    [|apply Qle_refl].
  unfold nonneg_widths in Hwidths. rewrite Forall_forall in Hwidths.
  apply Hwidths. eapply index_In. exact E.
Qed.

(** A position the overlap test accepts is disjoint from every item of
    the edge. *)
Lemma overlaps_with_false (items : list (Z * Q)) (rect : Rectangle.t)
  (rect_idx : Z) (x : Q) :
  rect_at (SCO.rectangles self) rect_idx = rect ->
  SCO.overlaps_with self items rect x = false ->
  Forall (fun q => x_disjoint (SCO.rectangles self) q (rect_idx, x)) items.
Proof.
  intros Hrect H. unfold SCO.overlaps_with in H.
  apply Forall_forall. intros q Hq.
  destruct (negb (Qle_bool (x + Rectangle.width rect) (snd q)
                  || Qle_bool (snd q + Rectangle.width
                                 (rect_at (SCO.rectangles self) (fst q))) x))
    eqn:E.
  - exfalso. assert (Hex : existsb
      (fun p => negb (Qle_bool (x + Rectangle.width rect) (snd p)
                      || Qle_bool (snd p + Rectangle.width
                                     (rect_at (SCO.rectangles self) (fst p)))
                                  x)) items = true).
    { apply existsb_exists. exists q. split; [exact Hq|exact E]. }
    congruence.
  - apply negb_false_iff in E. apply orb_true_iff in E.
    unfold x_disjoint. simpl. rewrite Hrect.
    destruct E as [E|E]; apply Qle_bool_iff in E; [right|left]; exact E.
Qed.

Lemma align_scan_spec (cw : Q) (rect : Rectangle.t) (overlaps : Q -> bool)
  (opposite : list (Z * Q)) (x : Q) :
  Forall (fun p : Z * Q => 0 <= snd p) opposite ->
  SCO.align_scan self cw rect overlaps opposite = Some x ->
  0 <= x /\ x + Rectangle.width rect <= cw /\ overlaps x = false.
Proof.
  induction 1 as [|[other_id other_x] rest Hp Hrest IH]; simpl;
    [discriminate|].
  simpl in Hp.
  destruct (Qle_bool (other_x + Rectangle.width rect) cw
            && negb (overlaps other_x)) eqn:E1.
  - intro H. inversion H; subst.
    apply andb_true_iff in E1. destruct E1 as [Ha Hb].
    apply Qle_bool_iff in Ha. apply negb_true_iff in Hb. auto.
  - destruct (Qle_bool 0 _ && Qle_bool _ cw && negb (overlaps _)) eqn:E2;
      [|exact IH].
    intro H. inversion H; subst.
    apply andb_true_iff in E2. destruct E2 as [E2 Hc].
    apply andb_true_iff in E2. destruct E2 as [Ha Hb].
    apply Qle_bool_iff in Ha. apply Qle_bool_iff in Hb.
    apply negb_true_iff in Hc. auto.
Qed.

(** The first-fit scan returns a position not before its starting point,
    ending before the container's end or before the start of a range, and
    clear of every range. *)
Lemma gap_scan_spec (cw : Q) (rect : Rectangle.t) (ranges : list (Q * Q))
  (current_x x : Q) :
  starts_ascending ranges ->
  SCO.gap_scan cw rect ranges current_x = Some x ->
  current_x <= x
  /\ (x + Rectangle.width rect <= cw
      \/ exists r, In r ranges /\ x + Rectangle.width rect <= fst r)
  /\ Forall (fun r : Q * Q =>
               x + Rectangle.width rect <= fst r \/ snd r <= x) ranges.
Proof.
  intro Hs. revert current_x.
  induction Hs as [|[start_x end_x] rest Hhd Hrest IH]; intro current_x;
    simpl.
  - destruct (Qle_bool (current_x + Rectangle.width rect) cw) eqn:E;
      [|discriminate].
    intro H. inversion H; subst. apply Qle_bool_iff in E.
    split; [apply Qle_refl|]. split; [left; exact E|constructor].
  - destruct (Qle_bool (current_x + Rectangle.width rect) start_x) eqn:E.
    + intro H. inversion H; subst. apply Qle_bool_iff in E.
      split; [apply Qle_refl|]. split.
      * right. exists (start_x, end_x). split; [left; reflexivity|exact E].
      * constructor; [left; exact E|].
        rewrite Forall_forall in *. intros r Hr. left.
        eapply Qle_trans; [exact E|]. apply (Hhd r Hr).
    + intro H. destruct (IH _ H) as (Hge & Hend & Hall).
      assert (Hcur : current_x <= x)
        by (eapply Qle_trans; [apply Qmax_ge_l|exact Hge]).
      assert (Hendx : end_x <= x)
        by (eapply Qle_trans; [apply Qmax_ge_r|exact Hge]).
      split; [exact Hcur|]. split.
      * destruct Hend as [Hend|(r & Hr & Hend)]; [left; exact Hend|].
        right. exists r. split; [right; exact Hr|exact Hend].
      * constructor; [right; exact Hendx|exact Hall].
Qed.

(** Shared by both position searches: a returned position is inside the
    container and clear of the items already on the edge. *)
Lemma position_spec (cw : Q) (rect : Rectangle.t) (rect_idx : Z)
  (same opposite : list (Z * Q)) (x : Q) :
  rect_at (SCO.rectangles self) rect_idx = rect ->
  Forall (in_bounds (SCO.rectangles self) cw) same ->
  Forall (in_bounds (SCO.rectangles self) cw) opposite ->
  match SCO.align_scan self cw rect (SCO.overlaps_with self same rect)
          opposite with
  | Some x' => Some x'
  | None => SCO.gap_scan cw rect (sort (SCO.occupied_ranges self same)) 0
  end = Some x ->
  in_bounds (SCO.rectangles self) cw (rect_idx, x)
  /\ Forall (fun q => x_disjoint (SCO.rectangles self) q (rect_idx, x)) same.
Proof.
  intros Hrect Hsame Hopp.
  destruct (SCO.align_scan self cw rect (SCO.overlaps_with self same rect)
              opposite) as [x'|] eqn:Ea.
  - intro H. injection H as Hx. subst x'.
    assert (Hpos : Forall (fun p : Z * Q => 0 <= snd p) opposite).
    { rewrite Forall_forall in *. intros p Hp. apply (Hopp p Hp). }
    destruct (align_scan_spec _ _ _ _ _ Hpos Ea) as (H0 & H1 & H2).
    split.
    + unfold in_bounds. simpl. rewrite Hrect. split; assumption.
    + apply (overlaps_with_false same rect rect_idx x Hrect H2).
  - intro Hg.
    destruct (sort_spec (SCO.occupied_ranges self same)) as [Hs Hin].
    destruct (gap_scan_spec cw rect _ 0 x Hs Hg) as (H0 & Hend & Hall).
    assert (Hitem : forall q, In q same ->
              In (snd q, snd q + Rectangle.width
                                   (rect_at (SCO.rectangles self) (fst q)))
                 (sort (SCO.occupied_ranges self same))).
    { intros q Hq. apply Hin. unfold SCO.occupied_ranges.
      apply (in_map (fun p => (snd p, snd p + Rectangle.width
                                 (rect_at (SCO.rectangles self) (fst p))))).
      exact Hq. }
    split.
    + unfold in_bounds. simpl. rewrite Hrect. split; [exact H0|].
      destruct Hend as [Hend|(r & Hr & Hend)]; [exact Hend|].
      apply Hin in Hr. unfold SCO.occupied_ranges in Hr.
      apply in_map_iff in Hr. destruct Hr as (q & <- & Hq).
      rewrite Forall_forall in Hsame. destruct (Hsame q Hq) as [_ Hqb].
      pose proof (rect_at_width_nonneg (fst q)) as Hw.
      simpl in Hend. lra.
    + apply Forall_forall. intros q Hq.
      rewrite Forall_forall in Hall. specialize (Hall _ (Hitem q Hq)).
      unfold x_disjoint. simpl in *. rewrite Hrect.
      destruct Hall as [Hall|Hall]; [right|left]; exact Hall.
Qed.

Lemma ordpairs_snoc (A : Type) (R : A -> A -> Prop) (l : list A) (p : A) :
  ForallOrdPairs R l -> Forall (fun q => R q p) l ->
  ForallOrdPairs R (l ++ [p]).
Proof.
  induction 1 as [|a l Ha Hl IH]; intro Hp; simpl.
  - constructor; constructor.
  - inversion Hp as [|? ? Hap Hlp]; subst.
    constructor; [|apply IH; exact Hlp].
    apply Forall_app. split; [exact Ha|]. constructor; [exact Hap|constructor].
Qed.

Lemma edge_ok_snoc (cw : Q) (items : list (Z * Q)) (p : Z * Q) :
  edge_ok (SCO.rectangles self) cw items ->
  in_bounds (SCO.rectangles self) cw p ->
  Forall (fun q => x_disjoint (SCO.rectangles self) q p) items ->
  edge_ok (SCO.rectangles self) cw (items ++ [p]).
Proof.
  intros [Hb Hd] Hp Hdis. split.
  - apply Forall_app. split; [exact Hb|]. constructor; [exact Hp|constructor].
  - apply ordpairs_snoc; assumption.
Qed.

Lemma place_in_container_well_placed (c c' : Container.t)
  (rect : Rectangle.t) (rect_idx : Z) :
  rect_at (SCO.rectangles self) rect_idx = rect ->
  well_placed (SCO.rectangles self) c ->
  SCO.place_in_container self c rect rect_idx = Some c' ->
  well_placed (SCO.rectangles self) c' /\ Container.width c' = Container.width c.
Proof.
  intros Hrect [[Hbb Hbd] [Htb Htd]]. unfold SCO.place_in_container.
  destruct (Qlt_bool _ _); [discriminate|].
  destruct (if SCO.can_place_at_bottom self c rect
            then SCO.find_bottom_position self c rect else None)
    as [x|] eqn:Eb.
  - intro H. injection H as <-.
    destruct (SCO.can_place_at_bottom self c rect); [|discriminate].
    unfold SCO.find_bottom_position in Eb.
    destruct (negb (SCO.can_place_at_bottom self c rect)); [discriminate|].
    destruct (position_spec _ _ _ _ _ _ Hrect Hbb Htb Eb) as [Hin Hdis].
    split; [|reflexivity]. split; simpl.
    + apply edge_ok_snoc; [split| |]; assumption.
    + split; assumption.
  - clear Eb.
    destruct (if SCO.can_place_at_top self c rect
              then SCO.find_top_position self c rect else None)
      as [x|] eqn:Et; [|discriminate].
    intro H. injection H as <-.
    destruct (SCO.can_place_at_top self c rect); [|discriminate].
    unfold SCO.find_top_position in Et.
    destruct (negb (SCO.can_place_at_top self c rect)); [discriminate|].
    destruct (position_spec _ _ _ _ _ _ Hrect Htb Hbb Et) as [Hin Hdis].
    split; [|reflexivity]. split; simpl.
    + split; assumption.
    + apply edge_ok_snoc; [split| |]; assumption.
Qed.

Lemma place_rectangle_well_placed (rect : Rectangle.t) (rect_idx : Z)
  (cs cs' : list Container.t) (k k' : Z) :
  rect_at (SCO.rectangles self) rect_idx = rect ->
  Forall (well_placed (SCO.rectangles self)) cs ->
  SCO.place_rectangle self rect rect_idx k cs = Some (cs', k') ->
  Forall (well_placed (SCO.rectangles self)) cs'.
Proof.
  intros Hrect Hcs. revert cs' k k'.
  induction Hcs as [|c cs Hc Hcs IH]; intros cs' k k'; simpl.
  - discriminate.
  - destruct (SCO.place_in_container self c rect rect_idx) as [c1|] eqn:E.
    + intro H. injection H as Hcs' Hk. subst cs'. constructor; [|exact Hcs].
      exact (proj1 (place_in_container_well_placed c c1 rect rect_idx
                      Hrect Hc E)).
    + destruct (SCO.place_rectangle self rect rect_idx (k + 1) cs)
        as [[rest' k1]|] eqn:E'; [|discriminate].
      intro H. injection H as Hcs' Hk. subst cs' k1.
      constructor; [exact Hc|].
      exact (IH rest' (k + 1)%Z k' E').
Qed.

Lemma place_all_well_placed (order : list Z) (cs cs' : list Container.t)
  (n n' : Z) (a a' : list Z) :
  Forall (well_placed (SCO.rectangles self)) cs ->
  SCO.place_all self order (cs, n, a) = Ok (cs', n', a') ->
  Forall (well_placed (SCO.rectangles self)) cs'.
Proof.
  revert cs n a. induction order as [|i order IH]; intros cs n a Hcs; simpl.
  - intro H. injection H as Hcs' _ _. subst cs'. exact Hcs.
  - destruct (index (SCO.rectangles self) i) as [rect|] eqn:Ei;
      [|discriminate].
    assert (Hrect : rect_at (SCO.rectangles self) i = rect)
      by (unfold rect_at; rewrite Ei; reflexivity).
    destruct (SCO.place_rectangle self rect i 0 cs) as [[cs1 k]|] eqn:E.
    + destruct (setitem a i k) as [a1|]; [|discriminate].
      apply IH.
      exact (place_rectangle_well_placed rect i cs cs1 0%Z k Hrect Hcs E).
    + destruct (setitem a i (-1)%Z) as [a1|]; [|discriminate].
      apply IH. exact Hcs.
Qed.

End Positions.

(** X1.  With rectangle widths that are not negative, every container
    returned by [pack_rectangles] is well placed: each item starts at
    x >= 0 and ends within the container width, and no two items of the
    same edge overlap in X. *)
Theorem pack_rectangles_well_placed
  (self : SCO.t) (individual : Individual.t) (g g' : rng)
  (cs : list Container.t) (n : Z) (a : list Z) :
  nonneg_widths (SCO.rectangles self) ->
  SCO.pack_rectangles self individual g = Ok (cs, n, a, g') ->
  Forall (well_placed (SCO.rectangles self)) cs.
Proof.
  intros Hw Hp.
  destruct (pack_rectangles_inv self individual g g' cs n a Hp)
    as (cs0 & Hplace & F).
  assert (H0 : Forall (well_placed (SCO.rectangles self)) cs0).
  { unfold SCO.place in Hplace.
    apply (place_all_well_placed self Hw) in Hplace; [exact Hplace|].
    unfold SCO.initial_containers. apply Forall_forall. intros c Hc.
    apply in_map_iff in Hc. destruct Hc as (i & <- & _).
    repeat split; constructor. }
  clear Hp Hplace.
  induction F as [|c0 c cs0 cs J F IH]; [constructor|].
  inversion H0 as [|? ? Hc0 Hcs0]; subst.
  constructor; [|apply IH; exact Hcs0].
  unfold well_placed in *.
  destruct (jittered_items self c0 c J) as (-> & -> & -> & _). exact Hc0.
Qed.

Lemma pack_rectangles_well_placed_witness :
  Forall (well_placed (SCO.rectangles scenario_c)) scenario_c_packed.
Proof.
  apply (pack_rectangles_well_placed
           scenario_c (scenario_c_individual [0; 1]%Z)
           (constant_rng 0) (mkRng (fun _ => 0%Z) 1)
           scenario_c_packed 2%Z [0; 0]%Z).
  - repeat constructor; unfold Qle; simpl; lia.
  - vm_compute. reflexivity.
Defined.

(** ** Bounds on [get_minimum_height] *)

Lemma overlap_inner_le (rects : list Rectangle.t) (b : Z * Q)
  (tops : list (Z * Q)) (acc bound : Q) :
  acc <= bound ->
  (forall t, In t tops ->
     Rectangle.height (rect_at rects (fst b))
     + Rectangle.height (rect_at rects (fst t)) <= bound) ->
  overlap_inner rects b tops acc <= bound.
Proof.
  unfold overlap_inner. revert acc.
  induction tops as [|t tops IH]; intros acc Hacc Hall; simpl.
  - exact Hacc.
  - apply IH; [|intros t' Ht'; apply Hall; right; exact Ht'].
    destruct (Container.x_overlap rects b t); [|exact Hacc].
    apply Q.max_lub; [exact Hacc|]. apply Hall. left. reflexivity.
Qed.

Lemma overlap_outer_le (rects : list Rectangle.t)
  (bottoms tops : list (Z * Q)) (acc bound : Q) :
  acc <= bound ->
  (forall b t, In b bottoms -> In t tops ->
     Rectangle.height (rect_at rects (fst b))
     + Rectangle.height (rect_at rects (fst t)) <= bound) ->
  overlap_outer rects bottoms tops acc <= bound.
Proof.
  unfold overlap_outer. revert acc.
  induction bottoms as [|b bottoms IH]; intros acc Hacc Hall; simpl.
  - exact Hacc.
  - apply IH; [|intros b' t Hb' Ht; apply Hall; [right; exact Hb'|exact Ht]].
    apply overlap_inner_le; [exact Hacc|].
    intros t Ht. apply Hall; [left; reflexivity|exact Ht].
Qed.

(** The minimum height against the two edge heights. *)
Lemma get_minimum_height_bounds
  (rects : list Rectangle.t) (c : Container.t) :
  nonneg_heights rects ->
  Qmax (Container.get_bottom_height rects c) (Container.get_top_height rects c)
  <= Container.get_minimum_height rects c
  /\ Container.get_minimum_height rects c
     <= Container.get_bottom_height rects c + Container.get_top_height rects c.
Proof.
  intro Hnn.
  unfold Container.get_minimum_height, Container.get_bottom_height,
    Container.get_top_height.
  pose proof (edge_height_nonneg rects (Container.bottom_rectangles c) Hnn)
    as Hb0.
  pose proof (edge_height_nonneg rects (Container.top_rectangles c) Hnn)
    as Ht0.
  pose proof (edge_height_le_app rects (Container.bottom_rectangles c)
                (Container.top_rectangles c) (Container.bottom_rectangles c))
    as Hbl.
  pose proof (edge_height_le_app rects (Container.bottom_rectangles c)
                (Container.top_rectangles c) (Container.top_rectangles c))
    as Htl.
  pose proof (edge_height_attained rects
                (Container.bottom_rectangles c ++ Container.top_rectangles c))
    as Hatt.
  pose proof (overlap_outer_le rects (Container.bottom_rectangles c)
                (Container.top_rectangles c) 0
                (Container.edge_height rects (Container.bottom_rectangles c)
                 + Container.edge_height rects (Container.top_rectangles c)))
    as Hov.
  pose proof (edge_height_ge rects (Container.bottom_rectangles c)) as Hbge.
  pose proof (edge_height_ge rects (Container.top_rectangles c)) as Htge.
  destruct (Container.bottom_rectangles c) as [|b0 bs] eqn:Eb.
  { split; [apply Q.max_lub|]; lra. }
  destruct (Container.top_rectangles c) as [|t0 ts] eqn:Et.
  { split; [apply Q.max_lub|]; lra. }
  rewrite overlap_height_unfold.
  assert (Hbl' : Container.edge_height rects (b0 :: bs)
                 <= Container.edge_height rects ((b0 :: bs) ++ t0 :: ts)).
  { apply Hbl; [discriminate|]. intros x Hx. apply in_or_app. left. exact Hx. }
  assert (Htl' : Container.edge_height rects (t0 :: ts)
                 <= Container.edge_height rects ((b0 :: bs) ++ t0 :: ts)).
  { apply Htl; [discriminate|]. intros x Hx. apply in_or_app. right. exact Hx. }
  assert (Htall : Container.edge_height rects ((b0 :: bs) ++ t0 :: ts)
                  <= Container.edge_height rects (b0 :: bs)
                     + Container.edge_height rects (t0 :: ts)).
  { destruct Hatt as (p & Hp & ->); [discriminate|].
    apply in_app_or in Hp. destruct Hp as [Hp|Hp].
    - specialize (Hbge p Hp). lra.
    - specialize (Htge p Hp). lra. }
  assert (Hov' : overlap_outer rects (b0 :: bs) (t0 :: ts) 0
                 <= Container.edge_height rects (b0 :: bs)
                    + Container.edge_height rects (t0 :: ts)).
  { apply Hov; [lra|].
    intros b t Hb Ht. specialize (Hbge b Hb). specialize (Htge t Ht). lra. }
  split.
  - eapply Qle_trans; [|apply Qmax_ge_r]. apply Q.max_lub; assumption.
  - apply Q.max_lub; [|exact Htall].
    destruct (Qeq_bool _ 0); [|exact Hov'].
    apply Q.max_lub; lra.
Qed.

(** X2.  With rectangle heights that are not negative, the minimum height
    of a container lies between the larger of its two edge heights and
    their sum. *)
Theorem get_minimum_height_between_max_and_sum
  (rects : list Rectangle.t) (c : Container.t) :
  nonneg_heights rects ->
  Qmax (Container.get_bottom_height rects c) (Container.get_top_height rects c)
  <= Container.get_minimum_height rects c
  /\ Container.get_minimum_height rects c
     <= Container.get_bottom_height rects c + Container.get_top_height rects c.
Proof. exact (get_minimum_height_bounds rects c). Qed.

Lemma get_minimum_height_between_max_and_sum_witness :
  Qmax (Container.get_bottom_height (SCO.rectangles scenario_c) stacked_pair)
       (Container.get_top_height (SCO.rectangles scenario_c) stacked_pair)
  <= Container.get_minimum_height (SCO.rectangles scenario_c) stacked_pair
  /\ Container.get_minimum_height (SCO.rectangles scenario_c) stacked_pair
     <= Container.get_bottom_height (SCO.rectangles scenario_c) stacked_pair
        + Container.get_top_height (SCO.rectangles scenario_c) stacked_pair.
Proof.
  apply (get_minimum_height_between_max_and_sum
           (SCO.rectangles scenario_c) stacked_pair).
  repeat constructor; unfold Qle; simpl; lia.
Defined.

(** ** What [pack_rectangles] places, and when it raises *)

Section PlacedIds.

Variable self : SCO.t.

Lemma place_in_container_ids_perm (c c' : Container.t) (rect : Rectangle.t)
  (rect_idx : Z) :
  SCO.place_in_container self c rect rect_idx = Some c' ->
  Permutation (item_ids [c']) (rect_idx :: item_ids [c]).
Proof.
  unfold SCO.place_in_container, item_ids.
  destruct (Qlt_bool _ _); [discriminate|].
  destruct (if SCO.can_place_at_bottom self c rect
            then SCO.find_bottom_position self c rect else None).
  - intro H. injection H as <-. simpl. rewrite !app_nil_r, map_app. simpl.
    rewrite <- app_assoc. simpl.
    apply Permutation_sym. apply Permutation_middle.
  - destruct (if SCO.can_place_at_top self c rect
              then SCO.find_top_position self c rect else None);
      [|discriminate].
    intro H. injection H as <-. simpl. rewrite !app_nil_r, map_app. simpl.
    rewrite app_assoc.
    apply Permutation_sym. apply Permutation_cons_append.
Qed.

Lemma place_rectangle_ids_perm (rect : Rectangle.t) (rect_idx : Z)
  (cs cs' : list Container.t) (k k' : Z) :
  SCO.place_rectangle self rect rect_idx k cs = Some (cs', k') ->
  Permutation (item_ids cs') (rect_idx :: item_ids cs).
Proof.
  revert cs' k k'. induction cs as [|c cs IH]; intros cs' k k'; simpl.
  - discriminate.
  - destruct (SCO.place_in_container self c rect rect_idx) as [c1|] eqn:E.
    + intro H. injection H as <- _.
      apply place_in_container_ids_perm in E.
      unfold item_ids in *. simpl in *. rewrite !app_nil_r in E.
      change (rect_idx
              :: (map fst (Container.bottom_rectangles c)
                  ++ map fst (Container.top_rectangles c))
                 ++ flat_map
                      (fun c0 => map fst (Container.bottom_rectangles c0)
                                 ++ map fst (Container.top_rectangles c0)) cs)
        with ((rect_idx
               :: map fst (Container.bottom_rectangles c)
                  ++ map fst (Container.top_rectangles c))
              ++ flat_map
                   (fun c0 => map fst (Container.bottom_rectangles c0)
                              ++ map fst (Container.top_rectangles c0)) cs).
      apply Permutation_app_tail. exact E.
    + destruct (SCO.place_rectangle self rect rect_idx (k + 1) cs)
        as [[rest' k1]|] eqn:E'; [|discriminate].
      intro H. injection H as <- _.
      specialize (IH rest' (k + 1)%Z k1 E').
      unfold item_ids in *. simpl.
      eapply perm_trans; [apply Permutation_app_head; exact IH|].
      apply Permutation_sym. apply Permutation_middle.
Qed.

(** The ids in the containers, with the ids that found no place, are the
    ids the loop was given. *)
Lemma place_all_ids_perm (order : list Z) (cs cs' : list Container.t)
  (n n' : Z) (a a' : list Z) :
  SCO.place_all self order (cs, n, a) = Ok (cs', n', a') ->
  exists unplaced,
    Permutation (item_ids cs' ++ unplaced) (item_ids cs ++ order).
Proof.
  revert cs n a. induction order as [|i order IH]; intros cs n a; simpl.
  - intro H. injection H as <- _ _. exists []. reflexivity.
  - destruct (index (SCO.rectangles self) i) as [rect|]; [|discriminate].
    destruct (SCO.place_rectangle self rect i 0 cs) as [[cs1 k]|] eqn:E.
    + destruct (setitem a i k) as [a1|]; [|discriminate].
      intro H. destruct (IH _ _ _ H) as (u & Hu).
      exists u. eapply perm_trans; [exact Hu|].
      apply place_rectangle_ids_perm in E.
      eapply perm_trans; [apply Permutation_app_tail; exact E|].
      simpl. apply Permutation_middle.
    + destruct (setitem a i (-1)%Z) as [a1|]; [|discriminate].
      intro H. destruct (IH _ _ _ H) as (u & Hu).
      exists (i :: u).
      eapply perm_trans; [apply Permutation_sym; apply Permutation_middle|].
      eapply perm_trans; [apply perm_skip; exact Hu|].
      apply Permutation_middle.
Qed.

Lemma item_ids_length (cs : list Container.t) :
  length (item_ids cs) = item_count cs.
Proof.
  unfold item_ids. induction cs as [|c cs IH]; simpl; [reflexivity|].
  rewrite !length_app, !length_map, IH. lia.
Qed.

Lemma jittered_item_ids (cs0 cs : list Container.t) :
  Forall2 (jittered self) cs0 cs -> item_ids cs = item_ids cs0.
Proof.
  unfold item_ids. induction 1 as [|c0 c cs0 cs J _ IH]; simpl;
    [reflexivity|].
  destruct (jittered_items self c0 c J) as (-> & -> & _).
  rewrite IH. reflexivity.
Qed.

Lemma place_all_raise (order : list Z) (st : SCO.pack_state) (e : exn) :
  SCO.place_all self order st = Raise e -> e = IndexError.
Proof.
  revert st. induction order as [|i order IH]; intros [[cs n] a]; simpl.
  - discriminate.
  - destruct (index (SCO.rectangles self) i) as [rect|];
      [|intro H; injection H as <-; reflexivity].
    destruct (SCO.place_rectangle self rect i 0 cs) as [[cs1 k]|].
    + destruct (setitem a i k) as [a1|];
        [apply IH|intro H; injection H as <-; reflexivity].
    + destruct (setitem a i (-1)%Z) as [a1|];
        [apply IH|intro H; injection H as <-; reflexivity].
Qed.

Lemma place_all_ok_table (order : list Z) (st st' : SCO.pack_state) :
  SCO.place_all self order st = Ok st' ->
  Forall (fun i => index (SCO.rectangles self) i <> None) order.
Proof.
  revert st. induction order as [|i order IH]; intros [[cs n] a]; simpl.
  - constructor.
  - destruct (index (SCO.rectangles self) i) as [rect|] eqn:Ei;
      [|discriminate].
    assert (Hi : index (SCO.rectangles self) i <> None) by congruence.
    destruct (SCO.place_rectangle self rect i 0 cs) as [[cs1 k]|].
    + destruct (setitem a i k) as [a1|]; [|discriminate].
      intro H. constructor; [exact Hi|exact (IH _ H)].
    + destruct (setitem a i (-1)%Z) as [a1|]; [|discriminate].
      intro H. constructor; [exact Hi|exact (IH _ H)].
Qed.

End PlacedIds.

(** X3.  [pack_rectangles] returns exactly when every id of the order
    indexes the rectangle table; otherwise it raises [IndexError], and it
    raises nothing else. *)
Theorem pack_rectangles_raises_iff_id_outside_table
  (self : SCO.t) (individual : Individual.t) (g : rng) :
  (Forall (fun i => index (SCO.rectangles self) i <> None)
          (Individual.rectangle_order individual) <->
   exists cs n a g',
     SCO.pack_rectangles self individual g = Ok (cs, n, a, g'))
  /\ (Exists (fun i => index (SCO.rectangles self) i = None)
             (Individual.rectangle_order individual) <->
      SCO.pack_rectangles self individual g = Raise IndexError)
  /\ (forall e, SCO.pack_rectangles self individual g = Raise e ->
                e = IndexError).
Proof.
  assert (Hraise : forall e,
            SCO.pack_rectangles self individual g = Raise e ->
            e = IndexError
            /\ ~ Forall (fun i => index (SCO.rectangles self) i <> None)
                        (Individual.rectangle_order individual)).
  { intros e H. split.
    - unfold SCO.pack_rectangles in H.
      destruct (SCO.place self individual) as [[[cs0 n0] a0]|e0] eqn:Ep.
      + destruct (pack_rectangles_returns self individual g cs0 n0 a0 Ep)
          as (cs & g' & Hp & _).
        unfold SCO.pack_rectangles in Hp. rewrite Ep in Hp. congruence.
      + unfold bind, lift in H. injection H as <-.
        exact (place_all_raise self _ _ _ Ep).
    - intro Hall.
      destruct (pack_rectangles_returns_on_table_order self individual g Hall)
        as (cs & n & a & g' & Hp).
      congruence. }
  assert (Hok : forall cs n a g',
            SCO.pack_rectangles self individual g = Ok (cs, n, a, g') ->
            Forall (fun i => index (SCO.rectangles self) i <> None)
                   (Individual.rectangle_order individual)).
  { intros cs n a g' Hp.
    destruct (pack_rectangles_inv self individual g g' cs n a Hp)
      as (cs0 & Hplace & _).
    exact (place_all_ok_table self _ _ _ Hplace). }
  split; [|split].
  - split.
    + apply pack_rectangles_returns_on_table_order.
    + intros (cs & n & a & g' & Hp). exact (Hok cs n a g' Hp).
  - split.
    + intro Hex.
      destruct (SCO.pack_rectangles self individual g)
        as [[[[cs n] a] g']|e] eqn:Hp.
      * exfalso. specialize (Hok cs n a g' eq_refl).
        apply Exists_exists in Hex. destruct Hex as (i & Hi & Hnone).
        rewrite Forall_forall in Hok. exact (Hok i Hi Hnone).
      * destruct (Hraise e eq_refl) as [-> _]. reflexivity.
    + intro Hp. destruct (Hraise IndexError Hp) as [_ Hnot].
      apply neg_Forall_Exists_neg in Hnot.
      * apply Exists_exists in Hnot. destruct Hnot as (i & Hi & Hn).
        apply Exists_exists. exists i. split; [exact Hi|].
        destruct (index (SCO.rectangles self) i); [|reflexivity].
        exfalso. apply Hn. discriminate.
      * intro i. destruct (index (SCO.rectangles self) i);
          [left; discriminate|right; intro H; apply H; reflexivity].
  - intros e H. exact (proj1 (Hraise e H)).
Qed.

(** X4.  The ids in the containers [pack_rectangles] returns, together
    with those that found no place, are a rearrangement of the order, and
    the placed count is their number; so on an order without repetition no
    rectangle is placed twice, and at most as many are placed as the order
    has entries. *)
Theorem pack_rectangles_places_each_once
  (self : SCO.t) (individual : Individual.t) (g g' : rng)
  (cs : list Container.t) (n : Z) (a : list Z) :
  SCO.pack_rectangles self individual g = Ok (cs, n, a, g') ->
  (exists unplaced,
      Permutation (item_ids cs ++ unplaced)
                  (Individual.rectangle_order individual))
  /\ n = Z.of_nat (length (item_ids cs))
  /\ (0 <= n <= Z.of_nat (length (Individual.rectangle_order individual)))%Z
  /\ (NoDup (Individual.rectangle_order individual) -> NoDup (item_ids cs)).
Proof.
  intro Hp.
  destruct (pack_rectangles_counts self individual g g' cs n a Hp) as [Hn _].
  destruct (pack_rectangles_inv self individual g g' cs n a Hp)
    as (cs0 & Hplace & F).
  unfold SCO.place in Hplace.
  apply place_all_ids_perm in Hplace. destruct Hplace as (u & Hu).
  rewrite <- (jittered_item_ids self cs0 cs F) in Hu.
  assert (Hinit : item_ids (SCO.initial_containers self individual) = []).
  { unfold item_ids, SCO.initial_containers.
    induction (seq 0 (Z.to_nat (Individual.num_containers individual)))
      as [|i l IH]; simpl; [reflexivity|exact IH]. }
  rewrite Hinit in Hu. simpl in Hu.
  split; [exists u; exact Hu|].
  split; [rewrite item_ids_length; exact Hn|]. split.
  - apply Permutation_length in Hu. rewrite length_app in Hu.
    rewrite <- item_ids_length in Hn. lia.
  - intro Hnd. apply (Permutation_NoDup (Permutation_sym Hu)) in Hnd.
    apply NoDup_app_remove_r in Hnd. exact Hnd.
Qed.

Lemma pack_rectangles_places_each_once_witness :
  (exists unplaced,
      Permutation (item_ids scenario_c_packed ++ unplaced) [0; 1]%Z)
  /\ 2%Z = Z.of_nat (length (item_ids scenario_c_packed))
  /\ (0 <= 2 <= Z.of_nat (length [0; 1]%Z))%Z
  /\ (NoDup [0; 1]%Z -> NoDup (item_ids scenario_c_packed)).
Proof.
  apply (pack_rectangles_places_each_once
           scenario_c (scenario_c_individual [0; 1]%Z)
           (constant_rng 0) (mkRng (fun _ => 0%Z) 1)
           scenario_c_packed 2%Z [0; 0]%Z).
  vm_compute. reflexivity.
Defined.

(** ** Rectangles wider than the containers *)

Section TooWide.

Variable self : SCO.t.

Lemma place_rectangle_too_wide (rect : Rectangle.t) (rect_idx k : Z)
  (cs : list Container.t) :
  Forall (fun c => Container.width c = SCO.container_width self) cs ->
  SCO.container_width self < Rectangle.width rect ->
  SCO.place_rectangle self rect rect_idx k cs = None.
Proof.
  intros Hcs Hw. revert k.
  induction Hcs as [|c cs Hc _ IH]; intro k; simpl; [reflexivity|].
  unfold SCO.place_in_container. rewrite Hc.
  apply Qlt_bool_true in Hw. rewrite Hw. rewrite IH. reflexivity.
Qed.

Lemma place_all_too_wide (order : list Z) (cs cs' : list Container.t)
  (n n' : Z) (a a' : list Z) :
  all_too_wide self order ->
  Forall (fun c => Container.width c = SCO.container_width self) cs ->
  SCO.place_all self order (cs, n, a) = Ok (cs', n', a') ->
  cs' = cs /\ n' = n.
Proof.
  intros Hall Hcs. revert a.
  induction Hall as [|i order Hi _ IH]; intro a; simpl.
  - intro H. injection H as <- <- _. split; reflexivity.
  - destruct (index (SCO.rectangles self) i) as [rect|]; [|discriminate].
    rewrite (place_rectangle_too_wide rect i 0 cs Hcs (Hi rect eq_refl)).
    destruct (setitem a i (-1)%Z) as [a1|]; [|discriminate].
    apply IH.
Qed.

Lemma initial_containers_width (individual : Individual.t) :
  Forall (fun c => Container.width c = SCO.container_width self)
         (SCO.initial_containers self individual).
Proof.
  unfold SCO.initial_containers. apply Forall_forall. intros c Hc.
  apply in_map_iff in Hc. destruct Hc as (i & <- & _). reflexivity.
Qed.

Lemma initial_containers_no_items (individual : Individual.t) :
  Forall (fun c => SCO.has_items c = false)
         (SCO.initial_containers self individual).
Proof.
  unfold SCO.initial_containers. apply Forall_forall. intros c Hc.
  apply in_map_iff in Hc. destruct Hc as (i & <- & _). reflexivity.
Qed.

Lemma jittered_no_items (cs0 cs : list Container.t) :
  Forall (fun c => SCO.has_items c = false) cs0 ->
  Forall2 (jittered self) cs0 cs -> cs = cs0.
Proof.
  intros H0 F. induction F as [|c0 c cs0 cs J _ IH]; [reflexivity|].
  inversion H0 as [|? ? Hc0 Hcs0]; subst.
  unfold jittered in J. rewrite Hc0 in J. subst c.
  rewrite (IH Hcs0). reflexivity.
Qed.

End TooWide.

(** X5.  When every rectangle of the order is wider than the containers,
    [pack_rectangles] places nothing: it returns the containers it built,
    all empty and with the heights they were given, and a placed count of
    0; [evaluate_fitness] then gives the fitness -1000. *)
Theorem too_wide_rectangles_are_never_placed
  (self : SCO.t) (individual : Individual.t) (g g' : rng)
  (cs : list Container.t) (n : Z) (a : list Z) :
  all_too_wide self (Individual.rectangle_order individual) ->
  SCO.pack_rectangles self individual g = Ok (cs, n, a, g') ->
  n = 0%Z
  /\ cs = SCO.initial_containers self individual
  /\ item_ids cs = []
  /\ exists ind',
       SCO.evaluate_fitness self individual g = Ok (ind', g')
       /\ Individual.fitness ind' = -1000
       /\ Individual.rectangles_placed ind' = 0%Z
       /\ Individual.containers ind' = cs.
Proof.
  intros Hwide Hp.
  destruct (pack_rectangles_inv self individual g g' cs n a Hp)
    as (cs0 & Hplace & F).
  unfold SCO.place in Hplace.
  apply (place_all_too_wide self _ _ _ _ _ _ _ Hwide
           (initial_containers_width self individual)) in Hplace.
  destruct Hplace as [-> ->].
  apply (jittered_no_items self _ _
           (initial_containers_no_items self individual)) in F.
  subst cs. split; [reflexivity|]. split; [reflexivity|]. split.
  - unfold item_ids, SCO.initial_containers.
    induction (seq 0 (Z.to_nat (Individual.num_containers individual)))
      as [|i l IH]; simpl; [reflexivity|exact IH].
  - eexists. split.
    + unfold SCO.evaluate_fitness. rewrite (bind_Ok _ _ _ _ _ _ _ Hp).
      reflexivity.
    + repeat split.
Qed.

Lemma too_wide_rectangles_are_never_placed_witness :
  0%Z = 0%Z
  /\ [Container.mk 7 10 0 [] []]
     = SCO.initial_containers scenario_b scenario_b_individual
  /\ item_ids [Container.mk 7 10 0 [] []] = []
  /\ exists ind',
       SCO.evaluate_fitness scenario_b scenario_b_individual (constant_rng 0)
       = Ok (ind', constant_rng 0)
       /\ Individual.fitness ind' = -1000
       /\ Individual.rectangles_placed ind' = 0%Z
       /\ Individual.containers ind' = [Container.mk 7 10 0 [] []].
Proof.
  apply (too_wide_rectangles_are_never_placed
           scenario_b scenario_b_individual (constant_rng 0) (constant_rng 0)
           [Container.mk 7 10 0 [] []] 0%Z [(-1)%Z]).
  - repeat constructor. intros r H. injection H as <-. reflexivity.
  - vm_compute. reflexivity.
Defined.

(** * Further properties of the encoding and the search operators *)

(** ** Computations that always return *)

Lemma always_ret (A : Type) (a : A) (P : A -> Prop) : P a -> always (ret a) P.
Proof. intros H g. exists a, g. split; [reflexivity|exact H]. Qed.

Lemma always_bind (A B : Type) (m : M A) (k : A -> M B) (Q : A -> Prop)
  (P : B -> Prop) :
  always m Q -> (forall a, Q a -> always (k a) P) -> always (bind m k) P.
Proof.
  intros Hm Hk g. destruct (Hm g) as (a & g1 & E & HQ).
  destruct (Hk a HQ g1) as (b & g2 & E2 & HP).
  exists b, g2. split; [|exact HP].
  rewrite (bind_Ok _ _ _ _ _ _ _ E). exact E2.
Qed.

Lemma always_weaken (A : Type) (m : M A) (P Q : A -> Prop) :
  always m P -> (forall a, P a -> Q a) -> always m Q.
Proof.
  intros Hm HPQ g. destruct (Hm g) as (a & g' & E & HP).
  exists a, g'. split; [exact E|apply HPQ; exact HP].
Qed.

Lemma always_post (A : Type) (m : M A) (P Q : A -> Prop) :
  always m P -> post m Q -> always m (fun a => P a /\ Q a).
Proof.
  intros Hm Hq g. destruct (Hm g) as (a & g' & E & HP).
  exists a, g'. split; [exact E|]. split; [exact HP|exact (Hq g a g' E)].
Qed.

Lemma raises_bind (A B : Type) (m : M A) (k : A -> M B) (e : exn) :
  raises m e -> raises (bind m k) e.
Proof. intros H g. apply bind_Raise. apply H. Qed.

Lemma raises_after (A B : Type) (m : M A) (k : A -> M B) (Q : A -> Prop)
  (e : exn) :
  always m Q -> (forall a, Q a -> raises (k a) e) -> raises (bind m k) e.
Proof.
  intros Hm Hk g. destruct (Hm g) as (a & g1 & E & HQ).
  rewrite (bind_Ok _ _ _ _ _ _ _ E). apply Hk. exact HQ.
Qed.

Lemma randbelow_always (n : Z) :
  (0 < n)%Z -> always (randbelow n) (fun r => (0 <= r < n)%Z).
Proof.
  intros Hn g. eexists. eexists. split; [reflexivity|].
  apply Z.mod_pos_bound. exact Hn.
Qed.

Lemma random_always : always random (fun u => 0 <= u /\ u < 1).
Proof.
  intro g. destruct (random_spec g) as (u & g' & E & H). exists u, g'. auto.
Qed.

Lemma uniform_always (a b : Q) :
  always (uniform a b)
         (fun x => exists u, 0 <= u /\ u < 1 /\ x = a + (b - a) * u).
Proof.
  intro g. destruct (uniform_spec a b g) as (u & g' & E & H0 & H1).
  eexists. exists g'. split; [exact E|]. exists u. auto.
Qed.

Lemma randint_always (a b : Z) :
  (a <= b)%Z -> always (randint a b) (fun r => (a <= r <= b)%Z).
Proof.
  intros Hab g. destruct (randint_spec a b g Hab) as (r & g' & E & H).
  exists r, g'. auto.
Qed.

Lemma randint_raises (a b : Z) : (b < a)%Z -> raises (randint a b) ValueError.
Proof. intros H g. apply randint_empty. exact H. Qed.

Lemma sample2_always (n : nat) :
  (2 <= n)%nat ->
  always (sample2 n)
         (fun ij => (fst ij < n)%nat /\ (snd ij < n)%nat /\ fst ij <> snd ij).
Proof.
  intros Hn g.
  assert (E : sample2 n g
              = Ok ((Z.to_nat (raw g (pos g) mod Z.of_nat n),
                     if (Z.to_nat (raw g (S (pos g)) mod (Z.of_nat n - 1))
                         <? Z.to_nat (raw g (pos g) mod Z.of_nat n))%nat
                     then Z.to_nat (raw g (S (pos g)) mod (Z.of_nat n - 1))
                     else S (Z.to_nat (raw g (S (pos g))
                                       mod (Z.of_nat n - 1)))),
                    mkRng (raw g) (S (S (pos g))))).
  { unfold sample2. destruct (n <? 2)%nat eqn:E2;
      [apply Nat.ltb_lt in E2; lia|reflexivity]. }
  eexists. eexists. split; [exact E|].
  exact (sample2_post n g _ _ E).
Qed.

Lemma sample2_raises (n : nat) : (n < 2)%nat -> raises (sample2 n) ValueError.
Proof.
  intros H g. unfold sample2. apply Nat.ltb_lt in H. rewrite H. reflexivity.
Qed.

Lemma shuffle_from_always (A : Type) (i : nat) (l : list A) :
  always (shuffle_from i l) (fun l' => Permutation l' l).
Proof.
  revert l. induction i as [|i IH]; intro l; simpl.
  - apply always_ret. reflexivity.
  - apply (always_bind _ _ _ _ (fun _ => True)).
    + intro g. eexists. eexists. split; [reflexivity|exact I].
    + intros j _. apply (always_weaken _ _ _ _ (IH _)).
      intros l' H. eapply perm_trans; [exact H|apply swap_perm].
Qed.

Lemma shuffle_always (A : Type) (l : list A) :
  always (shuffle l) (fun l' => Permutation l' l).
Proof. apply shuffle_from_always. Qed.

Lemma choice_always (A : Type) (l : list A) :
  l <> [] -> always (choice l) (fun a => In a l).
Proof.
  intros Hne g. destruct l as [|d l]; [congruence|].
  unfold choice. eexists. eexists. split; [reflexivity|].
  apply nth_In.
  pose proof (Z.mod_pos_bound (raw g (pos g)) (Z.of_nat (length (d :: l))))
    as Hm.
  simpl length in *. lia.
Qed.

(** ** Building and copying individuals *)

Lemma Individual_init_always (rects : list Rectangle.t) (cw mth : Q) (mc : Z) :
  (1 <= mc)%Z ->
  always (Individual.init rects cw mth mc) (fresh_individual rects cw mth mc).
Proof.
  intros Hmc g.
  destruct (Individual_init_spec rects cw mth mc g Hmc) as (n & g' & Hn & E).
  eexists. exists g'. split; [exact E|].
  unfold fresh_individual. simpl.
  split; [exact Hn|]. split; [apply repeat_length|]. split.
  - apply Forall_forall. intros h Hh. apply repeat_spec in Hh. exact Hh.
  - repeat split.
Qed.

Lemma Individual_init_raises (rects : list Rectangle.t) (cw mth : Q) (mc : Z) :
  (mc < 1)%Z -> raises (Individual.init rects cw mth mc) ValueError.
Proof.
  intro H. unfold Individual.init. apply raises_bind.
  apply randint_raises. exact H.
Qed.

(** X6.  Building an individual returns exactly when [max_containers] is
    at least 1, and then gives the identity order, a container count
    between 1 and [max_containers], and one height per container, each
    the quotient of [max_total_height] by the container count; with
    [max_containers] below 1 it raises [ValueError]. *)
Theorem Individual_init_outcome
  (rects : list Rectangle.t) (cw mth : Q) (mc : Z) :
  ((1 <= mc)%Z ->
   always (Individual.init rects cw mth mc) (fresh_individual rects cw mth mc))
  /\ ((mc < 1)%Z -> raises (Individual.init rects cw mth mc) ValueError).
Proof.
  split; [apply Individual_init_always|apply Individual_init_raises].
Qed.

Lemma copy_container_id (cs : list Container.t) :
  map Individual.copy_container cs = cs.
Proof.
  induction cs as [|[w h i b t] cs IH]; simpl; [reflexivity|].
  rewrite IH. reflexivity.
Qed.

(** X7.  [copy] returns exactly when [max_containers] is at least 1.  The
    copy has the original's container count, order, fitness, evaluated
    containers, total height and placed count; its height list is that of
    a freshly built individual: for a count [n] between 1 and
    [max_containers], [n] times the quotient of [max_total_height] by
    [n]; and it has no assignment table.  With [max_containers] below 1,
    [copy] raises [ValueError]. *)
Theorem copy_outcome (s : Individual.t) :
  ((1 <= Individual.max_containers s)%Z ->
   always (Individual.copy s)
          (fun c => copied_from s c
                    /\ (exists n,
                          (1 <= n <= Individual.max_containers s)%Z
                          /\ Individual.container_heights c
                             = repeat (Individual.max_total_height s
                                       / inject_Z n) (Z.to_nat n))
                    /\ Individual.rectangle_assignments c = None))
  /\ ((Individual.max_containers s < 1)%Z ->
      raises (Individual.copy s) ValueError).
Proof.
  split.
  - intros Hmc g.
    destruct (Individual_copy_spec s g Hmc) as (n & g' & Hn & E).
    eexists. exists g'. split; [exact E|]. simpl.
    split; [|split; [exists n; split; [exact Hn|reflexivity]|reflexivity]].
    unfold copied_from. simpl. rewrite copy_container_id. repeat split.
  - intro H. unfold Individual.copy. apply raises_bind.
    apply Individual_init_raises. exact H.
Qed.

(** ** Exceptions of a computation *)

Lemma only_raises_ret (A : Type) (a : A) (E : exn -> Prop) :
  only_raises (ret a) E.
Proof. intros g e H. discriminate H. Qed.

Lemma only_raises_raise (A : Type) (e : exn) (E : exn -> Prop) :
  E e -> only_raises (@raise A e) E.
Proof. intros He g e' H. injection H as <-. exact He. Qed.

Lemma only_raises_bind (A B : Type) (m : M A) (k : A -> M B)
  (E : exn -> Prop) :
  only_raises m E -> (forall a, only_raises (k a) E) ->
  only_raises (bind m k) E.
Proof.
  intros Hm Hk g e H. unfold bind in H.
  destruct (m g) as [[a g1]|e1] eqn:Em.
  - exact (Hk a g1 e H).
  - injection H as <-. exact (Hm g e1 Em).
Qed.

Lemma only_raises_weaken (A : Type) (m : M A) (E E' : exn -> Prop) :
  only_raises m E -> (forall e, E e -> E' e) -> only_raises m E'.
Proof. intros Hm HE g e H. apply HE. exact (Hm g e H). Qed.

Lemma draw_never_raises (E : exn -> Prop) : only_raises draw E.
Proof. intros g e H. discriminate H. Qed.

Lemma randbelow_never_raises (n : Z) (E : exn -> Prop) :
  only_raises (randbelow n) E.
Proof.
  unfold randbelow. apply only_raises_bind; [apply draw_never_raises|].
  intro r. apply only_raises_ret.
Qed.

Lemma random_never_raises (E : exn -> Prop) : only_raises random E.
Proof.
  unfold random. apply only_raises_bind; [apply draw_never_raises|].
  intro r. apply only_raises_ret.
Qed.

Lemma uniform_never_raises (a b : Q) (E : exn -> Prop) :
  only_raises (uniform a b) E.
Proof.
  unfold uniform. apply only_raises_bind; [apply random_never_raises|].
  intro r. apply only_raises_ret.
Qed.

Lemma randint_only_raises (a b : Z) :
  only_raises (randint a b) (fun e => e = ValueError).
Proof.
  unfold randint. destruct (b <? a)%Z.
  - apply only_raises_raise. reflexivity.
  - apply only_raises_bind; [apply randbelow_never_raises|].
    intro r. apply only_raises_ret.
Qed.

Lemma sample2_only_raises (n : nat) :
  only_raises (sample2 n) (fun e => e = ValueError).
Proof.
  unfold sample2. destruct (n <? 2)%nat.
  - apply only_raises_raise. reflexivity.
  - apply only_raises_bind; [apply randbelow_never_raises|]. intro r1.
    apply only_raises_bind; [apply randbelow_never_raises|]. intro r2.
    apply only_raises_ret.
Qed.

Lemma shuffle_never_raises (A : Type) (l : list A) (E : exn -> Prop) :
  only_raises (shuffle l) E.
Proof.
  unfold shuffle. generalize (length l - 1)%nat. intro i. revert l.
  induction i as [|i IH]; intro l; simpl.
  - apply only_raises_ret.
  - apply only_raises_bind; [apply randbelow_never_raises|].
    intro j. apply IH.
Qed.

Lemma Individual_init_only_raises (rects : list Rectangle.t) (cw mth : Q)
  (mc : Z) :
  only_raises (Individual.init rects cw mth mc) (fun e => e = ValueError).
Proof.
  unfold Individual.init. apply only_raises_bind; [apply randint_only_raises|].
  intro n. apply only_raises_ret.
Qed.

Lemma copy_only_raises (s : Individual.t) :
  only_raises (Individual.copy s) (fun e => e = ValueError).
Proof.
  unfold Individual.copy.
  apply only_raises_bind; [apply Individual_init_only_raises|].
  intro i. apply only_raises_ret.
Qed.

(** ** The initial population *)

Lemma initialize_random_always (s : Individual.t) :
  always (Individual.initialize_random s)
         (fun i => i = Individual.set_rectangle_order s
                         (Individual.rectangle_order i)
                   /\ Permutation (Individual.rectangle_order i)
                                  (Individual.rectangle_order s)).
Proof.
  unfold Individual.initialize_random.
  apply (always_bind _ _ _ _ _ _ (shuffle_always Z _)).
  intros o Ho. apply always_ret. split; [reflexivity|exact Ho].
Qed.

Lemma new_member_always (self : SCO.t) :
  (1 <= SCO.max_containers self)%Z ->
  always (individual <- Individual.init (SCO.rectangles self)
                          (SCO.container_width self)
                          (SCO.max_total_height self)
                          (SCO.max_containers self) ;;
          Individual.initialize_random individual)
         (initial_individual self).
Proof.
  intro Hmc.
  apply (always_bind _ _ _ _ _ _ (Individual_init_always _ _ _ _ Hmc)).
  intros i Hi.
  apply (always_weaken _ _ _ _ (initialize_random_always i)).
  intros i' [-> Hperm].
  destruct Hi as (Hn & Hl & Hs & Ho & _).
  unfold initial_individual, valid_individual, valid_order. simpl.
  split; [rewrite <- Ho; exact Hperm|]. auto.
Qed.

(** X8.  With [max_containers] at least 1, [initialize_population] returns
    [population_size] individuals (none when it is not positive), each
    with a permutation of all rectangle ids, a container count between 1
    and [max_containers], and one height per container, each the
    quotient of [max_total_height] by the container count.  With
    [max_containers] below 1 and a positive [population_size] it raises
    [ValueError]. *)
Theorem initialize_population_outcome (self : SCO.t) :
  ((1 <= SCO.max_containers self)%Z ->
   always (SCO.initialize_population self)
          (fun population =>
             length population = Z.to_nat (SCO.population_size self)
             /\ Forall (initial_individual self) population))
  /\ ((SCO.max_containers self < 1)%Z ->
      (1 <= SCO.population_size self)%Z ->
      raises (SCO.initialize_population self) ValueError).
Proof.
  unfold SCO.initialize_population. split.
  - intro Hmc. generalize (Z.to_nat (SCO.population_size self)).
    intro k. induction k as [|k IH].
    + apply always_ret. split; [reflexivity|constructor].
    + intro g.
      destruct (new_member_always self Hmc g) as (i & g1 & E1 & Hi).
      destruct (IH g1) as (rest & g2 & E2 & Hlen & Hall).
      exists (i :: rest), g2. split.
      * unfold bind in E1.
        destruct (Individual.init (SCO.rectangles self)
                    (SCO.container_width self) (SCO.max_total_height self)
                    (SCO.max_containers self) g) as [[i0 g0]|e] eqn:E0;
          [|discriminate].
        rewrite (bind_Ok _ _ _ _ _ _ _ E0).
        rewrite (bind_Ok _ _ _ _ _ _ _ E1).
        rewrite (bind_Ok _ _ _ _ _ _ _ E2). reflexivity.
      * split; [simpl; rewrite Hlen; reflexivity|constructor; assumption].
  - intros Hmc Hps.
    destruct (Z.to_nat (SCO.population_size self)) as [|k] eqn:Ek; [lia|].
    apply raises_bind. apply Individual_init_raises. exact Hmc.
Qed.

(** ** The mutation operators on heights *)

Lemma firstn_pad (share : Q) (l : list Q) (n : nat) :
  firstn n (l ++ repeat share (n - length l))
  = firstn n l ++ repeat share (n - length l).
Proof.
  rewrite firstn_app. f_equal.
  rewrite firstn_all2; [reflexivity|]. rewrite repeat_length. lia.
Qed.

(** X9.  The 'containers' mutation draws a container count between 1 and
    [max_containers] and truncates the height list to it, or pads it with
    the even share of the new count, so that there is one height per
    container; the order is untouched.  With [max_containers] below 1 it
    raises [ValueError]. *)
Theorem mutate_containers_outcome (self : SCO.t) (individual : Individual.t) :
  ((1 <= SCO.max_containers self)%Z ->
   always (SCO.mutate_containers self individual)
          (fun i =>
             let n := Individual.num_containers i in
             (1 <= n <= SCO.max_containers self)%Z
             /\ Individual.container_heights i
                = firstn (Z.to_nat n) (Individual.container_heights individual)
                  ++ repeat (SCO.max_total_height self / inject_Z n)
                       (Z.to_nat n
                        - length (Individual.container_heights individual))
             /\ length (Individual.container_heights i) = Z.to_nat n
             /\ Individual.rectangle_order i
                = Individual.rectangle_order individual))
  /\ ((SCO.max_containers self < 1)%Z ->
      raises (SCO.mutate_containers self individual) ValueError).
Proof.
  unfold SCO.mutate_containers. split.
  - intro Hmc.
    apply (always_bind _ _ _ _ _ _ (randint_always 1 _ Hmc)).
    intros n Hn. apply always_ret. simpl.
    assert (E : prefix (Individual.container_heights individual
                        ++ repeat (SCO.max_total_height self / inject_Z n)
                             (Z.to_nat n
                              - length (Individual.container_heights
                                          individual))) n
                = firstn (Z.to_nat n)
                    (Individual.container_heights individual)
                  ++ repeat (SCO.max_total_height self / inject_Z n)
                       (Z.to_nat n
                        - length (Individual.container_heights individual))).
    { unfold prefix. destruct (0 <=? n)%Z eqn:E0;
        [|apply Z.leb_gt in E0; lia].
      apply firstn_pad. }
    rewrite E. split; [exact Hn|]. split; [reflexivity|].
    split; [|reflexivity].
    rewrite length_app, length_firstn, repeat_length. lia.
  - intro Hmc. apply raises_bind. apply randint_raises. exact Hmc.
Qed.

Lemma always_never_raises (A : Type) (m : M A) (P : A -> Prop)
  (E : exn -> Prop) :
  always m P -> only_raises m E.
Proof.
  intros Hm g e H. destruct (Hm g) as (a & g' & E1 & _). congruence.
Qed.

Lemma Qlt_bool_false (a b : Q) : Qlt_bool a b = false -> b <= a.
Proof.
  unfold Qlt_bool. intro H. apply negb_false_iff in H.
  apply Qle_bool_iff in H. exact H.
Qed.

Lemma mutate_heights_only_raises (self : SCO.t) (individual : Individual.t) :
  only_raises (SCO.mutate_heights self individual)
              (fun e => e = ZeroDivisionError).
Proof.
  unfold SCO.mutate_heights.
  destruct (Individual.container_heights individual) as [|h0 hs0];
    [apply only_raises_ret|].
  assert (Hrange : (0 <= Z.of_nat (length (h0 :: hs0)) - 1)%Z)
    by (simpl length; lia).
  apply only_raises_bind;
    [apply (always_never_raises _ _ _ _ (randint_always 0 _ Hrange))|].
  intro idx. apply only_raises_bind; [apply uniform_never_raises|].
  intro delta. cbv zeta.
  destruct (Qlt_bool _ _); [|apply only_raises_ret].
  destruct (Qeq_bool _ 0);
    [apply only_raises_raise; reflexivity|apply only_raises_ret].
Qed.

Lemma mutate_heights_always (self : SCO.t) (individual : Individual.t) :
  0 <= SCO.max_total_height self ->
  always (SCO.mutate_heights self individual) (fun _ => True).
Proof.
  intro Hmth. unfold SCO.mutate_heights.
  destruct (Individual.container_heights individual) as [|h0 hs0];
    [apply always_ret; exact I|].
  assert (Hrange : (0 <= Z.of_nat (length (h0 :: hs0)) - 1)%Z)
    by (simpl length; lia).
  apply (always_bind _ _ _ _ _ _ (randint_always 0 _ Hrange)).
  intros idx _.
  apply (always_bind _ _ _ _ _ _ (uniform_always _ _)).
  intros delta _. cbv zeta.
  destruct (Qlt_bool _ _) eqn:Elt; [|apply always_ret; exact I].
  destruct (Qeq_bool _ 0) eqn:E0; [|apply always_ret; exact I].
  exfalso. apply Qlt_bool_true in Elt. apply Qeq_bool_iff in E0.
  rewrite E0 in Elt. exact (Qlt_not_le _ _ Elt Hmth).
Qed.

(** X10.  When the 'heights' mutation returns, the height list has the
    length it had, and the container count and the order are untouched.
    It can only raise [ZeroDivisionError], and with a budget that is not
    negative it always returns. *)
Theorem mutate_heights_outcome (self : SCO.t) (individual : Individual.t) :
  post (SCO.mutate_heights self individual)
       (fun i =>
          length (Individual.container_heights i)
          = length (Individual.container_heights individual)
          /\ Individual.num_containers i = Individual.num_containers individual
          /\ Individual.rectangle_order i
             = Individual.rectangle_order individual)
  /\ only_raises (SCO.mutate_heights self individual)
                 (fun e => e = ZeroDivisionError)
  /\ (0 <= SCO.max_total_height self ->
      always (SCO.mutate_heights self individual) (fun _ => True)).
Proof.
  split; [|split;
           [apply mutate_heights_only_raises|apply mutate_heights_always]].
  unfold SCO.mutate_heights.
  destruct (Individual.container_heights individual) as [|h0 hs0] eqn:Eh.
  { apply post_ret. rewrite Eh. repeat split. }
  apply post_bind_any. intro idx. apply post_bind_any. intro delta.
  cbv zeta.
  destruct (Qlt_bool _ _) eqn:Elt.
  - destruct (Qeq_bool _ 0) eqn:E0; [apply post_raise|].
    apply post_ret. unfold Individual.set_container_heights.
    cbn [Individual.container_heights Individual.num_containers
         Individual.rectangle_order].
    rewrite length_map, set_nth_length.
    split; [reflexivity|]. split; reflexivity.
  - apply post_ret. unfold Individual.set_container_heights.
    cbn [Individual.container_heights Individual.num_containers
         Individual.rectangle_order].
    rewrite set_nth_length.
    split; [reflexivity|]. split; reflexivity.
Qed.

Section Redistribute.

Variable draw_height : Q -> M Q.

Lemma redistribute_post (k : nat) (remaining : Q) :
  post (SCO.redistribute draw_height k remaining)
       (fun hs => length hs = k).
Proof.
  revert remaining. induction k as [|k IH]; intro remaining.
  - apply post_ret. reflexivity.
  - destruct k as [|k].
    + apply post_ret. reflexivity.
    + change (SCO.redistribute draw_height (S (S k)) remaining)
        with (height <- draw_height remaining ;;
              rest <- SCO.redistribute draw_height (S k)
                        (remaining - Qmin height remaining) ;;
              ret (Qmin height remaining :: rest)).
      apply post_bind_any. intro height.
      apply (post_bind _ _ _ _ _ _ (IH _)). intros rest Hlen.
      apply post_ret. simpl. rewrite Hlen. reflexivity.
Qed.

Lemma redistribute_nonneg (k : nat) (remaining : Q) :
  (forall r, 0 <= r -> post (draw_height r) (fun h => 0 <= h)) ->
  0 <= remaining ->
  post (SCO.redistribute draw_height k remaining)
       (Forall (fun h => 0 <= h)).
Proof.
  intro Hd. revert remaining. induction k as [|k IH]; intros remaining Hr.
  - apply post_ret. constructor.
  - destruct k as [|k].
    + apply post_ret. constructor; [exact Hr|constructor].
    + change (SCO.redistribute draw_height (S (S k)) remaining)
        with (height <- draw_height remaining ;;
              rest <- SCO.redistribute draw_height (S k)
                        (remaining - Qmin height remaining) ;;
              ret (Qmin height remaining :: rest)).
      apply (post_bind _ _ _ _ _ _ (Hd remaining Hr)). intros height Hh.
      assert (Hmin : Qmin height remaining <= remaining)
        by apply Q.le_min_r.
      assert (Hmin0 : 0 <= Qmin height remaining)
        by (apply Q.min_glb; assumption).
      assert (Hrest : 0 <= remaining - Qmin height remaining) by lra.
      apply (post_bind _ _ _ _ _ _ (IH _ Hrest)). intros rest Hall.
      apply post_ret. constructor; assumption.
Qed.

Lemma redistribute_always (k : nat) (remaining : Q) :
  (forall r, always (draw_height r) (fun _ => True)) ->
  always (SCO.redistribute draw_height k remaining) (fun _ => True).
Proof.
  intro Hd. revert remaining. induction k as [|k IH]; intro remaining.
  - apply always_ret. exact I.
  - destruct k as [|k].
    + apply always_ret. exact I.
    + change (SCO.redistribute draw_height (S (S k)) remaining)
        with (height <- draw_height remaining ;;
              rest <- SCO.redistribute draw_height (S k)
                        (remaining - Qmin height remaining) ;;
              ret (Qmin height remaining :: rest)).
      apply (always_bind _ _ _ _ _ _ (Hd remaining)). intros height _.
      apply (always_bind _ _ _ _ _ _ (IH _)). intros rest _.
      apply always_ret. exact I.
Qed.

End Redistribute.

Lemma even_share_nonneg (mth : Q) (n : Z) :
  0 <= mth -> (0 < n)%Z -> 0 <= mth / inject_Z n.
Proof.
  intros Hm Hn. unfold Qdiv. apply Qmult_le_0_compat; [exact Hm|].
  apply Qinv_le_0_compat. unfold Qle. simpl. lia.
Qed.

(** The outcome of an operator built on the redistribution loop. *)
Lemma redistribute_outcome (self : SCO.t) (individual : Individual.t)
  (draw_height : Q -> M Q) :
  (forall r, always (draw_height r) (fun _ => True)) ->
  (0 <= SCO.max_total_height self ->
   forall r, 0 <= r -> post (draw_height r) (fun h => 0 <= h)) ->
  (0 < Individual.num_containers individual)%Z ->
  always (hs <- SCO.redistribute draw_height
                  (Z.to_nat (Individual.num_containers individual))
                  (SCO.max_total_height self) ;;
          ret (Individual.set_container_heights individual hs))
         (redistributed (SCO.max_total_height self) individual).
Proof.
  intros Hd Hnn Hn.
  assert (Hpost : post (SCO.redistribute draw_height
                          (Z.to_nat (Individual.num_containers individual))
                          (SCO.max_total_height self))
                       (fun hs =>
                          length hs
                          = Z.to_nat (Individual.num_containers individual)
                          /\ (0 <= SCO.max_total_height self ->
                              Forall (fun h => 0 <= h) hs))).
  { intros g hs g' E.
    pose proof (redistribute_post draw_height _ _ g hs g' E) as Hl.
    split; [exact Hl|].
    intro Hm.
    exact (redistribute_nonneg draw_height _ _ (Hnn Hm) Hm g hs g' E). }
  apply (always_bind _ _ _ _ _ _
           (always_post _ _ _ _ (redistribute_always draw_height _ _ Hd)
              Hpost)).
  intros hs [_ (Hl & Hall)]. apply always_ret.
  unfold redistributed. simpl. repeat split; assumption.
Qed.

(** X11.  On an individual with at least one container, the 'adjust' and
    the 'random_heights' mutations always return, with one height per
    container and none negative when the budget is not negative; the
    container count and the order are untouched.  An individual without
    containers is returned as it is. *)
Theorem height_redistribution_outcome
  (self : SCO.t) (individual : Individual.t) :
  ((0 < Individual.num_containers individual)%Z ->
   always (SCO.mutate_adjust self individual)
          (redistributed (SCO.max_total_height self) individual)
   /\ always (SCO.mutate_random_heights self individual)
             (redistributed (SCO.max_total_height self) individual))
  /\ ((Individual.num_containers individual <= 0)%Z ->
      always (SCO.mutate_adjust self individual) (fun i => i = individual)
      /\ always (SCO.mutate_random_heights self individual)
                (fun i => i = individual)).
Proof.
  unfold SCO.mutate_adjust, SCO.mutate_random_heights. split.
  - intro Hn. assert (E : (0 <? Individual.num_containers individual)%Z = true)
      by (apply Z.ltb_lt; exact Hn).
    rewrite E. split.
    + apply redistribute_outcome; [| |exact Hn].
      * intro r. apply (always_bind _ _ _ _ _ _ (uniform_always _ _)).
        intros f _. apply always_ret. exact I.
      * intros Hm r Hr.
        apply (post_bind _ _ _ _
                 (fun f => exists u, 0 <= u /\ u < 1
                                     /\ f = (8 # 10) + ((12 # 10) - (8 # 10)) * u)).
        { intros g f g' Ef.
          destruct (uniform_spec (8 # 10) (12 # 10) g)
            as (u & g1 & Eu & H0 & H1).
          rewrite Eu in Ef. injection Ef as <- _. exists u. auto. }
        intros f (u & H0 & H1 & ->). apply post_ret.
        apply Qmult_le_0_compat; [apply even_share_nonneg; assumption|].
        lra.
    + apply redistribute_outcome; [| |exact Hn].
      * intro r. apply (always_weaken _ _ _ _ (uniform_always _ _)). auto.
      * intros Hm r Hr g h g' Eh.
        destruct (uniform_spec (5 # 10) (r * (8 # 10)) g)
          as (u & g1 & Eu & H0 & H1).
        rewrite Eu in Eh. injection Eh as <- _. nra.
  - intro Hn. assert (E : (0 <? Individual.num_containers individual)%Z = false)
      by (apply Z.ltb_ge; exact Hn).
    rewrite E. split; apply always_ret; reflexivity.
Qed.

(** ** Crossover *)

Lemma copy_post_full (s : Individual.t) :
  post (Individual.copy s) (copied_from s).
Proof.
  unfold Individual.copy.
  apply (post_bind _ _ _ _
           (fun i => Individual.rectangles i = Individual.rectangles s
                     /\ Individual.container_width i
                        = Individual.container_width s
                     /\ Individual.max_total_height i
                        = Individual.max_total_height s
                     /\ Individual.max_containers i
                        = Individual.max_containers s)).
  - unfold Individual.init. apply post_bind_any. intro k. apply post_ret.
    repeat split.
  - intros i (H1 & H2 & H3 & H4). apply post_ret.
    unfold copied_from. simpl. rewrite copy_container_id. repeat split;
      assumption.
Qed.

Lemma In_firstn (A : Type) (l : list A) (n : nat) (x : A) :
  In x (firstn n l) -> In x l.
Proof.
  intro H. rewrite <- (firstn_skipn n l). apply in_or_app. left. exact H.
Qed.

Section CrossHeights.

Variable self : SCO.t.
Variables p1h p2h : list Q.

Lemma append_from_parents (src dst : list Q) (i : nat) :
  (src = p1h \/ src = p2h) -> Forall (from_parents p1h p2h) dst ->
  Forall (from_parents p1h p2h)
    (match nth_error src i with
     | Some v => dst ++ [v]
     | None => dst
     end).
Proof.
  intros Hsrc Hdst. destruct (nth_error src i) as [v|] eqn:E; [|exact Hdst].
  apply Forall_app. split; [exact Hdst|]. constructor; [|constructor].
  apply nth_error_In in E. unfold from_parents.
  destruct Hsrc as [->| ->]; auto.
Qed.

Lemma cross_heights_always (positions : list nat) (h1 h2 : list Q) :
  Forall (from_parents p1h p2h) h1 -> Forall (from_parents p1h p2h) h2 ->
  always (SCO.cross_heights p1h p2h positions h1 h2)
         (fun hs => Forall (from_parents p1h p2h) (fst hs)
                    /\ Forall (from_parents p1h p2h) (snd hs)).
Proof.
  revert h1 h2. induction positions as [|i positions IH]; intros h1 h2 H1 H2;
    simpl.
  - apply always_ret. split; assumption.
  - apply (always_bind _ _ _ _ _ _ random_always). intros r _.
    destruct (Qlt_bool r (1 # 2)); apply IH;
      apply append_from_parents; auto.
Qed.

Lemma fit_heights_length (h : list Q) (n : Z) :
  (0 <= n)%Z -> length (SCO.fit_heights self h n) = Z.to_nat n.
Proof.
  intro Hn. unfold SCO.fit_heights, prefix.
  apply Z.leb_le in Hn. rewrite Hn.
  rewrite length_app, repeat_length, length_firstn. lia.
Qed.

Lemma fit_heights_from (h : list Q) (n : Z) :
  Forall (from_parents p1h p2h) h ->
  Forall (fun x => (from_parents p1h p2h) x
                   \/ x = SCO.max_total_height self / inject_Z n)
         (SCO.fit_heights self h n).
Proof.
  intro Hh. unfold SCO.fit_heights. apply Forall_app. split.
  - apply Forall_forall. intros x Hx. left.
    rewrite Forall_forall in Hh. apply Hh.
    unfold prefix in Hx.
    destruct (0 <=? n)%Z; exact (In_firstn _ _ _ _ Hx).
  - apply Forall_forall. intros x Hx. right.
    apply repeat_spec in Hx. exact Hx.
Qed.

End CrossHeights.

Lemma copy_always (s : Individual.t) :
  (1 <= Individual.max_containers s)%Z ->
  always (Individual.copy s)
         (fun c => copied_from s c
                   /\ Individual.rectangle_order c
                      = Individual.rectangle_order s).
Proof.
  intro Hmc.
  assert (Hret : always (Individual.copy s) (fun _ => True)).
  { intro g. destruct (Individual_copy_spec s g Hmc) as (k & g' & _ & E).
    eexists. exists g'. split; [exact E|exact I]. }
  apply (always_weaken _ _ _ _
           (always_post _ _ _ _
              (always_post _ _ _ _ Hret (copy_post_full s)) (copy_post s))).
  intros c [[_ H1] H2]. split; assumption.
Qed.

(** [crossover] on sound parents: it returns, with children that are
    copies or recombinations. *)
Lemma crossover_always
  (self : SCO.t) (n : nat) (p1 p2 : Individual.t) :
  sound_parent n p1 -> sound_parent n p2 -> (2 <= n)%nat ->
  (1 <= SCO.max_containers self)%Z ->
  always (SCO.crossover self p1 p2)
         (fun cc =>
            valid_individual n (fst cc) /\ valid_individual n (snd cc)
            /\ ((copied_from p1 (fst cc) /\ copied_from p2 (snd cc))
                \/ recombined self p1 p2 cc)).
Proof.
  intros (V1 & M1 & N1) (V2 & M2 & N2) Hn Hmc. unfold SCO.crossover.
  apply (always_bind _ _ _ _ _ _ random_always). intros r _.
  destruct (Qlt_bool (SCO.crossover_rate self) r).
  - apply (always_bind _ _ _ _ _ _ (copy_always p1 M1)). intros c1 [C1 O1].
    apply (always_bind _ _ _ _ _ _ (copy_always p2 M2)). intros c2 [C2 O2].
    apply always_ret. simpl. unfold valid_individual in *.
    rewrite O1, O2. auto.
  - apply (always_bind _ _ _ _ _ _ (Individual_init_always _ _ _ _ Hmc)).
    intros child1 F1.
    apply (always_bind _ _ _ _ _ _ (Individual_init_always _ _ _ _ Hmc)).
    intros child2 F2.
    apply (always_bind _ _ _ _ _ _ random_always). intros r' _.
    cbv zeta.
    apply (always_bind _ _ _ _ _ _
             (cross_heights_always _ _ _ [] [] (Forall_nil _) (Forall_nil _))).
    intros hs [H1 H2].
    rewrite (valid_order_length n _ V1).
    apply (always_bind _ _ _ _ _ _ (sample2_always n Hn)).
    intros ij (Hi & Hj & Hij).
    assert (Hse : (Nat.min (fst ij) (snd ij) <= Nat.max (fst ij) (snd ij))%nat)
      by lia.
    assert (Hen : (Nat.max (fst ij) (snd ij) < n)%nat) by lia.
    destruct (order_crossover_valid n _ _ _ _ V1 V2 Hse Hen)
      as (o1 & E1 & Vo1).
    destruct (order_crossover_valid n _ _ _ _ V2 V1 Hse Hen)
      as (o2 & E2 & Vo2).
    rewrite E1, E2.
    intro g. eexists. exists g. split; [reflexivity|].
    unfold valid_individual. simpl.
    split; [exact Vo1|]. split; [exact Vo2|]. right.
    destruct F1 as (_ & _ & _ & _ & R1 & _ & _ & _ & Fit1 & Cs1 & _).
    destruct F2 as (_ & _ & _ & _ & R2 & _ & _ & _ & Fit2 & Cs2 & _).
    unfold recombined, recombined_child, inherited_height. simpl.
    assert (Hfrom : forall (h : list Q) (k : Z),
              Forall (from_parents (Individual.container_heights p1)
                        (Individual.container_heights p2)) h ->
              Forall (fun x =>
                        In x (Individual.container_heights p1)
                        \/ In x (Individual.container_heights p2)
                        \/ x = SCO.max_total_height self / inject_Z k)
                     (SCO.fit_heights self h k)).
    { intros h k Hh.
      pose proof (fit_heights_from self _ _ h k Hh) as Hf.
      rewrite Forall_forall in *. intros x Hx.
      destruct (Hf x Hx) as [[Ha|Hb]|Hc]; auto. }
    destruct (Qlt_bool r' (1 # 2)).
    + split; [left; split; reflexivity|].
      split; (split; [apply fit_heights_length; assumption|]);
        (split; [apply Hfrom; assumption|]); auto.
    + split; [right; split; reflexivity|].
      split; (split; [apply fit_heights_length; assumption|]);
        (split; [apply Hfrom; assumption|]); auto.
Qed.

(** X12.  For two parents over the same [n >= 2] rectangle ids (container
    counts not negative, [max_containers] at least 1), [crossover] always
    returns two children whose orders are permutations again; the children
    are either copies of the parents, or unevaluated individuals that take
    one parent's container count each and have exactly one height per
    container, each height inherited from a parent or equal to the even
    share. *)
Theorem crossover_outcome
  (self : SCO.t) (n : nat) (p1 p2 : Individual.t) :
  sound_parent n p1 -> sound_parent n p2 -> (2 <= n)%nat ->
  (1 <= SCO.max_containers self)%Z ->
  always (SCO.crossover self p1 p2)
         (fun cc =>
            valid_individual n (fst cc) /\ valid_individual n (snd cc)
            /\ ((copied_from p1 (fst cc) /\ copied_from p2 (snd cc))
                \/ recombined self p1 p2 cc)).
Proof. exact (crossover_always self n p1 p2). Qed.

Lemma crossover_outcome_witness :
  let p1 := scenario_c_individual [0; 1]%Z in
  let p2 := scenario_c_individual [1; 0]%Z in
  always (SCO.crossover scenario_c p1 p2)
         (fun cc =>
            valid_individual 2 (fst cc) /\ valid_individual 2 (snd cc)
            /\ ((copied_from p1 (fst cc) /\ copied_from p2 (snd cc))
                \/ recombined scenario_c p1 p2 cc)).
Proof.
  intros p1 p2.
  apply (crossover_outcome scenario_c 2 p1 p2).
  - split; [apply Permutation_refl|]. split; simpl; lia.
  - split; [apply perm_swap|]. split; simpl; lia.
  - lia.
  - simpl. lia.
Defined.

Lemma raises_post (A B : Type) (m : M A) (k : A -> M B) (e : exn)
  (P : B -> Prop) :
  raises m e -> post (bind m k) P.
Proof.
  intros H g b g' E. rewrite (bind_Raise _ _ _ _ _ _ (H g)) in E.
  discriminate E.
Qed.

Lemma raises_only (A B : Type) (m : M A) (k : A -> M B) (e : exn)
  (E : exn -> Prop) :
  raises m e -> E e -> only_raises (bind m k) E.
Proof.
  intros H He g e' H'. rewrite (bind_Raise _ _ _ _ _ _ (H g)) in H'.
  injection H' as <-. exact He.
Qed.

Lemma cross_heights_never_raises (p1h p2h : list Q) (positions : list nat)
  (h1 h2 : list Q) (E : exn -> Prop) :
  only_raises (SCO.cross_heights p1h p2h positions h1 h2) E.
Proof.
  revert h1 h2. induction positions as [|i positions IH]; intros h1 h2; simpl.
  - apply only_raises_ret.
  - apply only_raises_bind; [apply random_never_raises|]. intro r.
    destruct (Qlt_bool r (1 # 2)); apply IH.
Qed.

(** X13.  With fewer than two entries in the first parent's order,
    [crossover] never recombines: whenever it returns, the children are
    copies of the parents, and whenever the skip test fails (the first draw
    is at most [crossover_rate]) it raises [ValueError]; it raises nothing
    else. *)
Theorem crossover_needs_two_rectangles
  (self : SCO.t) (p1 p2 : Individual.t) :
  (length (Individual.rectangle_order p1) < 2)%nat ->
  post (SCO.crossover self p1 p2)
       (fun cc => copied_from p1 (fst cc) /\ copied_from p2 (snd cc))
  /\ only_raises (SCO.crossover self p1 p2) (fun e => e = ValueError)
  /\ (forall g u g1,
        random g = Ok (u, g1) -> u <= SCO.crossover_rate self ->
        SCO.crossover self p1 p2 g = Raise ValueError).
Proof.
  intro Hlen.
  assert (Hbranch :
            forall k : nat * nat -> M (Individual.t * Individual.t),
              post (ij <- sample2 (length (Individual.rectangle_order p1)) ;;
                    k ij) (fun _ => False)
              /\ only_raises
                   (ij <- sample2 (length (Individual.rectangle_order p1)) ;;
                    k ij) (fun e => e = ValueError)).
  { intro k. split.
    - apply (raises_post _ _ _ _ ValueError). apply sample2_raises. exact Hlen.
    - apply (raises_only _ _ _ _ ValueError);
        [apply sample2_raises; exact Hlen|reflexivity]. }
  assert (Hpost : post (SCO.crossover self p1 p2)
                    (fun cc => copied_from p1 (fst cc)
                               /\ copied_from p2 (snd cc))).
  { unfold SCO.crossover. apply post_bind_any. intro r.
    destruct (Qlt_bool (SCO.crossover_rate self) r).
    - apply (post_bind _ _ _ _ _ _ (copy_post_full p1)). intros c1 C1.
      apply (post_bind _ _ _ _ _ _ (copy_post_full p2)). intros c2 C2.
      apply post_ret. split; assumption.
    - apply post_bind_any. intro child1. apply post_bind_any. intro child2.
      apply post_bind_any. intro r'. cbv zeta.
      apply post_bind_any. intro hs.
      eapply post_weaken; [apply (proj1 (Hbranch _))|].
      intros a []. }
  assert (Honly : only_raises (SCO.crossover self p1 p2)
                    (fun e => e = ValueError)).
  { unfold SCO.crossover.
    apply only_raises_bind; [apply random_never_raises|]. intro r.
    destruct (Qlt_bool (SCO.crossover_rate self) r).
    - apply only_raises_bind; [apply copy_only_raises|]. intro c1.
      apply only_raises_bind; [apply copy_only_raises|]. intro c2.
      apply only_raises_ret.
    - apply only_raises_bind; [apply Individual_init_only_raises|].
      intro child1.
      apply only_raises_bind; [apply Individual_init_only_raises|].
      intro child2.
      apply only_raises_bind; [apply random_never_raises|]. intro r'.
      cbv zeta.
      apply only_raises_bind; [apply cross_heights_never_raises|]. intro hs.
      apply (proj2 (Hbranch _)). }
  split; [exact Hpost|]. split; [exact Honly|].
  intros g u g1 Eu Hu.
  destruct (SCO.crossover self p1 p2 g) as [[cc g']|e] eqn:Ec.
  - exfalso. revert Ec. unfold SCO.crossover.
    rewrite (bind_Ok _ _ _ _ _ _ _ Eu).
    assert (Hskip : Qlt_bool (SCO.crossover_rate self) u = false).
    { unfold Qlt_bool. apply negb_false_iff. apply Qle_bool_iff. exact Hu. }
    rewrite Hskip. intro Ec.
    match type of Ec with
    | ?m g1 = _ => assert (Hnever : post m (fun _ => False))
    end.
    { apply post_bind_any. intro child1. apply post_bind_any. intro child2.
      apply post_bind_any. intro r'. cbv zeta.
      apply post_bind_any. intro hs.
      apply (proj1 (Hbranch _)). }
    exact (Hnever g1 cc g' Ec).
  - rewrite (Honly g e Ec). reflexivity.
Qed.

Lemma crossover_needs_two_rectangles_witness :
  post (SCO.crossover scenario_b scenario_b_individual scenario_b_individual)
       (fun cc => copied_from scenario_b_individual (fst cc)
                  /\ copied_from scenario_b_individual (snd cc))
  /\ only_raises
       (SCO.crossover scenario_b scenario_b_individual scenario_b_individual)
       (fun e => e = ValueError)
  /\ (forall g u g1,
        random g = Ok (u, g1) -> u <= SCO.crossover_rate scenario_b ->
        SCO.crossover scenario_b scenario_b_individual scenario_b_individual g
        = Raise ValueError).
Proof.
  apply (crossover_needs_two_rectangles
           scenario_b scenario_b_individual scenario_b_individual).
  simpl. lia.
Defined.

(** ** [mutate] as a whole *)

(** Steps through a computation built from binds, branches and returns,
    for a postcondition that every returned individual meets. *)
Ltac post_walk :=
  repeat first
    [ apply post_ret
    | apply post_raise
    | apply post_bind_any; intro
    | match goal with
      | |- post (if ?c then _ else _) _ => destruct c
      | |- post (match ?l with [] => _ | _ :: _ => _ end) _ => destruct l
      end
    | progress cbv zeta ].

Section Mutate.

Variable self : SCO.t.

Lemma untouched_refl (i : Individual.t) : untouched_by_mutation i i.
Proof. unfold untouched_by_mutation. repeat split. Qed.

Lemma apply_mutation_untouched (mutation_type : string)
  (individual : Individual.t) :
  post (SCO.apply_mutation self mutation_type individual)
       (untouched_by_mutation individual).
Proof.
  unfold SCO.apply_mutation, SCO.mutate_containers, SCO.mutate_heights,
    SCO.mutate_order, SCO.mutate_adjust, SCO.mutate_shuffle,
    SCO.mutate_random_heights.
  post_walk; try apply untouched_refl;
    unfold untouched_by_mutation; simpl; repeat split.
Qed.

Lemma redistribute_never_raises (draw_height : Q -> M Q) (k : nat)
  (remaining : Q) (E : exn -> Prop) :
  (forall r, only_raises (draw_height r) E) ->
  only_raises (SCO.redistribute draw_height k remaining) E.
Proof.
  intro Hd. revert remaining. induction k as [|k IH]; intro remaining.
  - apply only_raises_ret.
  - destruct k as [|k]; [apply only_raises_ret|].
    change (SCO.redistribute draw_height (S (S k)) remaining)
      with (height <- draw_height remaining ;;
            rest <- SCO.redistribute draw_height (S k)
                      (remaining - Qmin height remaining) ;;
            ret (Qmin height remaining :: rest)).
    apply only_raises_bind; [apply Hd|]. intro height.
    apply only_raises_bind; [apply IH|]. intro rest. apply only_raises_ret.
Qed.

Lemma apply_mutation_only_raises (mutation_type : string)
  (individual : Individual.t) :
  only_raises (SCO.apply_mutation self mutation_type individual)
              (fun e => e = ValueError \/ e = ZeroDivisionError).
Proof.
  unfold SCO.apply_mutation.
  destruct (String.eqb _ _).
  { unfold SCO.mutate_containers.
    apply only_raises_bind;
      [apply (only_raises_weaken _ _ _ _ (randint_only_raises _ _)); auto|].
    intro k. apply only_raises_ret. }
  destruct (String.eqb _ _).
  { apply (only_raises_weaken _ _ _ _
             (mutate_heights_only_raises self individual)). auto. }
  destruct (String.eqb _ _).
  { unfold SCO.mutate_order. destruct (1 <? _)%nat; [|apply only_raises_ret].
    apply only_raises_bind;
      [apply (only_raises_weaken _ _ _ _ (sample2_only_raises _)); auto|].
    intro ij. apply only_raises_ret. }
  destruct (String.eqb _ _).
  { unfold SCO.mutate_adjust. destruct (0 <? _)%Z; [|apply only_raises_ret].
    apply only_raises_bind; [|intro hs; apply only_raises_ret].
    apply redistribute_never_raises. intro r.
    apply only_raises_bind; [apply uniform_never_raises|].
    intro f. apply only_raises_ret. }
  destruct (String.eqb _ _).
  { unfold SCO.mutate_shuffle. destruct (2 <? _)%nat; [|apply only_raises_ret].
    apply only_raises_bind;
      [apply (only_raises_weaken _ _ _ _ (randint_only_raises _ _)); auto|].
    intro size.
    apply only_raises_bind;
      [apply (only_raises_weaken _ _ _ _ (randint_only_raises _ _)); auto|].
    intro start.
    apply only_raises_bind; [apply shuffle_never_raises|].
    intro sub. apply only_raises_ret. }
  destruct (String.eqb _ _); [|apply only_raises_ret].
  unfold SCO.mutate_random_heights.
  destruct (0 <? _)%Z; [|apply only_raises_ret].
  apply only_raises_bind; [|intro hs; apply only_raises_ret].
  apply redistribute_never_raises. intro r. apply uniform_never_raises.
Qed.

Hypothesis Hmc : (1 <= SCO.max_containers self)%Z.
Hypothesis Hmth : 0 <= SCO.max_total_height self.

Lemma mutate_order_always (individual : Individual.t) :
  always (SCO.mutate_order individual) (fun _ => True).
Proof.
  unfold SCO.mutate_order.
  destruct (1 <? _)%nat eqn:E; [|apply always_ret; exact I].
  apply Nat.ltb_lt in E.
  apply (always_bind _ _ _ _ _ _ (sample2_always _ E)).
  intros ij _. apply always_ret. exact I.
Qed.

Lemma mutate_shuffle_always (individual : Individual.t) :
  always (SCO.mutate_shuffle individual) (fun _ => True).
Proof.
  unfold SCO.mutate_shuffle.
  destruct (2 <? _)%nat eqn:E; [|apply always_ret; exact I].
  apply Nat.ltb_lt in E.
  set (n := length (Individual.rectangle_order individual)) in *.
  assert (H3 : (n / 3 <= n * 2 / 3)%nat)
    by (apply Nat.Div0.div_le_mono; lia).
  assert (Hn : (n * 2 / 3 <= n)%nat)
    by (apply Nat.Div0.div_le_upper_bound; lia).
  apply (always_bind _ _ _ _ _ _
           (randint_always (Z.of_nat (n / 3)) (Z.of_nat (n * 2 / 3))
              ltac:(lia))).
  intros size Hsize.
  apply (always_bind _ _ _ _ _ _
           (randint_always 0 (Z.of_nat n - size) ltac:(lia))).
  intros start _.
  apply (always_bind _ _ _ _ _ _ (shuffle_always Z _)).
  intros sub _. apply always_ret. exact I.
Qed.

Lemma redistributing_always (individual : Individual.t) :
  always (SCO.mutate_adjust self individual) (fun _ => True)
  /\ always (SCO.mutate_random_heights self individual) (fun _ => True).
Proof.
  unfold SCO.mutate_adjust, SCO.mutate_random_heights.
  destruct (0 <? _)%Z; [|split; apply always_ret; exact I].
  split.
  - apply (always_bind _ _ _ _ (fun _ => True));
      [|intros hs _; apply always_ret; exact I].
    apply redistribute_always. intro r.
    apply (always_bind _ _ _ _ _ _ (uniform_always _ _)).
    intros f _. apply always_ret. exact I.
  - apply (always_bind _ _ _ _ (fun _ => True));
      [|intros hs _; apply always_ret; exact I].
    apply redistribute_always. intro r.
    apply (always_weaken _ _ _ _ (uniform_always _ _)). auto.
Qed.

Lemma apply_mutation_always (mutation_type : string)
  (individual : Individual.t) :
  always (SCO.apply_mutation self mutation_type individual) (fun _ => True).
Proof.
  unfold SCO.apply_mutation.
  destruct (String.eqb _ _).
  { unfold SCO.mutate_containers.
    apply (always_bind _ _ _ _ _ _ (randint_always 1 _ Hmc)).
    intros k _. apply always_ret. exact I. }
  destruct (String.eqb _ _);
    [apply mutate_heights_always; exact Hmth|].
  destruct (String.eqb _ _); [apply mutate_order_always|].
  destruct (String.eqb _ _);
    [apply (proj1 (redistributing_always individual))|].
  destruct (String.eqb _ _); [apply mutate_shuffle_always|].
  destruct (String.eqb _ _);
    [apply (proj2 (redistributing_always individual))|].
  apply always_ret. exact I.
Qed.

Lemma mutate_always (individual : Individual.t) :
  always (SCO.mutate self individual) (fun _ => True).
Proof.
  unfold SCO.mutate.
  apply (always_bind _ _ _ _ _ _ random_always). intros r _.
  destruct (Qlt_bool _ _); [|apply always_ret; exact I].
  apply (always_bind _ _ _ _ (fun _ => True)).
  - apply (always_weaken _ _ _ _
             (choice_always _ SCO.mutation_types ltac:(discriminate))).
    auto.
  - intros mt _. apply apply_mutation_always.
Qed.

End Mutate.

Lemma mutate_untouched (self : SCO.t) (individual : Individual.t) :
  post (SCO.mutate self individual) (untouched_by_mutation individual).
Proof.
  unfold SCO.mutate. apply post_bind_any. intro r.
  destruct (Qlt_bool _ _); [|apply post_ret; apply untouched_refl].
  apply post_bind_any. intro mt. apply apply_mutation_untouched.
Qed.

(** X14.  With [max_containers] at least 1 and a budget that is not
    negative, [mutate] always returns; the order of the result is a
    permutation again, and the fitness, the evaluated containers and the
    other evaluation results are those the individual had before, so they
    are stale until the next evaluation. *)
Theorem mutate_outcome (self : SCO.t) (n : nat) (individual : Individual.t) :
  valid_individual n individual ->
  (1 <= SCO.max_containers self)%Z ->
  0 <= SCO.max_total_height self ->
  always (SCO.mutate self individual)
         (fun i => valid_individual n i
                   /\ untouched_by_mutation individual i).
Proof.
  intros Hv Hmc Hmth.
  apply (always_weaken _ _ _ _
           (always_post _ _ _ _
              (always_post _ _ _ _ (mutate_always self Hmc Hmth individual)
                 (mutate_post self n individual Hv))
              (mutate_untouched self individual))).
  intros i [[_ H1] H2]. split; assumption.
Qed.

Lemma mutate_outcome_witness :
  always (SCO.mutate scenario_c (scenario_c_individual [0; 1]%Z))
         (fun i => valid_individual 2 i
                   /\ untouched_by_mutation
                        (scenario_c_individual [0; 1]%Z) i).
Proof.
  apply (mutate_outcome scenario_c 2 (scenario_c_individual [0; 1]%Z)).
  - apply Permutation_refl.
  - simpl. lia.
  - unfold Qle. simpl. lia.
Defined.

(** X15.  [mutate] can raise only [ValueError] (an empty range of
    container counts) or [ZeroDivisionError] (normalising heights that sum
    to zero); in particular it never raises [IndexError]. *)
Theorem mutate_exceptions (self : SCO.t) (individual : Individual.t) :
  only_raises (SCO.mutate self individual)
              (fun e => e = ValueError \/ e = ZeroDivisionError).
Proof.
  unfold SCO.mutate.
  apply only_raises_bind; [apply random_never_raises|]. intro r.
  destruct (Qlt_bool _ _); [|apply only_raises_ret].
  apply only_raises_bind.
  - apply (always_never_raises _ _ (fun _ => True)).
    apply (always_weaken _ _ _ _
             (choice_always _ SCO.mutation_types ltac:(discriminate))).
    auto.
  - intro mt. apply apply_mutation_only_raises.
Qed.

(** ** The two mutations of the order *)

Lemma nth_error_set_nth_same (A : Type) (l : list A) (k : nat) (v : A) :
  (k < length l)%nat -> nth_error (set_nth l k v) k = Some v.
Proof.
  revert k. induction l as [|x l IH]; intros [|k] H; simpl in *;
    try lia; [reflexivity|].
  apply IH. lia.
Qed.

Lemma nth_error_set_nth_other (A : Type) (l : list A) (k k' : nat) (v : A) :
  k <> k' -> nth_error (set_nth l k v) k' = nth_error l k'.
Proof.
  revert k k'. induction l as [|x l IH]; intros [|k] [|k'] H; simpl;
    try reflexivity; try congruence.
  apply IH. congruence.
Qed.

Lemma swap_exchanges (A : Type) (l : list A) (i j : nat) :
  (i < length l)%nat -> (j < length l)%nat ->
  nth_error (swap l i j) i = nth_error l j
  /\ nth_error (swap l i j) j = nth_error l i
  /\ (forall k, k <> i -> k <> j -> nth_error (swap l i j) k = nth_error l k).
Proof.
  intros Hi Hj. unfold swap.
  destruct (nth_error l i) as [vi|] eqn:Ei;
    [|apply nth_error_None in Ei; lia].
  destruct (nth_error l j) as [vj|] eqn:Ej;
    [|apply nth_error_None in Ej; lia].
  split; [|split].
  - destruct (Nat.eq_dec i j) as [->|Hne].
    + rewrite nth_error_set_nth_same by (rewrite set_nth_length; exact Hj).
      congruence.
    + rewrite nth_error_set_nth_other by congruence.
      apply nth_error_set_nth_same. exact Hi.
  - apply nth_error_set_nth_same. rewrite set_nth_length. exact Hj.
  - intros k Hki Hkj. rewrite !nth_error_set_nth_other by congruence.
    reflexivity.
Qed.

Lemma firstn_app_exact (A : Type) (l1 l2 : list A) (n : nat) :
  length l1 = n -> firstn n (l1 ++ l2) = l1.
Proof.
  intros <-. rewrite firstn_app, Nat.sub_diag, firstn_all. simpl.
  apply app_nil_r.
Qed.

Lemma skipn_app_exact (A : Type) (l1 l2 : list A) (n : nat) :
  length l1 = n -> skipn n (l1 ++ l2) = l2.
Proof.
  intros <-. rewrite skipn_app, Nat.sub_diag, skipn_all. reflexivity.
Qed.

(** X16.  The 'order' mutation exchanges the entries at two distinct
    positions of an order with at least two entries and moves nothing
    else; the 'shuffle' mutation rearranges one window of an order with at
    least three entries, between a third and two thirds of its length, and
    moves nothing outside the window.  Shorter orders are left as they
    are. *)
Theorem order_mutations_are_local (individual : Individual.t) :
  post (SCO.mutate_order individual)
       (fun i =>
          let o := Individual.rectangle_order individual in
          ((length o <= 1)%nat -> i = individual)
          /\ ((1 < length o)%nat ->
              two_exchanged o (Individual.rectangle_order i)))
  /\ post (SCO.mutate_shuffle individual)
          (fun i =>
             let o := Individual.rectangle_order individual in
             ((length o <= 2)%nat -> i = individual)
             /\ ((2 < length o)%nat ->
                 window_rearranged o (Individual.rectangle_order i))).
Proof.
  split.
  - unfold SCO.mutate_order.
    destruct (1 <? _)%nat eqn:E.
    + apply Nat.ltb_lt in E.
      apply (post_bind _ _ _ _ _ _ (sample2_post _)).
      intros [a b] (Ha & Hb & Hab). simpl in Ha, Hb, Hab.
      apply post_ret. cbv zeta. split; [lia|]. intros _. simpl.
      destruct (swap_exchanges Z _ a b Ha Hb) as (H1 & H2 & H3).
      exists a, b. repeat split; assumption.
    + apply Nat.ltb_ge in E. apply post_ret. cbv zeta.
      split; [reflexivity|lia].
  - unfold SCO.mutate_shuffle.
    destruct (2 <? _)%nat eqn:E.
    + apply Nat.ltb_lt in E.
      set (o := Individual.rectangle_order individual) in *.
      assert (Hn : (length o * 2 / 3 <= length o)%nat)
        by (apply Nat.Div0.div_le_upper_bound; lia).
      apply (post_bind _ _ _ _ _ _ (randint_post _ _)). intros size Hsize.
      apply (post_bind _ _ _ _ _ _ (randint_post _ _)). intros start Hstart.
      apply (post_bind _ _ _ _ _ _ (shuffle_post Z _)). intros sub Hsub.
      apply post_ret. cbv zeta. split; [lia|]. intros _. simpl.
      set (a := Z.to_nat start) in *.
      set (b := Z.to_nat (start + size)) in *.
      assert (Hab : (a <= b)%nat) by (unfold a, b; lia).
      assert (Hb : (b <= length o)%nat) by (unfold b; lia).
      assert (Hlen : length sub = (b - a)%nat).
      { rewrite (Permutation_length Hsub). unfold slice.
        rewrite length_firstn, length_skipn. lia. }
      exists a, b. unfold slice_assign. rewrite Nat.max_r by exact Hab.
      split; [lia|]. split; [unfold a, b; lia|].
      split; [|split].
      * apply firstn_app_exact. rewrite length_firstn. lia.
      * rewrite app_assoc. apply skipn_app_exact.
        rewrite length_app, length_firstn. lia.
      * unfold slice at 1.
        rewrite skipn_app_exact by (rewrite length_firstn; lia).
        rewrite firstn_app_exact by exact Hlen. exact Hsub.
    + apply Nat.ltb_ge in E. apply post_ret. cbv zeta.
      split; [reflexivity|lia].
Qed.

(** * Further properties of selection and the generation loop *)

(** ** Sampling and tournaments *)

Lemma remove_nth_perm (A : Type) (l : list A) (j : nat) (x : A) :
  nth_error l j = Some x -> Permutation (x :: remove_nth l j) l.
Proof.
  revert j. induction l as [|y l IH]; intros [|j] H; simpl in *;
    try discriminate.
  - injection H as ->. reflexivity.
  - eapply perm_trans; [apply perm_swap|].
    apply perm_skip. apply IH. exact H.
Qed.

Lemma remove_nth_length (A : Type) (l : list A) (j : nat) :
  (j < length l)%nat -> length (remove_nth l j) = (length l - 1)%nat.
Proof.
  revert j. induction l as [|y l IH]; intros [|j] H; simpl in *; try lia.
  rewrite IH by lia. lia.
Qed.

Lemma sample_from_always (pool : list Individual.t) (k : nat) :
  (k <= length pool)%nat ->
  always (sample_from pool k) (fun t => drawn_from pool t k).
Proof.
  revert pool. induction k as [|k IH]; intros pool Hk; simpl.
  - apply always_ret. split; [reflexivity|]. exists pool. reflexivity.
  - assert (Hpos : (0 < Z.of_nat (length pool))%Z) by lia.
    apply (always_bind _ _ _ _ _ _ (randbelow_always _ Hpos)).
    intros j Hj.
    destruct (nth_error pool (Z.to_nat j)) as [x|] eqn:Ex;
      [|apply nth_error_None in Ex; lia].
    assert (Hlen : (k <= length (remove_nth pool (Z.to_nat j)))%nat)
      by (rewrite remove_nth_length; lia).
    apply (always_bind _ _ _ _ _ _ (IH _ Hlen)).
    intros rest [Hl (others & Hp)]. apply always_ret.
    split; [simpl; rewrite Hl; reflexivity|].
    exists others. simpl.
    eapply perm_trans; [apply perm_skip; exact Hp|].
    apply remove_nth_perm. exact Ex.
Qed.

Lemma sample_from_never_raises (pool : list Individual.t) (k : nat)
  (E : exn -> Prop) :
  (k <= length pool)%nat -> only_raises (sample_from pool k) E.
Proof.
  intro Hk.
  exact (always_never_raises _ _ _ E (sample_from_always pool k Hk)).
Qed.

(** [max(..., key=...)] returns a member that no member beats. *)
Lemma max_by_spec (l : list Individual.t) (m : Individual.t) :
  max_by Individual.fitness l = Some m ->
  In m l /\ forall q, In q l -> Individual.fitness q <= Individual.fitness m.
Proof.
  unfold max_by. destruct l as [|x rest]; [discriminate|].
  intro H. injection H as <-.
  assert (Hgen : forall (rest : list Individual.t) (best : Individual.t),
            let r := fold_left
                       (fun best y =>
                          if Qlt_bool (Individual.fitness best)
                                      (Individual.fitness y)
                          then y else best) rest best in
            (r = best \/ In r rest)
            /\ Individual.fitness best <= Individual.fitness r
            /\ forall q, In q rest ->
                         Individual.fitness q <= Individual.fitness r).
  { clear. induction rest as [|y rest IH]; intro best; simpl.
    - split; [left; reflexivity|]. split; [apply Qle_refl|]. intros q [].
    - destruct (Qlt_bool (Individual.fitness best) (Individual.fitness y))
        eqn:E.
      + destruct (IH y) as (Hin & Hge & Hall).
        apply Qlt_bool_true in E.
        split; [destruct Hin as [->|Hin]; auto|]. split; [lra|].
        intros q [<-|Hq]; [exact Hge|apply Hall; exact Hq].
      + destruct (IH best) as (Hin & Hge & Hall).
        apply Qlt_bool_false in E.
        split; [destruct Hin as [->|Hin]; auto|]. split; [exact Hge|].
        intros q [<-|Hq]; [lra|apply Hall; exact Hq]. }
  destruct (Hgen rest x) as (Hin & Hge & Hall).
  split.
  - destruct Hin as [->|Hin]; [left; reflexivity|right; exact Hin].
  - intros q [<-|Hq]; [exact Hge|apply Hall; exact Hq].
Qed.

Section Tournament.

Variable current : list Individual.t.

Lemma tournament_on_post (k : Z) :
  post (SCO.tournament_on current k)
       (fun w => exists tournament,
                   drawn_from current tournament (Z.to_nat k)
                   /\ tournament_winner tournament w).
Proof.
  unfold SCO.tournament_on, sample.
  destruct ((k <? 0) || (Z.of_nat (length current) <? k))%Z eqn:E.
  { apply (raises_post _ _ _ _ ValueError). intro g. reflexivity. }
  apply orb_false_iff in E. destruct E as [E0 E1].
  apply Z.ltb_ge in E0. apply Z.ltb_ge in E1.
  assert (Hk : (Z.to_nat k <= length current)%nat) by lia.
  assert (Hs : post (sample_from current (Z.to_nat k))
                    (fun t => drawn_from current t (Z.to_nat k))).
  { intros g t g' Et.
    destruct (sample_from_always current _ Hk g) as (t' & g1 & Et' & Ht').
    rewrite Et in Et'. injection Et' as <- _. exact Ht'. }
  apply (post_bind _ _ _ _ _ _ Hs). intros t Ht.
  destruct (max_by Individual.fitness t) as [m|] eqn:Em; [|apply post_raise].
  destruct (max_by_spec t m Em) as [Hin Hmax].
  apply (post_weaken _ _ _ _ (copy_post_full m)).
  intros w Hw. exists t. split; [exact Ht|].
  exists m. split; [exact Hin|]. split; [exact Hmax|exact Hw].
Qed.

Lemma tournament_on_only_raises (k : Z) :
  only_raises (SCO.tournament_on current k) (fun e => e = ValueError).
Proof.
  unfold SCO.tournament_on, sample.
  destruct ((k <? 0) || (Z.of_nat (length current) <? k))%Z eqn:E.
  { apply (raises_only _ _ _ _ ValueError); [intro g|]; reflexivity. }
  apply orb_false_iff in E. destruct E as [E0 E1].
  apply Z.ltb_ge in E0. apply Z.ltb_ge in E1.
  apply only_raises_bind; [apply sample_from_never_raises; lia|].
  intro t. destruct (max_by Individual.fitness t);
    [apply copy_only_raises|apply only_raises_raise; reflexivity].
Qed.

Lemma tournament_on_raises (k : Z) :
  (k <= 0 \/ Z.of_nat (length current) < k)%Z ->
  raises (SCO.tournament_on current k) ValueError.
Proof.
  intro Hk. unfold SCO.tournament_on, sample.
  destruct ((k <? 0) || (Z.of_nat (length current) <? k))%Z eqn:E.
  { apply raises_bind. intro g. reflexivity. }
  apply orb_false_iff in E. destruct E as [E0 E1].
  apply Z.ltb_ge in E0. apply Z.ltb_ge in E1.
  assert (Hk0 : k = 0%Z) by lia. subst k. simpl.
  intro g. reflexivity.
Qed.

Lemma tournament_on_always (k : Z) :
  (1 <= k <= Z.of_nat (length current))%Z ->
  Forall (fun p => (1 <= Individual.max_containers p)%Z) current ->
  always (SCO.tournament_on current k) (fun _ => True).
Proof.
  intros Hk Hmc. unfold SCO.tournament_on, sample.
  assert (E : ((k <? 0) || (Z.of_nat (length current) <? k))%Z = false).
  { apply orb_false_iff. split; apply Z.ltb_ge; lia. }
  rewrite E.
  assert (Hk' : (Z.to_nat k <= length current)%nat) by lia.
  apply (always_bind _ _ _ _ _ _ (sample_from_always current _ Hk')).
  intros t [Hl (others & Hp)].
  destruct (max_by Individual.fitness t) as [m|] eqn:Em.
  - destruct (max_by_spec t m Em) as [Hin _].
    assert (Hm : In m current).
    { apply (Permutation_in _ Hp). apply in_or_app. left. exact Hin. }
    rewrite Forall_forall in Hmc.
    apply (always_weaken _ _ _ _ (copy_always m (Hmc m Hm))). auto.
  - destruct t as [|x t]; [simpl in Hl; lia|discriminate Em].
Qed.

End Tournament.

(** X17.  [tournament_selection] returns a copy of a member of a
    tournament of [tournament_size] members of the population at distinct
    positions, one that no other member of the tournament beats; it raises
    [ValueError] when the size is below 1 or above the population size,
    raises nothing else, and always returns for a size in between when
    every member allows at least one container. *)
Theorem tournament_selection_outcome (self : SCO.t) (tournament_size : Z) :
  post (SCO.tournament_selection self tournament_size)
       (fun w => exists tournament,
                   drawn_from (SCO.population self) tournament
                              (Z.to_nat tournament_size)
                   /\ tournament_winner tournament w)
  /\ only_raises (SCO.tournament_selection self tournament_size)
                 (fun e => e = ValueError)
  /\ ((tournament_size <= 0
       \/ Z.of_nat (length (SCO.population self)) < tournament_size)%Z ->
      raises (SCO.tournament_selection self tournament_size) ValueError)
  /\ ((1 <= tournament_size <= Z.of_nat (length (SCO.population self)))%Z ->
      Forall (fun p => (1 <= Individual.max_containers p)%Z)
             (SCO.population self) ->
      always (SCO.tournament_selection self tournament_size)
             (fun _ => True)).
Proof.
  unfold SCO.tournament_selection.
  split; [apply tournament_on_post|].
  split; [apply tournament_on_only_raises|].
  split; [apply tournament_on_raises|apply tournament_on_always].
Qed.

(** ** The generation loop *)

Lemma insert_descending_perm (A : Type) (key : A -> Q) (x : A) (l : list A) :
  Permutation (insert_descending key x l) (x :: l).
Proof.
  induction l as [|y l IH]; simpl; [reflexivity|].
  destruct (Qlt_bool (key y) (key x)); [reflexivity|].
  eapply perm_trans; [apply perm_skip; exact IH|apply perm_swap].
Qed.

Lemma sort_descending_perm (A : Type) (key : A -> Q) (l : list A) :
  Permutation (sort_descending key l) l.
Proof.
  unfold sort_descending.
  assert (H : forall acc,
            Permutation (fold_left (fun a x => insert_descending key x a)
                                   l acc) (acc ++ l)).
  { induction l as [|x l IH]; intro acc; simpl.
    - rewrite app_nil_r. reflexivity.
    - eapply perm_trans; [apply IH|].
      eapply perm_trans;
        [apply Permutation_app_tail; apply insert_descending_perm|].
      simpl. apply Permutation_middle. }
  exact (H []).
Qed.

Section Generations.

Variable self : SCO.t.

Lemma evaluate_all_post (population : list Individual.t) :
  post (SCO.evaluate_all self population)
       (fun evaluated => length evaluated = length population).
Proof.
  induction population as [|i population IH]; simpl.
  - apply post_ret. reflexivity.
  - apply post_bind_any. intro i'.
    apply (post_bind _ _ _ _ _ _ IH). intros rest Hrest.
    apply post_ret. simpl. rewrite Hrest. reflexivity.
Qed.

Lemma initialize_population_length :
  post (SCO.initialize_population self)
       (fun population =>
          length population = Z.to_nat (SCO.population_size self)).
Proof.
  unfold SCO.initialize_population.
  generalize (Z.to_nat (SCO.population_size self)). intro k.
  induction k as [|k IH].
  - apply post_ret. reflexivity.
  - apply post_bind_any. intro i. apply post_bind_any. intro i'.
    apply (post_bind _ _ _ _ _ _ IH). intros rest Hrest.
    apply post_ret. simpl. rewrite Hrest. reflexivity.
Qed.

(** The best individual after the bookkeeping is at least as fit as the
    one before and as the head of the sorted population. *)
Lemma track_best_post (sorted : list Individual.t)
  (best : option Individual.t) (stagnation_counter : Z) :
  post (SCO.track_best sorted best stagnation_counter)
       (fun t =>
          (forall b, best = Some b ->
                     Individual.fitness b <= Individual.fitness (fst t))
          /\ (forall top, hd_error sorted = Some top ->
                          Individual.fitness top
                          <= Individual.fitness (fst t))).
Proof.
  unfold SCO.track_best. destruct sorted as [|top rest]; [apply post_raise|].
  destruct best as [b|].
  - destruct (Qlt_bool (Individual.fitness b) (Individual.fitness top)) eqn:E.
    + apply (post_bind _ _ _ _ _ _ (copy_post_full top)).
      intros b' (_ & _ & Hf & _). apply post_ret. simpl. rewrite Hf.
      apply Qlt_bool_true in E. split.
      * intros b0 H. injection H as <-. apply Qlt_le_weak. exact E.
      * intros t H. injection H as <-. apply Qle_refl.
    + apply post_ret. simpl. apply Qlt_bool_false in E. split.
      * intros b0 H. injection H as <-. apply Qle_refl.
      * intros t H. injection H as <-. exact E.
  - apply (post_bind _ _ _ _ _ _ (copy_post_full top)).
    intros b' (_ & _ & Hf & _). apply post_ret. simpl. rewrite Hf. split.
    + intros b0 H. discriminate H.
    + intros t H. injection H as <-. apply Qle_refl.
Qed.

Lemma elites_post (sorted : list Individual.t) (positions : list nat)
  (new_population : list Individual.t) :
  post (SCO.elites sorted positions new_population)
       (fun np => length np
                  = (length new_population + length positions)%nat
                  /\ Forall (fun i => (i < length sorted)%nat) positions).
Proof.
  revert new_population.
  induction positions as [|i positions IH]; intro new_population; simpl.
  - apply post_ret. split; [lia|constructor].
  - destruct (nth_error sorted i) as [p|] eqn:E; [|apply post_raise].
    apply post_bind_any. intro c.
    apply (post_weaken _ _ _ _ (IH _)). intros np [Hl Hall].
    rewrite length_app in Hl. simpl in Hl. split; [lia|].
    constructor; [|exact Hall].
    apply nth_error_Some. congruence.
Qed.

Lemma immigrants_post (count : nat) (new_population : list Individual.t) :
  post (SCO.immigrants self count new_population)
       (fun np =>
          (length new_population <= length np)%nat
          /\ (Z.of_nat (length np)
              <= Z.max (SCO.population_size self)
                       (Z.of_nat (length new_population)))%Z).
Proof.
  revert new_population.
  induction count as [|count IH]; intro new_population; simpl.
  - apply post_ret. split; lia.
  - destruct (Z.of_nat (length new_population) <? SCO.population_size self)%Z
      eqn:E.
    + apply Z.ltb_lt in E.
      apply post_bind_any. intro i. apply post_bind_any. intro i'.
      apply post_bind_any. intro i''.
      apply (post_weaken _ _ _ _ (IH _)). intros np [H1 H2].
      rewrite length_app in *. simpl in *. split; lia.
    + apply IH.
Qed.

Lemma breed_post (room : nat) (sorted : list Individual.t)
  (current_mutation : Q) (stagnation_counter : Z)
  (new_population : list Individual.t) :
  post (SCO.breed self room sorted current_mutation stagnation_counter
                  new_population)
       (fun np => length np = (length new_population + room)%nat).
Proof.
  revert new_population.
  induction room as [room IH] using (well_founded_induction lt_wf).
  intro new_population. destruct room as [|[|room]]; simpl.
  - apply post_ret. lia.
  - apply post_bind_any. intro children. apply post_ret.
    rewrite length_app. simpl. lia.
  - apply post_bind_any. intro children.
    apply (post_weaken _ _ _ _ (IH room ltac:(lia) _)). intros np Hl.
    rewrite !length_app in Hl. simpl in Hl. lia.
Qed.

(** One generation keeps the population size and extends the history by
    the fitness of the best individual, which never goes down. *)
Lemma generation_step_post (generation : Z) (st : SCO.evolve_state) :
  length (SCO.st_population st) = Z.to_nat (SCO.population_size self) ->
  history_of_best (SCO.st_best_individual st) (SCO.st_history st) ->
  post (SCO.generation_step self generation st)
       (fun st' =>
          length (SCO.st_population st')
          = Z.to_nat (SCO.population_size self)
          /\ history_of_best (SCO.st_best_individual st') (SCO.st_history st')
          /\ exists b,
               SCO.st_best_individual st' = Some b
               /\ SCO.st_history st'
                  = SCO.st_history st ++ [Individual.fitness b]).
Proof.
  intros Hlen [Hnd Hbest]. unfold SCO.generation_step. cbv zeta.
  apply (post_bind _ _ _ _ _ _ (track_best_post _ _ _)).
  intros [best stag] [Hge _]. simpl fst. simpl snd.
  apply (post_bind _ _ _ _ _ _ (elites_post _ _ _)).
  intros np1 [Hl1 Hpos]. simpl in Hl1. rewrite length_seq in Hl1.
  assert (Hel : (length np1 <= Z.to_nat (SCO.population_size self))%nat).
  { rewrite Hl1.
    destruct (Z.to_nat (SCO.elitism_count self)) as [|c] eqn:Ec; [lia|].
    rewrite Forall_forall in Hpos.
    assert (Hc : (c < length (sort_descending Individual.fitness
                                (SCO.st_population st)))%nat).
    { apply Hpos. apply in_seq. lia. }
    rewrite (Permutation_length (sort_descending_perm _ _ _)) in Hc. lia. }
  apply (post_bind _ _ _ _ _ _ (immigrants_post _ _)).
  intros np2 [Hl2 Hl2'].
  apply (post_bind _ _ _ _ _ _ (breed_post _ _ _ _ _)).
  intros np3 Hl3. apply post_ret. simpl.
  split; [lia|]. split.
  - split.
    + apply ordpairs_snoc; [exact Hnd|].
      destruct (SCO.st_best_individual st) as [b0|].
      * rewrite Forall_forall in *. intros h Hh.
        eapply Qle_trans; [apply Hbest; exact Hh|apply Hge; reflexivity].
      * rewrite Hbest. constructor.
    + apply Forall_app. split; [|constructor; [apply Qle_refl|constructor]].
      destruct (SCO.st_best_individual st) as [b0|].
      * rewrite Forall_forall in *. intros h Hh.
        eapply Qle_trans; [apply Hbest; exact Hh|apply Hge; reflexivity].
      * rewrite Hbest. constructor.
  - exists best. split; reflexivity.
Qed.

Lemma generations_loop_post (gens : list Z) (st : SCO.evolve_state) :
  length (SCO.st_population st) = Z.to_nat (SCO.population_size self) ->
  history_of_best (SCO.st_best_individual st) (SCO.st_history st) ->
  post (SCO.generations_loop self gens st)
       (fun st' =>
          length (SCO.st_population st')
          = Z.to_nat (SCO.population_size self)
          /\ history_of_best (SCO.st_best_individual st') (SCO.st_history st')
          /\ length (SCO.st_history st')
             = (length (SCO.st_history st) + length gens)%nat
          /\ (gens = [] -> st' = st)
          /\ (gens <> [] ->
              exists b earlier,
                SCO.st_best_individual st' = Some b
                /\ SCO.st_history st' = earlier ++ [Individual.fitness b])).
Proof.
  revert st. induction gens as [|generation gens IH]; intros st Hlen Hh; simpl.
  - apply post_ret. split; [exact Hlen|]. split; [exact Hh|].
    split; [lia|]. split; [reflexivity|]. intro H. congruence.
  - apply (post_bind _ _ _ _ _ _ (generation_step_post generation st Hlen Hh)).
    intros st1 (Hlen1 & Hh1 & b1 & Hb1 & Hhist1).
    apply (post_weaken _ _ _ _ (IH st1 Hlen1 Hh1)).
    intros st' (Hlen' & Hh' & Hl' & Hnil & Hcons).
    split; [exact Hlen'|]. split; [exact Hh'|]. split.
    + rewrite Hl', Hhist1, length_app. simpl. lia.
    + split; [intro H; discriminate H|]. intros _.
      destruct gens as [|g2 gens].
      * rewrite (Hnil eq_refl). exists b1, (SCO.st_history st).
        split; assumption.
      * apply Hcons. discriminate.
Qed.

End Generations.

(** X18.  Whenever [evolve] returns, the fitness history has one entry per
    generation and never decreases, no entry exceeds the fitness of the
    best individual returned, and the population has [population_size]
    members.  With at least one generation there is a best individual and
    the last entry is its fitness; with no generation to run, the best
    individual is the one the optimizer already had and the history is
    empty. *)
Theorem evolve_history (self : SCO.t) :
  post (SCO.evolve self)
       (fun st =>
          length (SCO.st_history st) = Z.to_nat (SCO.generations self)
          /\ history_of_best (SCO.st_best_individual st) (SCO.st_history st)
          /\ length (SCO.st_population st)
             = Z.to_nat (SCO.population_size self)
          /\ ((1 <= SCO.generations self)%Z ->
              exists b earlier,
                SCO.st_best_individual st = Some b
                /\ SCO.st_history st = earlier ++ [Individual.fitness b])
          /\ ((SCO.generations self <= 0)%Z ->
              SCO.st_best_individual st = SCO.best_individual self
              /\ SCO.st_history st = [])).
Proof.
  unfold SCO.evolve.
  apply (post_bind _ _ _ _ _ _ (initialize_population_length self)).
  intros pop Hpop.
  apply (post_bind _ _ _ _ _ _ (evaluate_all_post self pop)).
  intros pop' Hpop'.
  assert (Hh : history_of_best (SCO.best_individual self) []).
  { split; [constructor|]. destruct (SCO.best_individual self);
      [constructor|reflexivity]. }
  apply (post_weaken _ _ _ _
           (generations_loop_post self _
              (SCO.mk_state pop' (SCO.best_individual self) 0 None [] [])
              ltac:(simpl; lia) Hh)).
  intros st (Hlen & Hhist & Hl & Hnil & Hcons).
  simpl in Hl. unfold range in Hl, Hnil, Hcons.
  rewrite length_map, length_seq in Hl.
  split; [exact Hl|]. split; [exact Hhist|]. split; [exact Hlen|]. split.
  - intro Hg. apply Hcons.
    destruct (Z.to_nat (SCO.generations self)) eqn:E; [lia|discriminate].
  - intro Hg. assert (E : Z.to_nat (SCO.generations self) = 0%nat) by lia.
    rewrite E in Hnil. rewrite (Hnil eq_refl). split; reflexivity.
Qed.

(** X19.  With a population size that is not positive and at least one
    generation to run, [evolve] raises [IndexError]: the first generation
    finds no individual to rank. *)
Theorem evolve_needs_a_population (self : SCO.t) :
  (SCO.population_size self <= 0)%Z ->
  (1 <= SCO.generations self)%Z ->
  raises (SCO.evolve self) IndexError.
Proof.
  intros Hp Hg g. unfold SCO.evolve, SCO.initialize_population.
  assert (E : Z.to_nat (SCO.population_size self) = 0%nat) by lia.
  rewrite E.
  destruct (Z.to_nat (SCO.generations self)) as [|k] eqn:Ek; [lia|].
  reflexivity.
Qed.

Lemma evolve_needs_a_population_witness :
  raises (SCO.evolve empty_search) IndexError.
Proof.
  apply (evolve_needs_a_population empty_search); simpl; lia.
Defined.

(** ** The search on a sound configuration *)

Lemma valid_order_on_table (rects : list Rectangle.t) (o : list Z) :
  valid_order (length rects) o ->
  Forall (fun i => index rects i <> None) o.
Proof.
  intro Hv. apply Forall_forall. intros i Hi.
  apply (Permutation_in _ Hv) in Hi. unfold range in Hi.
  apply in_map_iff in Hi. destruct Hi as (k & <- & Hk). apply in_seq in Hk.
  unfold index.
  destruct (0 <=? Z.of_nat k)%Z eqn:E; [|apply Z.leb_gt in E; lia].
  rewrite Nat2Z.id. apply nth_error_Some. lia.
Qed.

(** [evaluate_fitness] returns when every id of the order is in the table
    and [max_containers] is not 0; it leaves the encoding alone. *)
Lemma evaluate_fitness_always (self : SCO.t) (individual : Individual.t) :
  Forall (fun i => index (SCO.rectangles self) i <> None)
         (Individual.rectangle_order individual) ->
  SCO.max_containers self <> 0%Z ->
  always (SCO.evaluate_fitness self individual)
         (fun i =>
            Individual.rectangle_order i
            = Individual.rectangle_order individual
            /\ Individual.num_containers i
               = Individual.num_containers individual
            /\ Individual.max_containers i
               = Individual.max_containers individual
            /\ Individual.container_heights i
               = Individual.container_heights individual).
Proof.
  intros Hall Hmc g.
  destruct (pack_rectangles_returns_on_table_order self individual g Hall)
    as (cs & n & a & g' & E).
  unfold SCO.evaluate_fitness. rewrite (bind_Ok _ _ _ _ _ _ _ E).
  cbv beta iota zeta.
  destruct (n =? 0)%Z.
  - eexists _, _. split; [reflexivity|]. simpl. repeat split.
  - unfold SCO.combined_fitness. cbv zeta.
    destruct (SCO.max_containers self =? 0)%Z eqn:E0;
      [apply Z.eqb_eq in E0; contradiction|].
    eexists _, _. split; [reflexivity|]. simpl. repeat split.
Qed.

Lemma Individual_init_max_containers (rects : list Rectangle.t) (cw mth : Q)
  (mc : Z) :
  post (Individual.init rects cw mth mc)
       (fun i => Individual.max_containers i = mc).
Proof.
  unfold Individual.init. apply post_bind_any. intro k.
  apply post_ret. reflexivity.
Qed.

Section Search.

Variable self : SCO.t.

Lemma search_member_sound (i : Individual.t) :
  search_member self i -> sound_parent (length (SCO.rectangles self)) i.
Proof. intros (Hv & Hn & Hm). split; [exact Hv|]. split; lia. Qed.

Lemma search_member_copied (s c : Individual.t) :
  search_member self s -> copied_from s c -> search_member self c.
Proof.
  intros (Hv & Hn & Hm) (En & Eo & _ & _ & _ & _ & _ & _ & _ & Em).
  unfold search_member, valid_individual. rewrite Eo, En, Em. auto.
Qed.

Lemma evaluate_fitness_member (i : Individual.t) :
  search_member self i ->
  always (SCO.evaluate_fitness self i) (search_member self).
Proof.
  intros (Hv & Hn & Hm).
  apply (always_weaken _ _ _ _
           (evaluate_fitness_always self i
              (valid_order_on_table _ _ Hv) ltac:(lia))).
  intros i' (Eo & En & Em & _).
  unfold search_member, valid_individual. rewrite Eo, En, Em. auto.
Qed.

Lemma copy_member (s : Individual.t) :
  search_member self s -> always (Individual.copy s) (search_member self).
Proof.
  intro Hs. assert (Hmc : (1 <= Individual.max_containers s)%Z).
  { destruct Hs as (_ & Hn & Hm). lia. }
  apply (always_weaken _ _ _ _ (copy_always s Hmc)).
  intros c [Hc _]. exact (search_member_copied s c Hs Hc).
Qed.

Lemma apply_mutation_count (mutation_type : string) (i : Individual.t) :
  (1 <= Individual.num_containers i <= SCO.max_containers self)%Z ->
  post (SCO.apply_mutation self mutation_type i)
       (fun i' =>
          (1 <= Individual.num_containers i' <= SCO.max_containers self)%Z).
Proof.
  intro Hn. unfold SCO.apply_mutation.
  destruct (String.eqb _ _).
  { unfold SCO.mutate_containers.
    apply (post_bind _ _ _ _ _ _ (randint_post _ _)). intros k Hk.
    apply post_ret. simpl. exact Hk. }
  unfold SCO.mutate_heights, SCO.mutate_order, SCO.mutate_adjust,
    SCO.mutate_shuffle, SCO.mutate_random_heights.
  post_walk; simpl; exact Hn.
Qed.

Lemma mutate_count (i : Individual.t) :
  (1 <= Individual.num_containers i <= SCO.max_containers self)%Z ->
  post (SCO.mutate self i)
       (fun i' =>
          (1 <= Individual.num_containers i' <= SCO.max_containers self)%Z).
Proof.
  intro Hn. unfold SCO.mutate. apply post_bind_any. intro r.
  destruct (Qlt_bool _ _); [|apply post_ret; exact Hn].
  apply post_bind_any. intro mt. apply apply_mutation_count. exact Hn.
Qed.

Lemma crossover_max_containers (p1 p2 : Individual.t) :
  Individual.max_containers p1 = SCO.max_containers self ->
  Individual.max_containers p2 = SCO.max_containers self ->
  post (SCO.crossover self p1 p2)
       (fun cc =>
          Individual.max_containers (fst cc) = SCO.max_containers self
          /\ Individual.max_containers (snd cc) = SCO.max_containers self).
Proof.
  intros H1 H2. unfold SCO.crossover. apply post_bind_any. intro r.
  destruct (Qlt_bool _ _).
  - apply (post_bind _ _ _ _ _ _ (copy_post_full p1)). intros c1 Hc1.
    apply (post_bind _ _ _ _ _ _ (copy_post_full p2)). intros c2 Hc2.
    apply post_ret. simpl.
    destruct Hc1 as (_ & _ & _ & _ & _ & _ & _ & _ & _ & E1).
    destruct Hc2 as (_ & _ & _ & _ & _ & _ & _ & _ & _ & E2).
    rewrite E1, E2. auto.
  - apply (post_bind _ _ _ _ _ _ (Individual_init_max_containers _ _ _ _)).
    intros c1 Hc1.
    apply (post_bind _ _ _ _ _ _ (Individual_init_max_containers _ _ _ _)).
    intros c2 Hc2.
    post_walk. simpl. auto.
Qed.

Hypothesis Hmc : (1 <= SCO.max_containers self)%Z.

Lemma fresh_shuffled_member (i0 : Individual.t) :
  fresh_individual (SCO.rectangles self) (SCO.container_width self)
                   (SCO.max_total_height self) (SCO.max_containers self) i0 ->
  always (Individual.initialize_random i0) (search_member self).
Proof.
  intros (Hn & _ & _ & Ho & _ & _ & _ & Hm & _).
  apply (always_weaken _ _ _ _ (initialize_random_always i0)).
  intros i [-> Hperm].
  unfold search_member, valid_individual, valid_order. simpl.
  split; [rewrite <- Ho; exact Hperm|]. auto.
Qed.

Lemma initialize_population_members :
  always (SCO.initialize_population self) (search_population self).
Proof.
  unfold SCO.initialize_population, search_population.
  generalize (Z.to_nat (SCO.population_size self)). intro k.
  induction k as [|k IH].
  - apply always_ret. split; [reflexivity|constructor].
  - apply (always_bind _ _ _ _ _ _ (Individual_init_always _ _ _ _ Hmc)).
    intros i0 Hi0.
    apply (always_bind _ _ _ _ _ _ (fresh_shuffled_member i0 Hi0)).
    intros i Hi.
    apply (always_bind _ _ _ _ _ _ IH). intros rest [Hlen Hall].
    apply always_ret. split; [simpl; rewrite Hlen; reflexivity|].
    constructor; assumption.
Qed.

Lemma evaluate_all_members (population : list Individual.t) :
  Forall (search_member self) population ->
  always (SCO.evaluate_all self population)
         (fun evaluated =>
            length evaluated = length population
            /\ Forall (search_member self) evaluated).
Proof.
  induction population as [|i population IH]; intro Hall; simpl.
  - apply always_ret. split; [reflexivity|constructor].
  - inversion Hall as [|? ? Hi Hrest]; subst.
    apply (always_bind _ _ _ _ _ _ (evaluate_fitness_member i Hi)).
    intros i' Hi'.
    apply (always_bind _ _ _ _ _ _ (IH Hrest)). intros rest [Hlen Hall'].
    apply always_ret. split; [simpl; rewrite Hlen; reflexivity|].
    constructor; assumption.
Qed.

Lemma track_best_always (sorted : list Individual.t)
  (best : option Individual.t) (stagnation_counter : Z) :
  sorted <> [] -> Forall (search_member self) sorted ->
  always (SCO.track_best sorted best stagnation_counter) (fun _ => True).
Proof.
  intros Hne Hall. unfold SCO.track_best.
  destruct sorted as [|top rest]; [congruence|].
  inversion Hall as [|? ? Htop _]; subst.
  destruct best as [b|].
  - destruct (Qlt_bool _ _); [|apply always_ret; exact I].
    apply (always_bind _ _ _ _ _ _ (copy_member top Htop)).
    intros b' _. apply always_ret. exact I.
  - apply (always_bind _ _ _ _ _ _ (copy_member top Htop)).
    intros b' _. apply always_ret. exact I.
Qed.

Lemma elites_always (sorted : list Individual.t) (positions : list nat)
  (new_population : list Individual.t) :
  Forall (fun i => (i < length sorted)%nat) positions ->
  Forall (search_member self) sorted ->
  Forall (search_member self) new_population ->
  always (SCO.elites sorted positions new_population)
         (fun np =>
            length np = (length new_population + length positions)%nat
            /\ Forall (search_member self) np).
Proof.
  intros Hpos Hsorted. revert new_population.
  induction positions as [|i positions IH]; intros new_population Hnp; simpl.
  - apply always_ret. split; [lia|exact Hnp].
  - inversion Hpos as [|? ? Hi Hrest]; subst.
    destruct (nth_error sorted i) as [p|] eqn:E;
      [|apply nth_error_None in E; lia].
    assert (Hp : search_member self p).
    { rewrite Forall_forall in Hsorted. apply Hsorted.
      exact (nth_error_In _ _ E). }
    apply (always_bind _ _ _ _ _ _ (copy_member p Hp)). intros c Hc.
    assert (Hnp' : Forall (search_member self) (new_population ++ [c])).
    { apply Forall_app. split; [exact Hnp|]. constructor; [exact Hc|].
      constructor. }
    apply (always_weaken _ _ _ _ (IH Hrest _ Hnp')). intros np [Hl Hall].
    rewrite length_app in Hl. simpl in Hl. split; [lia|exact Hall].
Qed.

Lemma immigrants_always (count : nat) (new_population : list Individual.t) :
  Forall (search_member self) new_population ->
  always (SCO.immigrants self count new_population)
         (fun np =>
            (length new_population <= length np)%nat
            /\ (Z.of_nat (length np)
                <= Z.max (SCO.population_size self)
                         (Z.of_nat (length new_population)))%Z
            /\ Forall (search_member self) np).
Proof.
  revert new_population.
  induction count as [|count IH]; intros new_population Hnp; simpl.
  - apply always_ret. split; [lia|]. split; [lia|exact Hnp].
  - destruct (Z.of_nat (length new_population) <? SCO.population_size self)%Z
      eqn:E.
    + apply Z.ltb_lt in E.
      apply (always_bind _ _ _ _ _ _ (Individual_init_always _ _ _ _ Hmc)).
      intros i0 Hi0.
      apply (always_bind _ _ _ _ _ _ (fresh_shuffled_member i0 Hi0)).
      intros i1 Hi1.
      apply (always_bind _ _ _ _ _ _ (evaluate_fitness_member i1 Hi1)).
      intros i Hi.
      assert (Hnp' : Forall (search_member self) (new_population ++ [i])).
      { apply Forall_app. split; [exact Hnp|]. constructor; [exact Hi|].
        constructor. }
      apply (always_weaken _ _ _ _ (IH _ Hnp')). intros np (H1 & H2 & H3).
      rewrite length_app in *. simpl in *. split; [lia|]. split; [lia|].
      exact H3.
    + apply (always_weaken _ _ _ _ (IH _ Hnp)). auto.
Qed.

Lemma tournament_member (current : list Individual.t) (k : Z) :
  (1 <= k <= Z.of_nat (length current))%Z ->
  Forall (search_member self) current ->
  always (SCO.tournament_on current k) (search_member self).
Proof.
  intros Hk Hall.
  assert (Hmcs : Forall (fun p => (1 <= Individual.max_containers p)%Z)
                        current).
  { eapply Forall_impl; [|exact Hall]. intros p (_ & Hn & Hm). lia. }
  apply (always_weaken _ _ _ _
           (always_post _ _ _ _ (tournament_on_always current k Hk Hmcs)
              (tournament_on_post current k))).
  intros w [_ (t & [_ (others & Hperm)] & p & Hin & _ & Hcopy)].
  apply (search_member_copied p w); [|exact Hcopy].
  rewrite Forall_forall in Hall. apply Hall.
  apply (Permutation_in _ Hperm). apply in_or_app. left. exact Hin.
Qed.

Hypothesis Hn : (2 <= length (SCO.rectangles self))%nat.
Hypothesis Hmth : 0 <= SCO.max_total_height self.

Lemma mutate_member (i : Individual.t) :
  search_member self i ->
  always (SCO.mutate self i) (search_member self).
Proof.
  intros (Hv & Hc & Hm).
  apply (always_weaken _ _ _ _
           (always_post _ _ _ _
              (always_post _ _ _ _
                 (always_post _ _ _ _ (mutate_always self Hmc Hmth i)
                    (mutate_post self _ i Hv))
                 (mutate_untouched self i))
              (mutate_count i Hc))).
  intros i' [[[_ H1] H2] H3]. split; [exact H1|]. split; [exact H3|].
  destruct H2 as (_ & _ & _ & _ & _ & _ & _ & _ & E). rewrite E. exact Hm.
Qed.

Lemma crossover_members (p1 p2 : Individual.t) :
  search_member self p1 -> search_member self p2 ->
  always (SCO.crossover self p1 p2)
         (fun cc => search_member self (fst cc)
                    /\ search_member self (snd cc)).
Proof.
  intros H1 H2.
  apply (always_weaken _ _ _ _
           (always_post _ _ _ _
              (crossover_always self _ p1 p2 (search_member_sound p1 H1)
                 (search_member_sound p2 H2) Hn Hmc)
              (crossover_max_containers p1 p2
                 (proj2 (proj2 H1)) (proj2 (proj2 H2))))).
  intros cc [(Hv1 & Hv2 & Hkind) [Hm1 Hm2]].
  destruct H1 as (_ & Hn1 & _). destruct H2 as (_ & Hn2 & _).
  destruct Hkind as [[Hc1 Hc2]|[Hcount _]].
  - destruct Hc1 as (E1 & _). destruct Hc2 as (E2 & _).
    split; (split; [assumption|]; split; [|assumption]); lia.
  - split; (split; [assumption|]; split; [|assumption]);
      destruct Hcount as [[E1 E2]|[E1 E2]]; lia.
Qed.

Lemma extra_mutations_always (k : nat) (child1 child2 : Individual.t) :
  search_member self child1 -> search_member self child2 ->
  always (SCO.extra_mutations self k child1 child2)
         (fun cc => search_member self (fst cc)
                    /\ search_member self (snd cc)).
Proof.
  revert child1 child2.
  induction k as [|k IH]; intros child1 child2 H1 H2; simpl.
  - apply always_ret. split; assumption.
  - apply (always_bind _ _ _ _ _ _ (mutate_member child1 H1)). intros c1 Hc1.
    apply (always_bind _ _ _ _ _ _ (mutate_member child2 H2)). intros c2 Hc2.
    apply IH; assumption.
Qed.

Lemma breed_pair_always (sorted : list Individual.t) (current_mutation : Q)
  (stagnation_counter : Z) :
  (5 <= length sorted)%nat -> Forall (search_member self) sorted ->
  always (SCO.breed_pair self sorted current_mutation stagnation_counter)
         (fun cc => search_member self (fst cc)
                    /\ search_member self (snd cc)).
Proof.
  intros Hlen Hall. unfold SCO.breed_pair.
  assert (Hne : sorted <> []) by (destruct sorted; [simpl in Hlen; lia|discriminate]).
  assert (Hin : forall p, In p sorted -> search_member self p).
  { apply Forall_forall. exact Hall. }
  apply (always_bind _ _ _ _ _ _ random_always). intros r _.
  apply (always_bind _ _ _ _
           (fun pp => search_member self (fst pp)
                      /\ search_member self (snd pp))).
  { destruct (Qlt_bool r (25 # 100)).
    - apply (always_bind _ _ _ _ _ _ (choice_always _ sorted Hne)).
      intros p1 Hp1.
      apply (always_bind _ _ _ _ _ _ (copy_member p1 (Hin p1 Hp1))).
      intros parent1 H1.
      apply (always_bind _ _ _ _ _ _ (choice_always _ sorted Hne)).
      intros p2 Hp2.
      apply (always_bind _ _ _ _ _ _ (copy_member p2 (Hin p2 Hp2))).
      intros parent2 H2.
      apply always_ret. split; assumption.
    - apply (always_bind _ _ _ _ _ _
               (randint_always 2 5 ltac:(lia))).
      intros k Hk.
      assert (Hk' : (1 <= k <= Z.of_nat (length sorted))%Z) by lia.
      apply (always_bind _ _ _ _ _ _ (tournament_member sorted k Hk' Hall)).
      intros parent1 H1.
      apply (always_bind _ _ _ _ _ _ (tournament_member sorted k Hk' Hall)).
      intros parent2 H2.
      apply always_ret. split; assumption. }
  intros parents [H1 H2].
  apply (always_bind _ _ _ _ _ _ (crossover_members _ _ H1 H2)).
  intros children [Hc1 Hc2].
  apply (always_bind _ _ _ _ _ _ random_always). intros r1 _.
  apply (always_bind _ _ _ _ (search_member self)).
  { destruct (Qlt_bool r1 current_mutation);
      [apply mutate_member; exact Hc1|apply always_ret; exact Hc1]. }
  intros child1 Hchild1.
  apply (always_bind _ _ _ _ _ _ random_always). intros r2 _.
  apply (always_bind _ _ _ _ (search_member self)).
  { destruct (Qlt_bool r2 current_mutation);
      [apply mutate_member; exact Hc2|apply always_ret; exact Hc2]. }
  intros child2 Hchild2.
  apply (always_bind _ _ _ _
           (fun cc => search_member self (fst cc)
                      /\ search_member self (snd cc))).
  { destruct (25 <? stagnation_counter)%Z;
      [|apply always_ret; split; assumption].
    apply (always_bind _ _ _ _ _ _ random_always). intros r3 _.
    destruct (Qlt_bool r3 (3 # 10)); [|apply always_ret; split; assumption].
    apply (always_bind _ _ _ _ _ _ (randint_always 1 2 ltac:(lia))).
    intros k _. apply extra_mutations_always; assumption. }
  intros mutated [Hm1 Hm2].
  apply (always_bind _ _ _ _ _ _ (evaluate_fitness_member _ Hm1)).
  intros e1 He1.
  apply (always_bind _ _ _ _ _ _ (evaluate_fitness_member _ Hm2)).
  intros e2 He2.
  apply always_ret. split; assumption.
Qed.

Lemma breed_always (room : nat) (sorted : list Individual.t)
  (current_mutation : Q) (stagnation_counter : Z)
  (new_population : list Individual.t) :
  (5 <= length sorted)%nat -> Forall (search_member self) sorted ->
  Forall (search_member self) new_population ->
  always (SCO.breed self room sorted current_mutation stagnation_counter
                    new_population)
         (fun np => length np = (length new_population + room)%nat
                    /\ Forall (search_member self) np).
Proof.
  intros Hlen Hall. revert new_population.
  induction room as [room IH] using (well_founded_induction lt_wf).
  intros new_population Hnp. destruct room as [|[|room]]; simpl.
  - apply always_ret. split; [lia|exact Hnp].
  - apply (always_bind _ _ _ _ _ _
             (breed_pair_always sorted current_mutation stagnation_counter
                Hlen Hall)).
    intros children [H1 _]. apply always_ret.
    rewrite length_app. simpl. split; [lia|].
    apply Forall_app. split; [exact Hnp|]. constructor; [exact H1|].
    constructor.
  - apply (always_bind _ _ _ _ _ _
             (breed_pair_always sorted current_mutation stagnation_counter
                Hlen Hall)).
    intros children [H1 H2].
    assert (Hnp' : Forall (search_member self)
                     ((new_population ++ [fst children])
                        ++ [snd children])).
    { apply Forall_app. split; [apply Forall_app; split|].
      - exact Hnp.
      - constructor; [exact H1|constructor].
      - constructor; [exact H2|constructor]. }
    apply (always_weaken _ _ _ _ (IH room ltac:(lia) _ Hnp')).
    intros np [Hl Hf]. rewrite !length_app in Hl. simpl in Hl.
    split; [lia|exact Hf].
Qed.

Hypothesis Hpop : (5 <= SCO.population_size self)%Z.
Hypothesis Helite : (SCO.elitism_count self <= SCO.population_size self)%Z.

Lemma generation_step_always (generation : Z) (st : SCO.evolve_state) :
  search_population self (SCO.st_population st) ->
  always (SCO.generation_step self generation st)
         (fun st' => search_population self (SCO.st_population st')).
Proof.
  intros [Hlen Hall]. unfold SCO.generation_step. cbv zeta.
  set (sorted := sort_descending Individual.fitness (SCO.st_population st)).
  assert (Hperm : Permutation sorted (SCO.st_population st))
    by apply sort_descending_perm.
  assert (Hslen : length sorted = Z.to_nat (SCO.population_size self)).
  { rewrite (Permutation_length Hperm). exact Hlen. }
  assert (Hsall : Forall (search_member self) sorted).
  { apply Forall_forall. intros p Hp. rewrite Forall_forall in Hall.
    apply Hall. exact (Permutation_in _ Hperm Hp). }
  assert (Hne : sorted <> []).
  { destruct sorted; [simpl in Hslen; lia|discriminate]. }
  apply (always_bind _ _ _ _ _ _ (track_best_always sorted _ _ Hne Hsall)).
  intros [best stag] _. simpl fst. simpl snd.
  assert (Hpos : Forall (fun i => (i < length sorted)%nat)
                        (seq 0 (Z.to_nat (SCO.elitism_count self)))).
  { apply Forall_forall. intros i Hi. apply in_seq in Hi. lia. }
  apply (always_bind _ _ _ _ _ _
           (elites_always sorted _ [] Hpos Hsall (Forall_nil _))).
  intros np1 [Hl1 Hf1]. simpl in Hl1. rewrite length_seq in Hl1.
  apply (always_bind _ _ _ _ _ _ (immigrants_always _ np1 Hf1)).
  intros np2 (Hl2 & Hl2' & Hf2).
  apply (always_bind _ _ _ _ _ _
           (breed_always _ sorted _ _ np2 ltac:(lia) Hsall Hf2)).
  intros np3 [Hl3 Hf3]. apply always_ret. simpl.
  split; [lia|exact Hf3].
Qed.

Lemma generations_loop_always (gens : list Z) (st : SCO.evolve_state) :
  search_population self (SCO.st_population st) ->
  always (SCO.generations_loop self gens st)
         (fun st' => search_population self (SCO.st_population st')).
Proof.
  revert st. induction gens as [|generation gens IH]; intros st Hst; simpl.
  - apply always_ret. exact Hst.
  - apply (always_bind _ _ _ _ _ _ (generation_step_always generation st Hst)).
    intros st' Hst'. apply IH. exact Hst'.
Qed.

End Search.

(** X20.  With at least two rectangles, [max_containers] at least 1, a
    height budget that is not negative, a population of at least five and
    an elitism count within the population size, [evolve] returns from
    every state of the random generator; the population it leaves has
    [population_size] members, each with a permutation of all rectangle
    ids and a container count between 1 and [max_containers]. *)
Theorem evolve_returns (self : SCO.t) :
  (2 <= length (SCO.rectangles self))%nat ->
  (1 <= SCO.max_containers self)%Z ->
  0 <= SCO.max_total_height self ->
  (5 <= SCO.population_size self)%Z ->
  (SCO.elitism_count self <= SCO.population_size self)%Z ->
  always (SCO.evolve self)
         (fun st => search_population self (SCO.st_population st)).
Proof.
  intros Hn Hmc Hmth Hpop Helite. unfold SCO.evolve.
  apply (always_bind _ _ _ _ _ _ (initialize_population_members self Hmc)).
  intros pop [Hlen Hall].
  apply (always_bind _ _ _ _ _ _ (evaluate_all_members self pop Hall)).
  intros pop' [Hlen' Hall'].
  apply (generations_loop_always self Hmc Hn Hmth Hpop Helite).
  simpl. split; [lia|exact Hall'].
Qed.

Lemma evolve_returns_witness :
  always (SCO.evolve steady_search)
         (fun st => search_population steady_search (SCO.st_population st)).
Proof.
  apply (evolve_returns steady_search).
  - simpl. lia.
  - simpl. lia.
  - unfold Qle. simpl. lia.
  - simpl. lia.
  - simpl. lia.
Defined.

(** ** Heights asked for and heights returned *)

Section Allotted.

Variable self : SCO.t.

Lemma place_in_container_fits (c0 c c' : Container.t)
  (rect : Rectangle.t) (rect_idx : Z) :
  rect_at (SCO.rectangles self) rect_idx = rect ->
  fits_height (SCO.rectangles self) c0 c ->
  SCO.place_in_container self c rect rect_idx = Some c' ->
  fits_height (SCO.rectangles self) c0 c'.
Proof.
  intros Hrect [Hh Hall]. unfold SCO.place_in_container.
  destruct (Qlt_bool _ _); [discriminate|].
  assert (Hnew : forall x : Q,
            Qlt_bool (Container.height c) (Rectangle.height rect) = false ->
            Rectangle.height
              (rect_at (SCO.rectangles self) (fst (rect_idx, x)))
            <= Container.height c0).
  { intros x E. simpl. rewrite Hrect, <- Hh. apply Qlt_bool_false. exact E. }
  apply Forall_app in Hall. destruct Hall as [Hb Ht].
  destruct (if SCO.can_place_at_bottom self c rect
            then SCO.find_bottom_position self c rect else None)
    as [x|] eqn:Eb.
  - intro H. injection H as <-.
    destruct (SCO.can_place_at_bottom self c rect) eqn:Ecan; [|discriminate].
    unfold SCO.can_place_at_bottom in Ecan.
    destruct (Qlt_bool (Container.height c) (Rectangle.height rect)) eqn:E;
      [discriminate|].
    split; [exact Hh|]. simpl.
    apply Forall_app. split; [|exact Ht].
    apply Forall_app. split; [exact Hb|].
    constructor; [exact (Hnew x eq_refl)|constructor].
  - clear Eb.
    destruct (if SCO.can_place_at_top self c rect
              then SCO.find_top_position self c rect else None)
      as [x|] eqn:Et; [|discriminate].
    intro H. injection H as <-.
    destruct (SCO.can_place_at_top self c rect) eqn:Ecan; [|discriminate].
    unfold SCO.can_place_at_top in Ecan.
    destruct (Qlt_bool (Container.height c) (Rectangle.height rect)) eqn:E;
      [discriminate|].
    split; [exact Hh|]. simpl.
    apply Forall_app. split; [exact Hb|].
    apply Forall_app. split; [exact Ht|].
    constructor; [exact (Hnew x eq_refl)|constructor].
Qed.

Lemma place_rectangle_fits (rect : Rectangle.t) (rect_idx : Z)
  (c0s cs cs' : list Container.t) (k k' : Z) :
  rect_at (SCO.rectangles self) rect_idx = rect ->
  Forall2 (fits_height (SCO.rectangles self)) c0s cs ->
  SCO.place_rectangle self rect rect_idx k cs = Some (cs', k') ->
  Forall2 (fits_height (SCO.rectangles self)) c0s cs'.
Proof.
  intros Hrect Hcs. revert cs' k k'.
  induction Hcs as [|c0 c c0s cs Hc Hcs IH]; intros cs' k k'; simpl.
  - discriminate.
  - destruct (SCO.place_in_container self c rect rect_idx) as [c1|] eqn:E.
    + intro H. injection H as Hcs' Hk. subst cs'. constructor; [|exact Hcs].
      exact (place_in_container_fits c0 c c1 rect rect_idx Hrect Hc E).
    + destruct (SCO.place_rectangle self rect rect_idx (k + 1) cs)
        as [[rest' k1]|] eqn:E'; [|discriminate].
      intro H. injection H as Hcs' Hk. subst cs' k1.
      constructor; [exact Hc|].
      exact (IH rest' (k + 1)%Z k' E').
Qed.

Lemma place_all_fits (order : list Z) (c0s cs cs' : list Container.t)
  (n n' : Z) (a a' : list Z) :
  Forall2 (fits_height (SCO.rectangles self)) c0s cs ->
  SCO.place_all self order (cs, n, a) = Ok (cs', n', a') ->
  Forall2 (fits_height (SCO.rectangles self)) c0s cs'.
Proof.
  revert cs n a. induction order as [|i order IH]; intros cs n a Hcs; simpl.
  - intro H. injection H as Hcs' _ _. subst cs'. exact Hcs.
  - destruct (index (SCO.rectangles self) i) as [rect|] eqn:Ei;
      [|discriminate].
    assert (Hrect : rect_at (SCO.rectangles self) i = rect)
      by (unfold rect_at; rewrite Ei; reflexivity).
    destruct (SCO.place_rectangle self rect i 0 cs) as [[cs1 k]|] eqn:E.
    + destruct (setitem a i k) as [a1|]; [|discriminate].
      apply IH.
      exact (place_rectangle_fits rect i c0s cs cs1 0%Z k Hrect Hcs E).
    + destruct (setitem a i (-1)%Z) as [a1|]; [|discriminate].
      apply IH. exact Hcs.
Qed.

Lemma initial_containers_fit (individual : Individual.t) :
  Forall2 (fits_height (SCO.rectangles self))
          (SCO.initial_containers self individual)
          (SCO.initial_containers self individual).
Proof.
  unfold SCO.initial_containers.
  induction (seq 0 (Z.to_nat (Individual.num_containers individual)))
    as [|i l IH]; simpl; constructor; [|exact IH].
  split; [reflexivity|constructor].
Qed.

End Allotted.

(** X21.  [pack_rectangles] puts no rectangle into a container that was
    asked to be lower than the rectangle: every item of a returned
    container is at most as high as the height the individual asked for
    that container.  A returned container without items keeps the height
    asked for. *)
Theorem pack_rectangles_within_allotted_heights
  (self : SCO.t) (individual : Individual.t) (g g' : rng)
  (cs : list Container.t) (n : Z) (a : list Z) :
  SCO.pack_rectangles self individual g = Ok (cs, n, a, g') ->
  Forall2 (within_allotted (SCO.rectangles self))
          (SCO.initial_containers self individual) cs.
Proof.
  intro Hp.
  destruct (pack_rectangles_inv self individual g g' cs n a Hp)
    as (cs0 & Hplace & F).
  assert (H0 : Forall2 (fits_height (SCO.rectangles self))
                       (SCO.initial_containers self individual) cs0).
  { unfold SCO.place in Hplace.
    exact (place_all_fits self _ _ _ _ _ _ _ _
             (initial_containers_fit self individual) Hplace). }
  clear Hp Hplace. revert cs F.
  induction H0 as [|c0 c1 c0s cs0 [Hh Hfit] H0 IH]; intros cs F;
    inversion F as [|? c ? cs' J F']; subst; constructor;
    [|apply IH; exact F'].
  unfold within_allotted.
  destruct (jittered_items self c1 c J) as (Eb & Et & _).
  rewrite Eb, Et. split; [exact Hfit|].
  rewrite (jittered_has_items self c1 c J). intro Hi.
  unfold jittered in J. rewrite Hi in J. subst c. exact Hh.
Qed.

Lemma pack_rectangles_within_allotted_heights_witness :
  Forall2 (within_allotted (SCO.rectangles scenario_c))
          (SCO.initial_containers scenario_c
             (scenario_c_individual [0; 1]%Z))
          scenario_c_packed.
Proof.
  apply (pack_rectangles_within_allotted_heights
           scenario_c (scenario_c_individual [0; 1]%Z)
           (constant_rng 0) (mkRng (fun _ => 0%Z) 1)
           scenario_c_packed 2%Z [0; 0]%Z).
  vm_compute. reflexivity.
Defined.

(** ** What [evaluate_fitness] can raise *)

Lemma pack_rectangles_raise (self : SCO.t) (individual : Individual.t)
  (g : rng) (e : exn) :
  SCO.pack_rectangles self individual g = Raise e ->
  e = IndexError
  /\ Exists (fun i => index (SCO.rectangles self) i = None)
            (Individual.rectangle_order individual).
Proof.
  intro H. split.
  - unfold SCO.pack_rectangles in H.
    destruct (SCO.place self individual) as [[[cs0 n0] a0]|e0] eqn:Ep.
    + destruct (pack_rectangles_returns self individual g cs0 n0 a0 Ep)
        as (cs & g' & Hp & _).
      unfold SCO.pack_rectangles in Hp. rewrite Ep in Hp. congruence.
    + unfold bind, lift in H. injection H as <-.
      exact (place_all_raise self _ _ _ Ep).
  - assert (Hnot : ~ Forall (fun i => index (SCO.rectangles self) i <> None)
                            (Individual.rectangle_order individual)).
    { intro Hall.
      destruct (pack_rectangles_returns_on_table_order self individual g Hall)
        as (cs & n & a & g' & Hp).
      congruence. }
    apply neg_Forall_Exists_neg in Hnot.
    + apply Exists_exists in Hnot. destruct Hnot as (i & Hi & Hn).
      apply Exists_exists. exists i. split; [exact Hi|].
      destruct (index (SCO.rectangles self) i); [|reflexivity].
      exfalso. apply Hn. discriminate.
    + intro i. destruct (index (SCO.rectangles self) i);
        [left; discriminate|right; intro H'; apply H'; reflexivity].
Qed.

Lemma pack_rectangles_ok_table (self : SCO.t) (individual : Individual.t)
  (g g' : rng) (cs : list Container.t) (n : Z) (a : list Z) :
  SCO.pack_rectangles self individual g = Ok (cs, n, a, g') ->
  Forall (fun i => index (SCO.rectangles self) i <> None)
         (Individual.rectangle_order individual).
Proof.
  intro Hp.
  destruct (pack_rectangles_inv self individual g g' cs n a Hp)
    as (cs0 & Hplace & _).
  exact (place_all_ok_table self _ _ _ Hplace).
Qed.

(** X23.  [evaluate_fitness] returns whenever every id of the order
    indexes the rectangle table and [max_containers] is not 0, and then
    leaves the order, the container count, the heights and
    [max_containers] of the individual as they were.  An id outside the
    table makes it raise [IndexError]; the only other exception is
    [ZeroDivisionError], and only with [max_containers] equal to 0. *)
Theorem evaluate_fitness_outcome (self : SCO.t) (individual : Individual.t) :
  (Forall (fun i => index (SCO.rectangles self) i <> None)
          (Individual.rectangle_order individual) ->
   SCO.max_containers self <> 0%Z ->
   always (SCO.evaluate_fitness self individual)
          (fun i =>
             Individual.rectangle_order i
             = Individual.rectangle_order individual
             /\ Individual.num_containers i
                = Individual.num_containers individual
             /\ Individual.max_containers i
                = Individual.max_containers individual
             /\ Individual.container_heights i
                = Individual.container_heights individual))
  /\ (Exists (fun i => index (SCO.rectangles self) i = None)
             (Individual.rectangle_order individual) ->
      raises (SCO.evaluate_fitness self individual) IndexError)
  /\ only_raises (SCO.evaluate_fitness self individual)
       (fun e =>
          (e = IndexError
           /\ Exists (fun i => index (SCO.rectangles self) i = None)
                     (Individual.rectangle_order individual))
          \/ (e = ZeroDivisionError /\ SCO.max_containers self = 0%Z)).
Proof.
  split; [apply evaluate_fitness_always|]. split.
  - intros Hex g. unfold SCO.evaluate_fitness.
    destruct (SCO.pack_rectangles self individual g)
      as [[[[cs n] a] g']|e] eqn:Hp.
    + exfalso.
      pose proof (pack_rectangles_ok_table self individual g g' cs n a Hp)
        as Hall.
      apply Exists_exists in Hex. destruct Hex as (i & Hi & Hnone).
      rewrite Forall_forall in Hall. exact (Hall i Hi Hnone).
    + destruct (pack_rectangles_raise self individual g e Hp) as [-> _].
      apply bind_Raise. exact Hp.
  - intros g e. unfold SCO.evaluate_fitness.
    destruct (SCO.pack_rectangles self individual g)
      as [[[[cs n] a] g']|e'] eqn:Hp.
    + rewrite (bind_Ok _ _ _ _ _ _ _ Hp). cbv beta iota zeta.
      destruct (n =? 0)%Z; [discriminate|].
      unfold SCO.combined_fitness. cbv zeta.
      destruct (SCO.max_containers self =? 0)%Z eqn:E0; [|discriminate].
      apply Z.eqb_eq in E0. unfold bind, lift. intro H. injection H as <-.
      right. split; [reflexivity|exact E0].
    + rewrite (bind_Raise _ _ _ _ _ _ Hp). intro H. injection H as <-.
      left. exact (pack_rectangles_raise self individual g e' Hp).
Qed.

(** ** An elitism count beyond the population *)

Lemma elites_raises (self : SCO.t) (sorted : list Individual.t) (k a : nat)
  (new_population : list Individual.t) :
  Forall (search_member self) sorted ->
  (a <= length sorted < a + k)%nat ->
  raises (SCO.elites sorted (seq a k) new_population) IndexError.
Proof.
  intro Hall. revert a new_population.
  induction k as [|k IH]; intros a new_population Ha; [lia|]. simpl.
  destruct (nth_error sorted a) as [p|] eqn:E.
  - assert (Hlt : (a < length sorted)%nat).
    { apply nth_error_Some. congruence. }
    assert (Hp : search_member self p).
    { rewrite Forall_forall in Hall. apply Hall.
      exact (nth_error_In _ _ E). }
    apply (raises_after _ _ _ _ _ _ (copy_member self p Hp)).
    intros c _. apply IH. lia.
  - intro g. reflexivity.
Qed.

(** X24.  With [max_containers] at least 1, at least one generation to
    run and an elitism count above the population size, [evolve] raises
    [IndexError]: the elitism loop reads past the end of the population
    (with an empty population, the ranking before it finds nothing). *)
Theorem evolve_elitism_beyond_population (self : SCO.t) :
  (1 <= SCO.max_containers self)%Z ->
  (1 <= SCO.generations self)%Z ->
  (SCO.population_size self < SCO.elitism_count self)%Z ->
  raises (SCO.evolve self) IndexError.
Proof.
  intros Hmc Hg He. unfold SCO.evolve.
  apply (raises_after _ _ _ _ _ _ (initialize_population_members self Hmc)).
  intros pop [Hlen Hall].
  apply (raises_after _ _ _ _ _ _ (evaluate_all_members self pop Hall)).
  intros pop' [Hlen' Hall'].
  destruct (Z.to_nat (SCO.generations self)) as [|k] eqn:Ek; [lia|].
  unfold range. simpl. apply raises_bind.
  unfold SCO.generation_step. cbv zeta. simpl SCO.st_population.
  set (sorted := sort_descending Individual.fitness pop').
  assert (Hperm : Permutation sorted pop') by apply sort_descending_perm.
  assert (Hslen : length sorted = Z.to_nat (SCO.population_size self)).
  { rewrite (Permutation_length Hperm). lia. }
  assert (Hsall : Forall (search_member self) sorted).
  { apply Forall_forall. intros p Hp. rewrite Forall_forall in Hall'.
    apply Hall'. exact (Permutation_in _ Hperm Hp). }
  destruct sorted as [|top rest] eqn:Es.
  - intro g. reflexivity.
  - rewrite <- Es in *.
    assert (Hne : sorted <> []) by (rewrite Es; discriminate).
    apply (raises_after _ _ _ _ _ _
             (track_best_always self sorted _ _ Hne Hsall)).
    intros tracked _. apply raises_bind.
    apply (elites_raises self); [exact Hsall|].
    assert (0 < length sorted)%nat by (rewrite Es; simpl; lia). lia.
Qed.

Lemma evolve_elitism_beyond_population_witness :
  raises (SCO.evolve greedy_search) IndexError.
Proof.
  apply (evolve_elitism_beyond_population greedy_search); simpl; lia.
Defined.

(** ** The first rectangle of the order *)

Section FirstRectangle.

Variable self : SCO.t.

(** An empty container takes a rectangle it is wide and high enough for
    at the left end of its bottom edge. *)
Lemma place_in_empty_container (w h : Q) (k : Z) (rect : Rectangle.t)
  (rect_idx : Z) :
  Rectangle.width rect <= w -> Rectangle.height rect <= h -> 0 <= h ->
  SCO.place_in_container self (Container.new w h k) rect rect_idx
  = Some (Container.append_bottom (Container.new w h k) (rect_idx, 0)).
Proof.
  intros Hw Hh H0. unfold SCO.place_in_container. simpl.
  assert (E1 : Qlt_bool w (Rectangle.width rect) = false).
  { destruct (Qlt_bool w (Rectangle.width rect)) eqn:E; [|reflexivity].
    apply Qlt_bool_true in E. lra. }
  rewrite E1.
  assert (E2 : SCO.can_place_at_bottom self (Container.new w h k) rect
               = true).
  { unfold SCO.can_place_at_bottom. simpl.
    destruct (Qlt_bool h (Rectangle.height rect)) eqn:E;
      [apply Qlt_bool_true in E; lra|].
    apply Qle_bool_iff.
    unfold Container.get_bottom_height, Container.get_top_height,
      Container.edge_height. simpl.
    apply Q.max_lub; lra. }
  rewrite E2. unfold SCO.find_bottom_position. rewrite E2. simpl.
  assert (E3 : Qle_bool (0 + Rectangle.width rect) w = true).
  { apply Qle_bool_iff. lra. }
  rewrite E3. reflexivity.
Qed.

Lemma place_in_container_keeps_head (c c' : Container.t)
  (rect : Rectangle.t) (rect_idx : Z) (p : Z * Q) :
  hd_error (Container.bottom_rectangles c) = Some p ->
  SCO.place_in_container self c rect rect_idx = Some c' ->
  hd_error (Container.bottom_rectangles c') = Some p.
Proof.
  intro Hp. unfold SCO.place_in_container.
  destruct (Qlt_bool _ _); [discriminate|].
  destruct (if SCO.can_place_at_bottom self c rect
            then SCO.find_bottom_position self c rect else None) as [x|].
  - intro H. injection H as <-. simpl.
    destruct (Container.bottom_rectangles c); [discriminate|exact Hp].
  - destruct (if SCO.can_place_at_top self c rect
              then SCO.find_top_position self c rect else None) as [x|];
      [|discriminate].
    intro H. injection H as <-. exact Hp.
Qed.

Lemma place_all_keeps_head (order : list Z) (c : Container.t)
  (cs cs' : list Container.t) (n n' : Z) (a a' : list Z) (p : Z * Q) :
  hd_error (Container.bottom_rectangles c) = Some p ->
  SCO.place_all self order (c :: cs, n, a) = Ok (cs', n', a') ->
  (n <= n')%Z
  /\ exists c' rest,
       cs' = c' :: rest
       /\ hd_error (Container.bottom_rectangles c') = Some p.
Proof.
  revert c cs n a.
  induction order as [|i order IH]; intros c cs n a Hp.
  - simpl. intro H. injection H as <- <- _. split; [lia|].
    exists c, cs. split; [reflexivity|exact Hp].
  - cbn [SCO.place_all].
    destruct (index (SCO.rectangles self) i) as [rect|]; [|discriminate].
    cbn [SCO.place_rectangle].
    destruct (SCO.place_in_container self c rect i) as [c1|] eqn:E.
    + destruct (setitem a i 0%Z) as [a1|]; [|discriminate].
      intro H.
      destruct (IH c1 cs (n + 1)%Z a1
                  (place_in_container_keeps_head c c1 rect i p Hp E) H)
        as [Hn Hc].
      split; [lia|exact Hc].
    + destruct (SCO.place_rectangle self rect i (0 + 1) cs)
        as [[rest' k]|].
      * destruct (setitem a i k) as [a1|]; [|discriminate].
        intro H. destruct (IH c rest' (n + 1)%Z a1 Hp H) as [Hn Hc].
        split; [lia|exact Hc].
      * destruct (setitem a i (-1)%Z) as [a1|]; [|discriminate].
        intro H. exact (IH c cs n a1 Hp H).
Qed.

End FirstRectangle.

(** X26.  When the first rectangle of the order is no wider and no higher
    than the first container the individual asks for, and that container's
    height is not negative, [pack_rectangles] places it at x = 0 on the
    bottom edge of that container; so at least one rectangle is placed. *)
Theorem first_rectangle_is_placed
  (self : SCO.t) (individual : Individual.t) (g g' : rng)
  (cs : list Container.t) (n : Z) (a : list Z)
  (i : Z) (rest : list Z) (rect : Rectangle.t)
  (c0 : Container.t) (others : list Container.t) :
  Individual.rectangle_order individual = i :: rest ->
  index (SCO.rectangles self) i = Some rect ->
  SCO.initial_containers self individual = c0 :: others ->
  Rectangle.width rect <= Container.width c0 ->
  Rectangle.height rect <= Container.height c0 ->
  0 <= Container.height c0 ->
  SCO.pack_rectangles self individual g = Ok (cs, n, a, g') ->
  (1 <= n)%Z
  /\ exists c cs',
       cs = c :: cs'
       /\ hd_error (Container.bottom_rectangles c) = Some (i, 0).
Proof.
  intros Ho Hi Hinit Hw Hh H0 Hp.
  destruct (pack_rectangles_inv self individual g g' cs n a Hp)
    as (cs0 & Hplace & F).
  unfold SCO.place in Hplace. rewrite Ho, Hinit in Hplace.
  assert (Hc0 : c0 = Container.new (Container.width c0) (Container.height c0)
                       (Container.id c0)).
  { unfold SCO.initial_containers in Hinit.
    destruct (seq 0 (Z.to_nat (Individual.num_containers individual)))
      as [|k ks]; [discriminate|].
    simpl in Hinit. injection Hinit as <- _. reflexivity. }
  cbn [SCO.place_all SCO.place_rectangle] in Hplace. rewrite Hi in Hplace.
  rewrite Hc0 in Hplace.
  rewrite (place_in_empty_container self _ _ _ rect i Hw Hh H0) in Hplace.
  destruct (setitem _ i 0%Z) as [a1|]; [|discriminate].
  apply place_all_keeps_head with (p := (i, 0)) in Hplace; [|reflexivity].
  destruct Hplace as (Hn & c' & rest' & -> & Hhd).
  split; [lia|].
  inversion F as [|? c ? cs' J F']; subst.
  exists c, cs'. split; [reflexivity|].
  destruct (jittered_items self c' c J) as (-> & _). exact Hhd.
Qed.

Lemma first_rectangle_is_placed_witness :
  (1 <= 2)%Z
  /\ exists c cs',
       scenario_c_packed = c :: cs'
       /\ hd_error (Container.bottom_rectangles c) = Some (0%Z, 0).
Proof.
  apply (first_rectangle_is_placed
           scenario_c (scenario_c_individual [0; 1]%Z)
           (constant_rng 0) (mkRng (fun _ => 0%Z) 1)
           scenario_c_packed 2%Z [0; 0]%Z
           0%Z [1%Z] (Rectangle.mk 5 3 0) (Container.new 5 10 0) []).
  - reflexivity.
  - reflexivity.
  - vm_compute. reflexivity.
  - unfold Qle. simpl. lia.
  - unfold Qle. simpl. lia.
  - unfold Qle. simpl. lia.
  - vm_compute. reflexivity.
Defined.

(** ** What the constructor derives *)

Lemma number_rectangles_nth (rects : list (Q * Q)) (i : Z) (k : nat)
  (w h : Q) :
  nth_error rects k = Some (w, h) ->
  nth_error (SCO.number_rectangles i rects) k
  = Some (Rectangle.mk w h (i + Z.of_nat k)).
Proof.
  revert i k. induction rects as [|[w0 h0] rects IH]; intros i k.
  - destruct k; discriminate.
  - destruct k as [|k]; simpl.
    + intro H. injection H as -> ->. rewrite Z.add_0_r. reflexivity.
    + intro H. rewrite (IH (i + 1)%Z k H). do 2 f_equal. lia.
Qed.

Lemma number_rectangles_length (rects : list (Q * Q)) (i : Z) :
  length (SCO.number_rectangles i rects) = length rects.
Proof.
  revert i. induction rects as [|[w h] rects IH]; intro i; simpl;
    [reflexivity|]. rewrite IH. reflexivity.
Qed.

(** X27.  When the constructor returns, the optimizer holds one rectangle
    per input pair, in the input order, with the width and height of the
    pair and its position as id. *)
Theorem init_numbers_rectangles
  (rects : list (Q * Q)) (cw mth : Q) (mc population_size generations : Z)
  (mutation_rate crossover_rate : Q) (elitism_rate : float) (o : SCO.t) :
  SCO.init rects cw mth mc population_size generations mutation_rate
           crossover_rate elitism_rate = Ok o ->
  length (SCO.rectangles o) = length rects
  /\ forall k w h,
       nth_error rects k = Some (w, h) ->
       nth_error (SCO.rectangles o) k
       = Some (Rectangle.mk w h (Z.of_nat k)).
Proof.
  unfold SCO.init.
  destruct (SCO.elitism_count_of population_size elitism_rate) as [c|e];
    [|discriminate].
  intro H. injection H as <-. simpl.
  split; [apply number_rectangles_length|].
  intros k w h H. exact (number_rectangles_nth rects 0 k w h H).
Qed.

Lemma init_numbers_rectangles_witness :
  length (SCO.rectangles scenario_c) = length [(5, 3); (5, 3)]
  /\ forall k w h,
       nth_error [(5, 3); (5, 3)] k = Some (w, h) ->
       nth_error (SCO.rectangles scenario_c) k
       = Some (Rectangle.mk w h (Z.of_nat k)).
Proof.
  apply (init_numbers_rectangles
           [(5, 3); (5, 3)] 5 10 1 100 500 (2 # 10) (8 # 10) 0.1%float
           scenario_c).
  vm_compute. reflexivity.
Defined.

(** ** The assignment table *)

Section Assignments.

Variable self : SCO.t.

Lemma place_in_container_holds (c c' : Container.t) (rect : Rectangle.t)
  (rect_idx : Z) :
  SCO.place_in_container self c rect rect_idx = Some c' ->
  In rect_idx (container_ids c')
  /\ incl (container_ids c) (container_ids c').
Proof.
  unfold SCO.place_in_container, container_ids.
  destruct (Qlt_bool _ _); [discriminate|].
  destruct (if SCO.can_place_at_bottom self c rect
            then SCO.find_bottom_position self c rect else None).
  - intro H. injection H as <-. simpl. rewrite map_app. simpl. split.
    + apply in_or_app. left. apply in_or_app. right. left. reflexivity.
    + intros x Hx. apply in_app_or in Hx. apply in_or_app.
      destruct Hx as [Hx|Hx]; [left; apply in_or_app; left; exact Hx|].
      right. exact Hx.
  - destruct (if SCO.can_place_at_top self c rect
              then SCO.find_top_position self c rect else None);
      [|discriminate].
    intro H. injection H as <-. simpl. rewrite map_app. simpl. split.
    + apply in_or_app. right. apply in_or_app. right. left. reflexivity.
    + intros x Hx. apply in_app_or in Hx. apply in_or_app.
      destruct Hx as [Hx|Hx]; [left; exact Hx|].
      right. apply in_or_app. left. exact Hx.
Qed.

(** The index [place_rectangle] returns is the position of the container
    that took the rectangle; every container keeps the ids it had. *)
Lemma place_rectangle_at (rect : Rectangle.t) (rect_idx : Z)
  (cs cs' : list Container.t) (k0 k' : Z) :
  SCO.place_rectangle self rect rect_idx k0 cs = Some (cs', k') ->
  (exists m c',
      k' = (k0 + Z.of_nat m)%Z
      /\ nth_error cs' m = Some c'
      /\ In rect_idx (container_ids c'))
  /\ (forall m c,
        nth_error cs m = Some c ->
        exists c', nth_error cs' m = Some c'
                   /\ incl (container_ids c) (container_ids c')).
Proof.
  revert cs' k0 k'. induction cs as [|c cs IH]; intros cs' k0 k'; simpl.
  - discriminate.
  - destruct (SCO.place_in_container self c rect rect_idx) as [c1|] eqn:E.
    + intro H. injection H as <- <-.
      destruct (place_in_container_holds c c1 rect rect_idx E) as [Hin Hinc].
      split.
      * exists 0%nat, c1. split; [simpl; lia|]. split; [reflexivity|exact Hin].
      * intros [|m] c0; simpl.
        -- intro H. injection H as <-. exists c1.
           split; [reflexivity|exact Hinc].
        -- intro H. exists c0. split; [exact H|apply incl_refl].
    + destruct (SCO.place_rectangle self rect rect_idx (k0 + 1) cs)
        as [[rest' k1]|] eqn:E'; [|discriminate].
      intro H. injection H as <- <-.
      destruct (IH rest' (k0 + 1)%Z k1 E') as [(m & c' & Hk & Hn & Hin) Hkeep].
      split.
      * exists (S m), c'. split; [lia|]. split; [exact Hn|exact Hin].
      * intros [|m'] c0; simpl.
        -- intro H. injection H as <-. exists c.
           split; [reflexivity|apply incl_refl].
        -- apply Hkeep.
Qed.

Lemma index_set_nth_same (a : list Z) (i v : Z) :
  (0 <= i < Z.of_nat (length a))%Z ->
  index (set_nth a (Z.to_nat i) v) i = Some v.
Proof.
  intro Hi. unfold index.
  destruct (0 <=? i)%Z eqn:E; [|apply Z.leb_gt in E; lia].
  apply nth_error_set_nth_same. lia.
Qed.

Lemma index_set_nth_other (a : list Z) (i j v : Z) :
  (0 <= i)%Z -> (0 <= j)%Z -> i <> j ->
  index (set_nth a (Z.to_nat i) v) j = index a j.
Proof.
  intros Hi Hj Hij. unfold index. rewrite set_nth_length.
  destruct (0 <=? j)%Z eqn:E; [|apply Z.leb_gt in E; lia].
  apply nth_error_set_nth_other. lia.
Qed.

Lemma setitem_in_range (a : list Z) (i v : Z) :
  (0 <= i < Z.of_nat (length a))%Z ->
  setitem a i v = Some (set_nth a (Z.to_nat i) v).
Proof.
  intro Hi. unfold setitem.
  destruct (0 <=? i)%Z eqn:E0; [|apply Z.leb_gt in E0; lia].
  destruct (i <? Z.of_nat (length a))%Z eqn:E1;
    [reflexivity|apply Z.ltb_ge in E1; lia].
Qed.

Lemma place_all_assignments (order : list Z) (cs cs' : list Container.t)
  (n n' : Z) (a a' : list Z) (ids : list Z) :
  NoDup order ->
  Forall (fun i => (0 <= i < Z.of_nat (length a))%Z) (order ++ ids) ->
  (forall i, In i order -> ~ In i (item_ids cs)) ->
  (forall id, In id (order ++ ids) -> assignment_agrees cs a id) ->
  SCO.place_all self order (cs, n, a) = Ok (cs', n', a') ->
  length a' = length a
  /\ forall id, In id (order ++ ids) -> assignment_agrees cs' a' id.
Proof.
  revert cs n a ids.
  induction order as [|i order IH]; intros cs n a ids Hnd Hrange Hfree Hagree.
  - simpl. intro H. injection H as <- _ <-. split; [reflexivity|exact Hagree].
  - cbn [SCO.place_all].
    destruct (index (SCO.rectangles self) i) as [rect|]; [|discriminate].
    inversion Hnd as [|? ? Hni Hnd']; subst.
    assert (Hi : (0 <= i < Z.of_nat (length a))%Z).
    { rewrite Forall_forall in Hrange. apply Hrange. left. reflexivity. }
    assert (Hin_range : forall j, In j (order ++ i :: ids) ->
                                  (0 <= j < Z.of_nat (length a))%Z).
    { intros j Hj. rewrite Forall_forall in Hrange. apply Hrange.
      apply in_app_or in Hj. simpl.
      destruct Hj as [Hj|[Hj|Hj]]; [right|left|right]; try exact Hj;
        apply in_or_app; [left|right]; exact Hj. }
    assert (Hstep : forall cs1 a1,
              length a1 = length a ->
              (forall j, In j order -> ~ In j (item_ids cs1)) ->
              (forall id, In id (order ++ i :: ids) ->
                          assignment_agrees cs1 a1 id) ->
              forall n1,
              SCO.place_all self order (cs1, n1, a1) = Ok (cs', n', a') ->
              length a' = length a
              /\ forall id, In id ((i :: order) ++ ids) ->
                            assignment_agrees cs' a' id).
    { intros cs1 a1 Hl1 Hfree1 Hagree1 n1 H.
      destruct (IH cs1 n1 a1 (i :: ids) Hnd') as [Hl Hag]; try assumption.
      - apply Forall_forall. intros j Hj. rewrite Hl1. apply Hin_range.
        exact Hj.
      - split; [congruence|]. intros id Hid. apply Hag.
        simpl in Hid. apply in_or_app.
        destruct Hid as [<-|Hid]; [right; left; reflexivity|].
        apply in_app_or in Hid.
        destruct Hid as [Hid|Hid]; [left; exact Hid|right; right; exact Hid]. }
    destruct (SCO.place_rectangle self rect i 0 cs) as [[cs1 k]|] eqn:E.
    + rewrite (setitem_in_range a i k Hi).
      destruct (place_rectangle_at rect i cs cs1 0%Z k E)
        as [(m & c' & Hk & Hm & Hin) Hkeep].
      pose proof (place_rectangle_ids_perm self rect i cs cs1 0%Z k E)
        as Hperm.
      apply Hstep.
      * apply set_nth_length.
      * intros j Hj Hin1. apply (Permutation_in _ Hperm) in Hin1.
        destruct Hin1 as [<-|Hin1]; [exact (Hni Hj)|].
        apply (Hfree j); [right; exact Hj|exact Hin1].
      * intros id Hid.
        destruct (Z.eq_dec id i) as [->|Hne].
        -- left. exists m, c'. rewrite index_set_nth_same by exact Hi.
           split; [f_equal; lia|]. split; [exact Hm|exact Hin].
        -- assert (Hid' : In id ((i :: order) ++ ids)).
           { simpl. right. apply in_app_or in Hid. apply in_or_app.
             destruct Hid as [Hid|[Hid|Hid]];
               [left; exact Hid|congruence|right; exact Hid]. }
           pose proof (Hin_range id Hid) as Hr.
           unfold assignment_agrees.
           rewrite (index_set_nth_other a i id k) by (try lia; congruence).
           destruct (Hagree id Hid') as [(kj & c & Ha & Hc & Hinj)|[Ha Hnot]].
           ++ left. destruct (Hkeep kj c Hc) as (c1 & Hc1 & Hinc).
              exists kj, c1. split; [exact Ha|]. split; [exact Hc1|].
              apply Hinc. exact Hinj.
           ++ right. split; [exact Ha|]. intro Hin1.
              apply (Permutation_in _ Hperm) in Hin1.
              destruct Hin1 as [Heq|Hin1]; [congruence|exact (Hnot Hin1)].
    + rewrite (setitem_in_range a i (-1)%Z Hi).
      apply Hstep.
      * apply set_nth_length.
      * intros j Hj. apply Hfree. right. exact Hj.
      * intros id Hid.
        destruct (Z.eq_dec id i) as [->|Hne].
        -- right. rewrite index_set_nth_same by exact Hi.
           split; [reflexivity|]. apply Hfree. left. reflexivity.
        -- assert (Hid' : In id ((i :: order) ++ ids)).
           { simpl. right. apply in_app_or in Hid. apply in_or_app.
             destruct Hid as [Hid|[Hid|Hid]];
               [left; exact Hid|congruence|right; exact Hid]. }
           pose proof (Hin_range id Hid) as Hr.
           unfold assignment_agrees.
           rewrite (index_set_nth_other a i id (-1)%Z)
             by (try lia; congruence).
           exact (Hagree id Hid').
Qed.

Lemma jittered_nth_error (cs0 cs : list Container.t) (k : nat)
  (c0 : Container.t) :
  Forall2 (jittered self) cs0 cs -> nth_error cs0 k = Some c0 ->
  exists c, nth_error cs k = Some c /\ container_ids c = container_ids c0.
Proof.
  intro F. revert k. induction F as [|x y cs0 cs J _ IH]; intros [|k];
    simpl; try discriminate.
  - intro H. injection H as <-. exists y. split; [reflexivity|].
    unfold container_ids.
    destruct (jittered_items self x y J) as (-> & -> & _). reflexivity.
  - apply IH.
Qed.

End Assignments.

(** X28.  For an order that is a permutation of all rectangle ids, the
    assignment table [pack_rectangles] leaves has one entry per rectangle
    and agrees with the returned containers: the entry of an id is the
    position of a container that holds the id, or it is -1 and no
    container holds the id. *)
Theorem pack_rectangles_assignments_agree
  (self : SCO.t) (individual : Individual.t) (g g' : rng)
  (cs : list Container.t) (n : Z) (a : list Z) :
  valid_individual (length (SCO.rectangles self)) individual ->
  SCO.pack_rectangles self individual g = Ok (cs, n, a, g') ->
  length a = length (SCO.rectangles self)
  /\ forall id, In id (Individual.rectangle_order individual) ->
                assignment_agrees cs a id.
Proof.
  intros Hv Hp.
  destruct (pack_rectangles_inv self individual g g' cs n a Hp)
    as (cs0 & Hplace & F).
  unfold SCO.place in Hplace.
  assert (Hinit : item_ids (SCO.initial_containers self individual) = []).
  { unfold item_ids, SCO.initial_containers.
    induction (seq 0 (Z.to_nat (Individual.num_containers individual)))
      as [|i l IH]; simpl; [reflexivity|exact IH]. }
  assert (Hrange : forall i, In i (Individual.rectangle_order individual) ->
             (0 <= i < Z.of_nat (length (SCO.rectangles self)))%Z).
  { intros i Hi. apply (Permutation_in _ Hv) in Hi. unfold range in Hi.
    apply in_map_iff in Hi. destruct Hi as (k & <- & Hk).
    apply in_seq in Hk. lia. }
  destruct (place_all_assignments self _ _ _ _ _ _ _ []
              (Permutation_NoDup (Permutation_sym Hv) (range_NoDup _))
              ltac:(rewrite app_nil_r, repeat_length; apply Forall_forall;
                    exact Hrange)
              ltac:(intros i _; rewrite Hinit; intros [])
              ltac:(intros id Hid; rewrite app_nil_r in Hid; right;
                    split; [|rewrite Hinit; intros []];
                    pose proof (Hrange id Hid) as Hr; unfold index;
                    destruct (0 <=? id)%Z eqn:E;
                    [|apply Z.leb_gt in E; lia];
                    apply nth_error_repeat; lia)
              Hplace) as [Hlen Hag].
  rewrite repeat_length in Hlen. split; [exact Hlen|].
  intros id Hid. rewrite app_nil_r in Hag.
  destruct (Hag id Hid) as [(k & c0 & Ha & Hc & Hin)|[Ha Hnot]].
  - left. destruct (jittered_nth_error self cs0 cs k c0 F Hc)
      as (c & Hc' & Hids).
    exists k, c. split; [exact Ha|]. split; [exact Hc'|].
    rewrite Hids. exact Hin.
  - right. split; [exact Ha|].
    rewrite (jittered_item_ids self cs0 cs F). exact Hnot.
Qed.

Lemma pack_rectangles_assignments_agree_witness :
  length [0; 0]%Z = length (SCO.rectangles scenario_c)
  /\ forall id,
       In id (Individual.rectangle_order (scenario_c_individual [0; 1]%Z)) ->
       assignment_agrees scenario_c_packed [0; 0]%Z id.
Proof.
  apply (pack_rectangles_assignments_agree
           scenario_c (scenario_c_individual [0; 1]%Z)
           (constant_rng 0) (mkRng (fun _ => 0%Z) 1)
           scenario_c_packed 2%Z [0; 0]%Z).
  - apply Permutation_refl.
  - vm_compute. reflexivity.
Defined.

(** ** Stacked pairs, clashes and rounding *)




(** ** The clash penalty among the fitness terms *)



(** ** The sentinel of [evaluate_fitness] *)




(** ** The container count and the packing *)

(** C10 as stated fails: the rectangle order and the height list do not
    determine the packing, the container count is read as well.  With
    three rectangles (5,3), the order 0, 1, 2 and the one height 12, an
    individual with one container gets two rectangles placed, and one with
    two containers (the second takes the even share 6) gets all three.
    [copy] produces such an individual: it keeps the container count and
    draws the height list anew. *)
Lemma container_count_changes_the_packing :
  Individual.rectangle_order (three_squares_individual 1)
  = Individual.rectangle_order (three_squares_individual 2)
  /\ Individual.container_heights (three_squares_individual 1)
     = Individual.container_heights (three_squares_individual 2)
  /\ exists cs1 a1 g1 cs2 a2 g2,
       SCO.pack_rectangles three_squares (three_squares_individual 1)
                           (constant_rng 0) = Ok (cs1, 2%Z, a1, g1)
       /\ SCO.pack_rectangles three_squares (three_squares_individual 2)
                              (constant_rng 0) = Ok (cs2, 3%Z, a2, g2)
       /\ length cs1 = 1%nat /\ length cs2 = 2%nat.
Proof.
  split; [reflexivity|]. split; [reflexivity|].
  eexists. eexists. eexists. eexists. eexists. eexists.
  split; [vm_compute; reflexivity|].
  split; [vm_compute; reflexivity|].
  split; reflexivity.
Qed.
